(** * Splitgraph: a shallow embedding of the engine interface, the ingestion
    helpers and the build core, with the properties stated about them.

    Layout: the first half of the file holds the definitions, one module per
    source file (or per component of the design document when the component's
    code lives elsewhere); the second half holds the lemmas and theorems. *)

From Stdlib Require Import ZArith String Ascii List Bool Lia.
From stdpp Require Import base option list gmap strings pretty sorting.

(** ** Python-level plumbing shared by the modules *)

(** Exceptions that the embedded code can raise or let through.  Only
    subclasses of Python's [Exception] are represented. *)
Inductive Exn :=
| IndexError (msg : string)
| KeyError (key : string)
| DatabaseError (msg : string)
| OtherError (name msg : string).

(** State-and-exception computations: the state is kept also when an
    exception escapes, as the effects performed before a [raise] persist. *)
Definition M (S A : Type) : Type := S -> (Exn + A) * S.

#[export] Instance M_ret {S} : MRet (M S) := fun A a s => (inr a, s).

Definition raise {S A} (e : Exn) : M S A := fun s => (inl e, s).

#[export] Instance M_bind {S} : MBind (M S) := fun A B k m s =>
  match m s with
  | (inl e, s') => (inl e, s')
  | (inr a, s') => k a s'
  end.

(** SQL values as they cross the driver boundary. *)
Inductive sqlval :=
| SqlNull
| SqlInt (z : Z)
| SqlText (s : string)
| SqlBool (b : bool).

#[export] Instance sqlval_eq_dec : EqDecision sqlval.
Proof. solve_decision. Defined.

Definition sqlval_encode (v : sqlval) : unit + Z + string + bool :=
  match v with
  | SqlNull => inl (inl (inl tt))
  | SqlInt z => inl (inl (inr z))
  | SqlText s => inl (inr s)
  | SqlBool b => inr b
  end.

Definition sqlval_decode (x : unit + Z + string + bool) : sqlval :=
  match x with
  | inl (inl (inl _)) => SqlNull
  | inl (inl (inr z)) => SqlInt z
  | inl (inr s) => SqlText s
  | inr b => SqlBool b
  end.

#[export] Instance sqlval_countable : Countable sqlval.
Proof.
  apply (inj_countable' sqlval_encode sqlval_decode).
  intros []; reflexivity.
Defined.

(** [s[:n]] on a Python string. *)
Definition py_prefix (n : nat) (s : string) : string := substring 0 n s.

(** [l[-1]] raises [IndexError] on an empty sequence. *)
Definition py_last {A} (l : list A) : Exn + A :=
  match last l with
  | Some x => inr x
  | None => inl (IndexError "list index out of range")
  end.

(** [l[:-1]] *)
Definition py_init {A} (l : list A) : list A := take (length l - 1) l.

(** ** splitgraph/engine/__init__.py *)
Module Engine.

(** Shape that the result of a query will be coerced to. *)
Inductive ResultShape := NONE | ONE_ONE | ONE_MANY | MANY_ONE | MANY_MANY.

(** What [run_sql] hands back to Python, by shape. *)
Inductive Result :=
| PyNone
| Scalar (v : sqlval)
| Tuple (r : list sqlval)
| Column (c : list sqlval)
| Rows (rs : list (list sqlval)).

(** The two methods the base class leaves to the backend ([raise
    NotImplemented()] in the source), over the backend's own state. *)
Class Backend := {
  Db : Type;
  run_sql : string -> list sqlval -> ResultShape -> M Db Result;
  get_primary_keys : string -> string -> M Db (list (list sqlval));
}.

(** Python truthiness of a result, as used by [or]. *)
Definition rows_truthy (rs : list (list sqlval)) : bool :=
  match rs with [] => false | _ => true end.

Definition is_not_None (r : Result) : bool :=
  match r with
  | PyNone => false
  | Scalar SqlNull => false
  | _ => true
  end.

Section Methods.
Context `{Backend}.

(** [for args in arguments: self.run_sql(statement, args,
    return_shape=ResultShape.NONE)] *)
Fixpoint run_sql_batch (statement : string) (arguments : list (list sqlval))
  : M Db unit :=
  match arguments with
  | [] => mret tt
  | args :: rest =>
      _ ← run_sql statement args NONE; run_sql_batch statement rest
  end.

Definition table_exists_query : string :=
  "SELECT table_name from information_schema.tables
                           WHERE table_schema = %s AND table_name = %s".

Definition table_exists (schema table_name : string) : M Db bool :=
  r ← run_sql table_exists_query
        [SqlText schema; SqlText (py_prefix 63 table_name)] ONE_ONE;
  mret (is_not_None r).

Definition column_names_types_query : string :=
  "SELECT column_name, data_type FROM information_schema.columns
                           WHERE table_schema = %s
                           AND table_name = %s".

(** The default shape of [run_sql] is [MANY_MANY]. *)
Definition get_column_names_types (schema table_name : string) : M Db Result :=
  run_sql column_names_types_query [SqlText schema; SqlText table_name] MANY_MANY.

(** [self.get_primary_keys(schema, table) or
    self.get_column_names_types(schema, table)]: the right operand is
    evaluated only when the left one is an empty list. *)
Definition get_change_key (schema table : string) : M Db Result :=
  pks ← get_primary_keys schema table;
  if rows_truthy pks then mret (Rows pks)
  else get_column_names_types schema table.
End Methods.

(** The part of the backend's state that [information_schema] exposes. *)
Class Catalog `{Backend} := {
  (** rows of [information_schema.tables]: (table_schema, table_name) *)
  catalog_tables : Db -> list (string * string);
  (** rows of [information_schema.columns]:
      (table_schema, table_name, column_name, data_type) *)
  catalog_columns : Db -> list (string * string * string * string);
}.

(** Modelled from the spec: the backend's [run_sql] is not part of the
    sources.  The storage adapter returns one of no result, single scalar,
    single row, single column, full row set; the comments of [ResultShape]
    give the forms, and a query without rows has no first row. *)
Definition coerce (shape : ResultShape) (rows : list (list sqlval)) : Result :=
  match shape with
  | NONE => PyNone
  | ONE_ONE => match rows with
               | (v :: _) :: _ => Scalar v
               | _ => PyNone
               end
  | ONE_MANY => match rows with
                | r :: _ => Tuple r
                | [] => PyNone
                end
  | MANY_ONE => Column (omap head rows)
  | MANY_MANY => Rows rows
  end.

Definition select_table_name (tables : list (string * string))
    (schema name : string) : list (list sqlval) :=
  map (fun t => [SqlText (snd t)])
      (filter (fun t => fst t = schema /\ snd t = name) tables).

Definition select_columns (columns : list (string * string * string * string))
    (schema name : string) : list (list sqlval) :=
  map (fun c => [SqlText (snd (fst c)); SqlText (snd c)])
      (filter (fun c => fst (fst (fst c)) = schema /\ snd (fst (fst c)) = name)
              columns).

(** A backend answers the two catalog statements of this file truthfully:
    they read the catalog, change nothing and raise nothing. *)
Class CatalogLaws `{Catalog} : Prop := {
  table_exists_query_spec : forall db schema name shape,
    run_sql table_exists_query [SqlText schema; SqlText name] shape db
    = (inr (coerce shape (select_table_name (catalog_tables db) schema name)), db);
  column_names_types_query_spec : forall db schema name shape,
    run_sql column_names_types_query [SqlText schema; SqlText name] shape db
    = (inr (coerce shape (select_columns (catalog_columns db) schema name)), db);
}.

End Engine.

(** ** splitgraph/core/types.py (declarations used below) *)
Module Types.

(** Modelled from the spec: splitgraph.core.types is not part of the sources.
    A column of a table schema, as the sources build and read it:
    [TableColumn(ordinal, name, pg_type, is_pk)] with an optional
    [comment]. *)
Record TableColumn := {
  ordinal : Z;
  name : string;
  pg_type : string;
  is_pk : bool;
  comment : option string;
}.

Definition TableSchema := list TableColumn.

#[export] Instance TableColumn_eq_dec : EqDecision TableColumn.
Proof. solve_decision. Defined.

End Types.

(** ** splitgraph/hooks/data_source/fdw.py *)
Module MongoDataSource.
Import Types.

(** [any(c.name == "_id" for c in table_schema)] *)
Definition has_id_column (table_schema : TableSchema) : bool :=
  existsb (fun c => String.eqb (name c) "_id") table_schema.

Definition get_table_schema (table_name : string) (table_schema : TableSchema)
  : Exn + TableSchema :=
  if has_id_column table_schema then inr table_schema
  else
    match py_last table_schema with
    | inl e => inl e
    | inr c =>
        inr (table_schema ++
             [{| ordinal := (ordinal c + 1)%Z; name := "_id"; pg_type := "NAME";
                 is_pk := false; comment := None |}])
    end.

End MongoDataSource.

(** ** psycopg2.sql, as the sources use it *)
Module PySql.

(** [SQL(text)], [Identifier(name)] and the [Composed] sequences that [+],
    [join] and [format] build. *)
#[warnings="-register-all"] Inductive Composable :=
| SQL (s : string)
| Identifier (s : string)
| Composed (parts : list Composable).

Definition dquote : ascii := ascii_of_nat 34.

(** Identifier quoting: the name between double quotes, each double quote
    of the name doubled. *)
Fixpoint double_quotes (s : string) : string :=
  match s with
  | EmptyString => EmptyString
  | String c r =>
      if Ascii.eqb c dquote then String dquote (String dquote (double_quotes r))
      else String c (double_quotes r)
  end.

Definition quote_ident (s : string) : string :=
  String dquote (double_quotes s +:+ String dquote EmptyString).

(** [c.as_string(connection)], the text that the driver sends. *)
Fixpoint as_string (c : Composable) : string :=
  match c with
  | SQL s => s
  | Identifier s => quote_ident s
  | Composed l =>
      (fix go (l : list Composable) : string :=
         match l with
         | [] => EmptyString
         | x :: r => as_string x +:+ go r
         end) l
  end.

(** The sequence that an operand of [+] contributes. *)
Definition parts_of (c : Composable) : list Composable :=
  match c with
  | Composed l => l
  | _ => [c]
  end.

(** [a + b] (and [a += b], which rebinds [a] to it). *)
Definition add (a b : Composable) : Composable :=
  Composed (parts_of a ++ parts_of b).

(** [sep.join(seq)]: the items with [sep] between them, not flattened. *)
Fixpoint join_items (sep : Composable) (seq : list Composable)
  : list Composable :=
  match seq with
  | [] => []
  | [x] => [x]
  | x :: rest => x :: sep :: join_items sep rest
  end.

Definition join (sep : Composable) (seq : list Composable) : Composable :=
  Composed (join_items sep seq).

(** *** [SQL(template).format(args)] with positional arguments *)

(** Where the scan of the template stands: in literal text, after an
    opening or a closing brace, or inside a replacement field ([depth]
    counts the braces nested in it). *)
Inductive fmt_state :=
| FText (lit : string)
| FOpen (lit : string)
| FClose (lit : string)
| FField (lit : string) (field : string) (depth : nat).

(** The pieces produced so far and the automatic field counter ([None]
    once a numbered field has been used). *)
Record fmt := {
  fmt_out : list Composable;
  fmt_autonum : option nat;
}.

Definition ValueError (msg : string) : Exn := OtherError "ValueError" msg.

Definition snoc_char (s : string) (c : ascii) : string :=
  s +:+ String c EmptyString.

(** [if pre: rv.append(SQL(pre))] *)
Definition emit_lit (lit : string) (out : list Composable) : list Composable :=
  match lit with
  | EmptyString => out
  | _ => out ++ [SQL lit]
  end.

Definition is_digit (c : ascii) : bool :=
  let n := nat_of_ascii c in (48 <=? n)%nat && (n <=? 57)%nat.

Fixpoint all_digits (s : string) : bool :=
  match s with
  | EmptyString => true
  | String c r => is_digit c && all_digits r
  end.

Fixpoint int_of_digits (acc : nat) (s : string) : nat :=
  match s with
  | EmptyString => acc
  | String c r => int_of_digits (10 * acc + (nat_of_ascii c - 48)) r
  end.

Fixpoint has_char (c : ascii) (s : string) : bool :=
  match s with
  | EmptyString => false
  | String c' r => Ascii.eqb c c' || has_char c r
  end.

(** The text before the first [c], and what follows that [c]. *)
Fixpoint split_at (c : ascii) (s : string) : string * option string :=
  match s with
  | EmptyString => (EmptyString, None)
  | String c' r =>
      if Ascii.eqb c c' then (EmptyString, Some r)
      else let '(a, b) := split_at c r in (String c' a, b)
  end.

Definition py_index {A} (l : list A) (n : nat) : Exn + A :=
  match l !! n with
  | Some x => inr x
  | None => inl (IndexError "tuple index out of range")
  end.

(** One replacement field with the text [field] between its braces.  A
    conversion or a format specification is refused; a numbered field reads
    [args] at that index, an empty one at the automatic counter, and a named
    one fails as no keyword argument is ever passed. *)
Definition take_field (args : list Composable) (field : string) (f : fmt)
  : Exn + fmt :=
  if has_char "!"%char field then
    inl (ValueError "no format conversion supported by SQL")
  else
    let '(fname, spec) := split_at ":"%char field in
    match spec with
    | Some (String _ _) =>
        inl (ValueError "no format specification supported by SQL")
    | _ =>
        match fname with
        | EmptyString =>
            match fmt_autonum f with
            | None =>
                inl (ValueError
                  "cannot switch from manual field numbering to automatic")
            | Some n =>
                match py_index args n with
                | inl e => inl e
                | inr a => inr {| fmt_out := fmt_out f ++ [a];
                                  fmt_autonum := Some (S n) |}
                end
            end
        | _ =>
            if all_digits fname then
              match fmt_autonum f with
              | Some (S _) =>
                  inl (ValueError
                    "cannot switch from automatic field numbering to manual")
              | _ =>
                  match py_index args (int_of_digits 0 fname) with
                  | inl e => inl e
                  | inr a => inr {| fmt_out := fmt_out f ++ [a];
                                    fmt_autonum := None |}
                  end
              end
            else inl (KeyError fname)
        end
    end.

(** The scan: doubled braces stand for one brace and close the current
    literal piece, a single closing brace is an error, a field is closed by
    its matching brace. *)
Fixpoint format_scan (args : list Composable) (st : fmt_state) (f : fmt)
    (template : string) : Exn + list Composable :=
  match template with
  | EmptyString =>
      match st with
      | FText lit => inr (emit_lit lit (fmt_out f))
      | FOpen _ => inl (ValueError "Single '{' encountered in format string")
      | FClose _ => inl (ValueError "Single '}' encountered in format string")
      | FField _ _ _ => inl (ValueError "expected '}' before end of string")
      end
  | String c rest =>
      match st with
      | FText lit =>
          if Ascii.eqb c "{"%char then format_scan args (FOpen lit) f rest
          else if Ascii.eqb c "}"%char then format_scan args (FClose lit) f rest
          else format_scan args (FText (snoc_char lit c)) f rest
      | FOpen lit =>
          if Ascii.eqb c "{"%char then
            format_scan args (FText EmptyString)
              {| fmt_out := emit_lit (snoc_char lit c) (fmt_out f);
                 fmt_autonum := fmt_autonum f |} rest
          else if Ascii.eqb c "}"%char then
            match take_field args EmptyString
                    {| fmt_out := emit_lit lit (fmt_out f);
                       fmt_autonum := fmt_autonum f |} with
            | inl e => inl e
            | inr f' => format_scan args (FText EmptyString) f' rest
            end
          else format_scan args (FField lit (String c EmptyString) 0) f rest
      | FClose lit =>
          if Ascii.eqb c "}"%char then
            format_scan args (FText EmptyString)
              {| fmt_out := emit_lit (snoc_char lit c) (fmt_out f);
                 fmt_autonum := fmt_autonum f |} rest
          else inl (ValueError "Single '}' encountered in format string")
      | FField lit field depth =>
          if Ascii.eqb c "{"%char then
            format_scan args (FField lit (snoc_char field c) (S depth)) f rest
          else if Ascii.eqb c "}"%char then
            match depth with
            | S d => format_scan args (FField lit (snoc_char field c) d) f rest
            | O =>
                match take_field args field
                        {| fmt_out := emit_lit lit (fmt_out f);
                           fmt_autonum := fmt_autonum f |} with
                | inl e => inl e
                | inr f' => format_scan args (FText EmptyString) f' rest
                end
            end
          else format_scan args (FField lit (snoc_char field c) depth) f rest
      end
  end.

Definition format (template : string) (args : list Composable)
  : Exn + Composable :=
  match format_scan args (FText EmptyString)
          {| fmt_out := []; fmt_autonum := Some 0 |} template with
  | inl e => inl e
  | inr out => inr (Composed out)
  end.

(** Text without braces: [format] copies it. *)
Fixpoint no_braces (s : string) : bool :=
  match s with
  | EmptyString => true
  | String c r =>
      negb (Ascii.eqb c "{"%char) && negb (Ascii.eqb c "}"%char) && no_braces r
  end.

(** [sep.join(items)] on Python strings. *)
Fixpoint str_join (sep : string) (items : list string) : string :=
  match items with
  | [] => EmptyString
  | [x] => x
  | x :: rest => x +:+ sep +:+ str_join sep rest
  end.

End PySql.

(** ** Python values, dictionaries and control flow used below *)
Module Py.

(** The scalar values that options, parameters and credentials hold. *)
Inductive pyval :=
| PNone
| PStr (s : string)
| PInt (z : Z)
| PBool (b : bool).

#[export] Instance pyval_eq_dec : EqDecision pyval.
Proof. solve_decision. Defined.

(** [str(v)] *)
Definition py_str (v : pyval) : string :=
  match v with
  | PNone => "None"
  | PStr s => s
  | PInt z => pretty z
  | PBool true => "True"
  | PBool false => "False"
  end.

(** A [dict] with string keys: its items in insertion order, each key
    once. *)
Abbreviation Dict V := (list (string * V)).

Fixpoint dict_get {V} (k : string) (d : Dict V) : option V :=
  match d with
  | [] => None
  | (k', v) :: rest => if String.eqb k k' then Some v else dict_get k rest
  end.

(** [d[k]] *)
Definition dict_item {V} (k : string) (d : Dict V) : Exn + V :=
  match dict_get k d with
  | Some v => inr v
  | None => inl (KeyError k)
  end.

(** [d[k] = v]: a present key keeps its place, a new one goes last. *)
Fixpoint dict_set {V} (k : string) (v : V) (d : Dict V) : Dict V :=
  match d with
  | [] => [(k, v)]
  | (k', v') :: rest =>
      if String.eqb k k' then (k', v) :: rest
      else (k', v') :: dict_set k v rest
  end.

(** [d.update(items)], also the effect of [**items] in a dict display. *)
Definition dict_update {V} (d : Dict V) (items : list (string * V)) : Dict V :=
  fold_left (fun acc kv => dict_set (fst kv) (snd kv) acc) items d.

Definition dict_keys {V} (d : Dict V) : list string := map fst d.
Definition dict_values {V} (d : Dict V) : list V := map snd d.

(** Raising and returning without a state. *)
#[export] Instance Exn_ret : MRet (sum Exn) := fun A a => inr a.

#[export] Instance Exn_bind : MBind (sum Exn) := fun A B k m =>
  match m with
  | inl e => inl e
  | inr a => k a
  end.

Definition liftE {S A} (r : Exn + A) : M S A := fun s => (r, s).

(** [try: body finally: final]: [final] runs however [body] ends; if it
    raises, its exception is the one that escapes. *)
Definition try_finally {S A} (body : M S A) (final : M S unit) : M S A :=
  fun s =>
    let '(r, s') := body s in
    match final s' with
    | (inl e, s'') => (inl e, s'')
    | (inr _, s'') => (r, s'')
    end.

(** [try: body except psycopg2.DatabaseError as e: handler(e)] *)
Definition except_DatabaseError {S A} (body : M S A) (handler : string -> M S A)
  : M S A :=
  fun s =>
    match body s with
    | (inl (DatabaseError msg), s') => handler msg s'
    | r => r
    end.

(** [for x in xs: body(x)] *)
Fixpoint for_each {S A} (xs : list A) (body : A -> M S unit) : M S unit :=
  match xs with
  | [] => mret tt
  | x :: rest => _ ← body x; for_each rest body
  end.

End Py.

(** ** splitgraph/ingestion/singer/_utils.py *)
Module Singer.
Import Types PySql.

(** Modelled from the spec: [get_change_key(schema_spec)] of
    splitgraph.engine.postgres.engine is not part of the sources; the design
    document defines the change key as the primary-key columns, or all
    columns if the table has none. *)
Definition get_change_key (schema_spec : TableSchema) : list (string * string) :=
  let pk := filter (fun c => is_pk c = true) schema_spec in
  map (fun c => (name c, pg_type c))
      (match pk with [] => schema_spec | _ => pk end).

(** A relation held by the engine: column names and rows. *)
Record Relation := {
  rel_columns : list string;
  rel_rows : list (list sqlval);
}.

(** The engine's relations, by (schema, table). *)
Abbreviation Tables := (gmap (string * string) Relation).

(** [engine.run_sql(query)] with a statement text and the default shape:
    the rows as tuples, or an exception.  [PostgresEngine] is not part of
    the sources and is taken through this interface, over the relations
    that the engine holds. *)
Class SqlEngine := {
  run_sql : string -> Tables -> Exn + list (list sqlval);
}.

(** Python dictionaries of this function: the changeset and the (always
    empty) row dictionaries. *)
Abbreviation RowDict := (gmap string sqlval).
Abbreviation Changeset := (gmap (list sqlval) (sqlval * RowDict * RowDict)).

(** [{tuple(row[:-1]): (row[-1], {}, {}) for row in result}]: rows are
    visited in order, a later row with the same key replaces the entry. *)
Fixpoint changeset_of_rows (acc : Changeset) (result : list (list sqlval))
  : Exn + Changeset :=
  match result with
  | [] => inr acc
  | row :: rest =>
      match py_last row with
      | inl e => inl e
      | inr upserted =>
          changeset_of_rows (<[py_init row := (upserted, ∅, ∅)]> acc) rest
      end
  end.

(** The query is [SQL("SELECT ") + SQL(",").join(SQL("n.") + Identifier(c)
    for c in change_key) + SQL(",") + SQL(upsert_condition + " AS upserted
    FROM {}.{} n").format(Identifier(schema), Identifier(table))], rendered
    with [as_string]; [format] reads the condition as part of its template
    and raises on a brace that it cannot place. *)
Definition _make_changeset `{SqlEngine} (engine : Tables) (schema table : string)
    (schema_spec : TableSchema) (upsert_condition : string) : Exn + Changeset :=
  let change_key := map fst (get_change_key schema_spec) in
  match format (upsert_condition +:+ " AS upserted FROM {}.{} n")
               [Identifier schema; Identifier table] with
  | inl e => inl e
  | inr from_clause =>
      let query :=
        as_string
          (add (add (add (SQL "SELECT ")
                         (join (SQL ",")
                               (map (fun c => add (SQL "n.") (Identifier c))
                                    change_key)))
                    (SQL ","))
               from_clause) in
      match run_sql query engine with
      | inl e => inl e
      | inr result => changeset_of_rows ∅ result
      end
  end.

(** The default of the [upsert_condition] parameter. *)
Definition default_upsert_condition : string := "TRUE".

(** *** What the statement asks the engine for *)

(** The statement that [_make_changeset] assembles:
    [SELECT n.c1,...,n.ck, <condition> AS upserted FROM schema.table n]. *)
Record SelectQuery := {
  q_columns : list string;
  q_condition : string;
  q_schema : string;
  q_table : string;
}.

(** Evaluation of an SQL expression on one row, left to the engine;
    the literal TRUE is true. *)
Class ExprEval := {
  eval_expr : string -> list string -> list sqlval -> sqlval;
  eval_TRUE : forall cols r, eval_expr "TRUE" cols r = SqlBool true;
}.

(** Position of a column in a relation. *)
Fixpoint column_index (c : string) (cols : list string) : option nat :=
  match cols with
  | [] => None
  | c' :: rest =>
      if String.eqb c c' then Some O else S <$> column_index c rest
  end.

Definition project (idx : list nat) (r : list sqlval) : list sqlval :=
  map (fun i => default SqlNull (r !! i)) idx.

(** Modelled from the spec: the engine that executes the statement is not
    part of the sources.  The SELECT gives one tuple per row of the
    relation, the selected columns followed by the condition.  The engine
    rejects an empty select list (the rendered text is [SELECT ,cond ...]),
    an unknown relation and an unknown column. *)
Definition select `{ExprEval} (q : SelectQuery) (db : Tables)
  : Exn + list (list sqlval) :=
  match q_columns q with
  | [] => inl (DatabaseError "syntax error at or near ,")
  | _ =>
      match db !! (q_schema q, q_table q) with
      | None => inl (DatabaseError "relation does not exist")
      | Some rel =>
          match mapM (fun c => column_index c (rel_columns rel)) (q_columns q) with
          | None => inl (DatabaseError "column does not exist")
          | Some idx =>
              inr (map (fun r => project idx r
                                 ++ [eval_expr (q_condition q) (rel_columns rel) r])
                       (rel_rows rel))
          end
      end
  end.

End Singer.

(** ** splitgraph/ingestion/csv/fdw.py *)
Module CsvFdw.

Abbreviation Options := (gmap string string).

(** Multicorn's [TableDefinition]; a column is (column_name, type_name). *)
Record TableDefinition := {
  table_name : string;
  columns : list (string * string);
  options : Options;
}.

(** The payload that [report_errors] serializes and hands to
    [log_to_postgres]. *)
Record Notice := {
  notice_table_name : string;
  notice_error : string;
  notice_error_text : string;
}.

(** The collaborators of this file whose code lives elsewhere: option
    parsing, the S3 and HTTP clients, schema inference.  Each either
    returns or raises. *)
Class Remote := {
  Client : Type;
  Response : Type;
  json_loads : string -> Exn + list (string * Options);
  load_options : Options -> Exn + Options;
  get_s3_params : Options -> Exn + (Client * string * string);
  list_objects : Client -> string -> string -> Exn + list string;
  get_object : Client -> string -> string -> Exn + Response;
  http_get : string -> Exn + Response;
  close_response : Response -> Exn + unit;
  _get_table_definition :
    Response -> Options -> string -> Options -> Exn + TableDefinition;
  get_exception_name : Exn -> string;
  exception_text : Exn -> string;
}.

(** The notices sent so far are the state of an import. *)
Abbreviation Import := (M (list Notice)).

Definition lift {A} (r : Exn + A) : Import A := fun s => (r, s).

(** [with report_errors(table_name): body]: an exception of the body is
    turned into a notice and the block ends normally, so that the enclosing
    function falls through to its implicit [return None]. *)
Definition report_errors `{Remote} {A} (table_name : string) (body : Import A)
  : Import (option A) :=
  fun s =>
    match body s with
    | (inr a, s') => (inr (Some a), s')
    | (inl e, s') =>
        (inr None,
         s' ++ [{| notice_table_name := table_name;
                   notice_error := get_exception_name e;
                   notice_error_text := exception_text e |}])
    end.

(** [x or y] on strings and on option dictionaries. *)
Definition str_or (x : option string) (y : string) : string :=
  match x with
  | Some s => if String.eqb s "" then y else s
  | None => y
  end.

Definition py_drop (n : nat) (s : string) : string :=
  substring n (String.length s - n) s.

Section Introspection.
Context `{Remote}.

(** The [try ... finally] inside [_introspect_s3]. *)
Definition fetch_s3 (client : Client) (bucket object_id : string)
    (srv_options : Options) (table_name : string) (table_options : Options)
  : Exn + TableDefinition :=
  match get_object client bucket object_id with
  | inl e => inl e
  | inr response =>
      let r := _get_table_definition response srv_options table_name table_options in
      match close_response response with
      | inl e => inl e
      | inr _ => r
      end
  end.

Definition _introspect_s3 (client : Client) (bucket object_id : string)
    (srv_options : Options) (table_name : option string)
    (table_options : option Options) : Import (option TableDefinition) :=
  let table_name :=
    str_or table_name
      (py_drop (String.length (default "" (srv_options !! "s3_object_prefix")))
               object_id) in
  let table_options := <["s3_object" := object_id]> (default ∅ table_options) in
  report_errors table_name
    (lift (fetch_s3 client bucket object_id srv_options table_name table_options)).

Definition fetch_url (srv_options : Options) (url table_name : string)
    (table_options : Options) : Exn + TableDefinition :=
  match http_get url with
  | inl e => inl e
  | inr response =>
      _get_table_definition response srv_options table_name table_options
  end.

Definition _introspect_url (srv_options : Options) (url : string)
    (table_name : option string) (table_options : option Options)
  : Import (option TableDefinition) :=
  let table_name := str_or table_name "data" in
  let table_options := default ∅ table_options in
  report_errors table_name
    (lift (fetch_url srv_options url table_name table_options)).

(** The loop over [objects] of the full-scan branch, appending to
    [result]. *)
Fixpoint scan_objects (client : Client) (bucket : string)
    (srv_options : Options) (restriction_type : option string)
    (restricts : list string) (objects : list string)
    (result : list (option TableDefinition))
  : Import (list (option TableDefinition)) :=
  match objects with
  | [] => mret result
  | o :: rest =>
      if bool_decide (restriction_type = Some "except")
         && bool_decide (o ∈ restricts)
      then scan_objects client bucket srv_options restriction_type restricts
                        rest result
      else
        r ← _introspect_s3 client bucket o srv_options None None;
        scan_objects client bucket srv_options restriction_type restricts
                     rest (result ++ [r])
  end.

(** The body of the loop over [table_options.items()]: the table is read
    from S3 when its options name an object, from its URL otherwise. *)
Definition introspect_table (srv_options : Options) (table_name : string)
    (this_table_options : Options) : Import (option TableDefinition) :=
  match this_table_options !! "s3_object" with
  | Some object_id =>
      p ← lift (get_s3_params srv_options);
      _introspect_s3 (fst (fst p)) (snd (fst p)) object_id srv_options
                     (Some table_name) (Some this_table_options)
  | None =>
      match this_table_options !! "url" with
      | None => raise (KeyError "url")
      | Some url =>
          _introspect_url srv_options url
                          (Some table_name) (Some this_table_options)
      end
  end.

(** The loop over [table_options.items()]. *)
Fixpoint scan_tables (srv_options : Options)
    (items : list (string * Options))
    (result : list (option TableDefinition))
  : Import (list (option TableDefinition)) :=
  match items with
  | [] => mret result
  | (table_name, this_table_options) :: rest =>
      r ← introspect_table srv_options table_name this_table_options;
      scan_tables srv_options rest (result ++ [r])
  end.

(** [[r for r in result if r]]: a table definition is truthy, [None] is
    not. *)
Definition truthy_results (result : list (option TableDefinition))
  : list TableDefinition := omap id result.

Definition py_truthy_str (x : option string) : bool :=
  match x with
  | Some s => negb (String.eqb s "")
  | None => false
  end.

Definition import_schema (schema : string) (srv_options options : Options)
    (restriction_type : option string) (restricts : list string)
  : Import (list TableDefinition) :=
  table_options ← match options !! "table_options" with
                  | Some text => lift (json_loads text)
                  | None => mret []
                  end;
  srv_options ← lift (load_options srv_options);
  match table_options with
  | [] =>
      if py_truthy_str (srv_options !! "url") then
        result ← _introspect_url srv_options
                   (default "" (srv_options !! "url")) None None;
        mret (match result with Some r => [r] | None => [] end)
      else
        p ← lift (get_s3_params srv_options);
        let client := fst (fst p) in
        let bucket := snd (fst p) in
        let prefix := snd p in
        objects ← match srv_options !! "s3_object" with
                  | Some o => mret [o]
                  | None =>
                      if bool_decide (restriction_type = Some "limit")
                      then mret restricts
                      else lift (list_objects client bucket prefix)
                  end;
        result ← scan_objects client bucket srv_options restriction_type
                              restricts objects [];
        mret (truthy_results result)
  | _ =>
      result ← scan_tables srv_options table_options [];
      mret (truthy_results result)
  end.
End Introspection.

End CsvFdw.

(** ** Build-script preprocessing (build engine, [parse]) *)
Module Splitfile.

(** The pieces a script text falls into. *)
Inductive token :=
| Text (c : ascii)
| Placeholder (name : string)
| Escaped (name : string).

#[export] Instance token_eq_dec : EqDecision token.
Proof. solve_decision. Defined.

(** Where the scanner stands: in plain text, after a backslash, after a
    dollar sign (one that followed a backslash when [escaped]), or inside
    the braces with the name read so far, last character first. *)
Inductive scan_state :=
| Plain
| Backslash
| Dollar (escaped : bool)
| Name (escaped : bool) (acc : list ascii).

Definition backslash : ascii := "\"%char.
Definition dollar : ascii := "$"%char.
Definition lbrace : ascii := "{"%char.
Definition rbrace : ascii := "}"%char.

Definition is_blank (c : ascii) : bool :=
  Ascii.eqb c " "%char || Ascii.eqb c "010"%char
  || Ascii.eqb c "009"%char || Ascii.eqb c "013"%char.

(** The characters a pending state stands for when no placeholder
    completes. *)
Definition flush (st : scan_state) : list token :=
  match st with
  | Plain => []
  | Backslash => [Text backslash]
  | Dollar false => [Text dollar]
  | Dollar true => [Text backslash; Text dollar]
  | Name false acc => Text dollar :: Text lbrace :: map Text (rev acc)
  | Name true acc =>
      Text backslash :: Text dollar :: Text lbrace :: map Text (rev acc)
  end.

Definition plain_step (c : ascii) : scan_state * list token :=
  if Ascii.eqb c backslash then (Backslash, [])
  else if Ascii.eqb c dollar then (Dollar false, [])
  else (Plain, [Text c]).

Definition scan_step (st : scan_state) (c : ascii) : scan_state * list token :=
  match st with
  | Plain => plain_step c
  | Backslash =>
      if Ascii.eqb c dollar then (Dollar true, [])
      else if Ascii.eqb c backslash then (Backslash, [Text backslash])
      else (Plain, [Text backslash; Text c])
  | Dollar escaped =>
      if Ascii.eqb c lbrace then (Name escaped [], [])
      else (fst (plain_step c), flush (Dollar escaped) ++ snd (plain_step c))
  | Name escaped acc =>
      if Ascii.eqb c rbrace then
        match acc with
        | [] => (Plain, flush (Name escaped []) ++ [Text rbrace])
        | _ =>
            (Plain,
             [(if escaped then Escaped else Placeholder)
                (string_of_list_ascii (rev acc))])
        end
      else if is_blank c then (Plain, flush (Name escaped acc) ++ [Text c])
      else (Name escaped (c :: acc), [])
  end.

Fixpoint scan (st : scan_state) (s : list ascii) : list token :=
  match s with
  | [] => flush st
  | c :: rest => snd (scan_step st c) ++ scan (fst (scan_step st c)) rest
  end.

Definition lex (text : string) : list token :=
  scan Plain (list_ascii_of_string text).

(** The names of the unescaped placeholders, in order of appearance. *)
Definition referenced (toks : list token) : list string :=
  omap (fun t => match t with Placeholder n => Some n | _ => None end) toks.

Abbreviation Params := (gmap string string).

(** Every referenced name without a binding, once each. *)
Definition unbound (params : Params) (toks : list token) : list string :=
  remove_dups (filter (fun n => params !! n = None) (referenced toks)).

(** What a token contributes to the preprocessed text.  An unbound
    placeholder stays as written; [preprocess] never lets it through. *)
Definition expand (params : Params) (t : token) : string :=
  match t with
  | Text c => String c EmptyString
  | Placeholder n => default ("${" +:+ n +:+ "}") (params !! n)
  | Escaped n => "${" +:+ n +:+ "}"
  end.

Definition render (params : Params) (toks : list token) : string :=
  foldr (fun t acc => expand params t +:+ acc) EmptyString toks.

(** The error of a failed preprocessing pass carries the names it
    lists. *)
Inductive SplitfileError := UnboundParameters (names : list string).

(** Modelled from the spec: [preprocess] of splitgraph.splitfile._parsing is
    not part of the sources.  The design document says: a preprocessing
    pass substitutes [${NAME}] placeholders, honoring backslash-escaping to
    suppress substitution; it fails listing every referenced-but-unbound
    parameter name if any remain (ignoring escaped placeholders).  A NAME is
    taken to be a nonempty run of non-blank characters up to the closing
    brace. *)
Definition preprocess (commands : string) (params : Params)
  : SplitfileError + string :=
  let toks := lex commands in
  match unbound params toks with
  | [] => inr (render params toks)
  | names => inl (UnboundParameters names)
  end.

End Splitfile.

(** ** The versioning core: objects, images, commit, checkout and the build
    engine.

    Modelled from the spec: the modules that implement the commit graph, the
    diff engine, the object store and the build-script executor
    (splitgraph.core, splitgraph.splitfile.execution) are not part of the
    sources; only their tests are.  The definitions of this module follow
    sections 3 and 4 of the design document. *)
Module Core.

(** An image hash or object id: a content digest. *)
Abbreviation hash := string.

(** The all-zero hash of the synthetic empty root. *)
Definition root_hash : hash :=
  "0000000000000000000000000000000000000000000000000000000000000000".

Inductive Error :=
| ParseError (what : string)
| SchemaError (what : string)
| StorageError (what : string)
| ReferenceError (what : string)
| ConsistencyError (what : string).

Inductive value := VInt (z : Z) | VText (s : string).

#[export] Instance value_eq_dec : EqDecision value.
Proof. solve_decision. Defined.

Abbreviation row := (list value).
Abbreviation key := (list value).

Record Column := {
  col_name : string;
  col_type : string;
  is_primary_key : bool;
}.

Abbreviation Schema := (list Column).

(** Modelled from the spec: the change key is the primary-key columns, or
    all columns if the table has none. *)
Fixpoint pk_positions (i : nat) (sch : Schema) : list nat :=
  match sch with
  | [] => []
  | c :: rest =>
      if is_primary_key c then i :: pk_positions (S i) rest
      else pk_positions (S i) rest
  end.

Definition change_key_positions (sch : Schema) : list nat :=
  match pk_positions 0 sch with
  | [] => seq 0 (length sch)
  | pk => pk
  end.

Definition change_key (sch : Schema) : list string :=
  omap (fun i => col_name <$> sch !! i) (change_key_positions sch).

Definition key_of (sch : Schema) (r : row) : key :=
  omap (fun i => r !! i) (change_key_positions sch).

(** *** Objects *)
Inductive change := Upsert (r : row) | Remove.

Abbreviation changeset := (list (key * change)).

Record Object := {
  object_id : hash;
  obj_change_key : list string;
  obj_changes : changeset;
  obj_row_count : nat;
}.

Record TableEntry := {
  te_schema : Schema;
  te_objects : list hash;
}.

Inductive StepKind := IMPORT | SQL.

(** A provenance entry: step type, the source images read as (namespace,
    repository, image hash), and the statement text. *)
Record ProvEntry := {
  prov_kind : StepKind;
  prov_sources : list (string * string * hash);
  prov_text : string;
}.

Record Image := {
  image_hash : hash;
  parent_id : option hash;
  comment : string;
  provenance : list ProvEntry;
  tables : list (string * TableEntry);
}.

#[export] Instance Column_eq_dec : EqDecision Column.
Proof. solve_decision. Defined.
#[export] Instance change_eq_dec : EqDecision change.
Proof. solve_decision. Defined.
#[export] Instance StepKind_eq_dec : EqDecision StepKind.
Proof. solve_decision. Defined.
#[export] Instance ProvEntry_eq_dec : EqDecision ProvEntry.
Proof. solve_decision. Defined.
#[export] Instance TableEntry_eq_dec : EqDecision TableEntry.
Proof. solve_decision. Defined.

(** Modelled from the spec: the two content digests.  An object id is a
    deterministic function of the change key and the (normalized) changeset,
    an image hash of parent, table contents, provenance and comment. *)
Class Digest := {
  hash_changeset : list string -> changeset -> hash;
  hash_image :
    hash -> list (string * TableEntry) -> list ProvEntry -> string -> hash;
}.

(** Modelled from the spec: [freeze(changeset, changeKey)] converts a
    changeset into an immutable, content-addressed object. *)
Definition freeze `{Digest} (changes : changeset) (ck : list string) : Object :=
  {| object_id := hash_changeset ck changes;
     obj_change_key := ck;
     obj_changes := changes;
     obj_row_count := length changes |}.

(** Replaying one object: upserts and removals per key, whole rows. *)
Fixpoint upsert (sch : Schema) (k : key) (r : row) (rows : list row) : list row :=
  match rows with
  | [] => [r]
  | r' :: rest =>
      if decide (key_of sch r' = k) then r :: rest
      else r' :: upsert sch k r rest
  end.

Definition remove_key (sch : Schema) (k : key) (rows : list row) : list row :=
  filter (fun r => key_of sch r <> k) rows.

Definition apply_change (sch : Schema) (rows : list row) (c : key * change)
  : list row :=
  match snd c with
  | Upsert r => upsert sch (fst c) r rows
  | Remove => remove_key sch (fst c) rows
  end.

(** Modelled from the spec: [apply(object, targetTable)] replays the
    changes in order. *)
Definition apply_object (sch : Schema) (o : Object) (rows : list row) : list row :=
  foldl (apply_change sch) rows (obj_changes o).

(** *** The store: the images of the output repository, the objects, and
    the checkout pointer. *)
Record Store := {
  images : list Image;
  objects : list Object;
  HEAD : hash;
}.

Definition find_image (imgs : list Image) (h : hash) : option Image :=
  find (fun i => String.eqb (image_hash i) h) imgs.

Definition find_object (objs : list Object) (id : hash) : option Object :=
  find (fun o => String.eqb (object_id o) id) objs.

(** Writing an object whose id is already stored is a no-op. *)
Definition store_object (o : Object) (objs : list Object) : list Object :=
  match find_object objs (object_id o) with
  | Some _ => objs
  | None => objs ++ [o]
  end.

Definition set_head (st : Store) (h : hash) : Store :=
  {| images := images st; objects := objects st; HEAD := h |}.

Definition root_image : Image :=
  {| image_hash := root_hash; parent_id := None; comment := "";
     provenance := []; tables := [] |}.

(** A repository before its first commit. *)
Definition empty_store : Store :=
  {| images := [root_image]; objects := []; HEAD := root_hash |}.

(** Association lists keyed by table name: first match wins, an update
    replaces in place or appends. *)
Fixpoint assoc {V} (k : string) (l : list (string * V)) : option V :=
  match l with
  | [] => None
  | (k', v) :: rest => if String.eqb k' k then Some v else assoc k rest
  end.

Fixpoint assoc_set {V} (k : string) (v : V) (l : list (string * V))
  : list (string * V) :=
  match l with
  | [] => [(k, v)]
  | (k', v') :: rest =>
      if String.eqb k' k then (k, v) :: rest
      else (k', v') :: assoc_set k v rest
  end.

(** Modelled from the spec: applying a table entry's objects in commit
    order, oldest first, reconstructs the table. *)
Fixpoint apply_objects (objs : list Object) (sch : Schema) (ids : list hash)
    (rows : list row) : Error + list row :=
  match ids with
  | [] => inr rows
  | id :: rest =>
      match find_object objs id with
      | None => inl (StorageError id)
      | Some o => apply_objects objs sch rest (apply_object sch o rows)
      end
  end.

Definition materialize (objs : list Object) (te : TableEntry) : Error + list row :=
  apply_objects objs (te_schema te) (te_objects te) [].

(** *** The working copy and the diff engine *)
Inductive change_kind := Inserted | Updated | Deleted.

#[export] Instance change_kind_eq_dec : EqDecision change_kind.
Proof. solve_decision. Defined.

(** A checked-out table: its rows and, while tracked, the pending changes
    since the last commit, latest change per key only. *)
Record WorkTable := {
  wt_schema : Schema;
  wt_rows : list row;
  wt_tracked : bool;
  wt_pending : list (key * change_kind);
}.

Abbreviation Workspace := (list (string * WorkTable)).

(** The rows a workspace shows under a table name; none when the name is
    not there. *)
Definition rows_of (ws : Workspace) (t : string) : list row :=
  match assoc t ws with
  | Some wt => wt_rows wt
  | None => []
  end.

(** Last write wins within the pending window. *)
Definition record_change (k : key) (kind : change_kind)
    (pending : list (key * change_kind)) : list (key * change_kind) :=
  filter (fun p => fst p <> k) pending ++ [(k, kind)].

Definition has_key (sch : Schema) (k : key) (rows : list row) : bool :=
  existsb (fun r => bool_decide (key_of sch r = k)) rows.

Definition audit (wt : WorkTable) (rows : list row) (k : key)
    (kind : change_kind) : WorkTable :=
  {| wt_schema := wt_schema wt;
     wt_rows := rows;
     wt_tracked := wt_tracked wt;
     wt_pending := if wt_tracked wt then record_change k kind (wt_pending wt)
                   else wt_pending wt |}.

(** [track(table)] and [untrack(table)] *)
Definition set_tracked (b : bool) (wt : WorkTable) : WorkTable :=
  {| wt_schema := wt_schema wt; wt_rows := wt_rows wt; wt_tracked := b;
     wt_pending := if b then wt_pending wt else [] |}.

(** [discardPending(table)] *)
Definition discard_pending (wt : WorkTable) : WorkTable :=
  {| wt_schema := wt_schema wt; wt_rows := wt_rows wt;
     wt_tracked := wt_tracked wt; wt_pending := [] |}.

Definition on_table (t : string) (f : WorkTable -> Error + WorkTable)
    (ws : Workspace) : Error + Workspace :=
  match assoc t ws with
  | None => inl (SchemaError t)
  | Some wt =>
      match f wt with
      | inl e => inl e
      | inr wt' => inr (assoc_set t wt' ws)
      end
  end.

Definition track (t : string) : Workspace -> Error + Workspace :=
  on_table t (fun wt => inr (set_tracked true wt)).

Definition untrack (t : string) : Workspace -> Error + Workspace :=
  on_table t (fun wt => inr (set_tracked false wt)).

(** The row-level statements the relational engine performs on a working
    copy.  A table created in a working copy is tracked from the start. *)
Inductive dml :=
| CreateTable (t : string) (sch : Schema)
| InsertRow (t : string) (r : row)
| UpdateRow (t : string) (r : row)
| DeleteRow (t : string) (k : key).

Definition exec_dml (op : dml) (ws : Workspace) : Error + Workspace :=
  match op with
  | CreateTable t sch =>
      match assoc t ws with
      | Some _ => inl (SchemaError t)
      | None =>
          inr (ws ++ [(t, {| wt_schema := sch; wt_rows := [];
                             wt_tracked := true; wt_pending := [] |})])
      end
  | InsertRow t r =>
      on_table t (fun wt =>
        let k := key_of (wt_schema wt) r in
        if negb (length r =? length (wt_schema wt))%nat then inl (SchemaError t)
        else if has_key (wt_schema wt) k (wt_rows wt) then inl (StorageError t)
        else inr (audit wt (wt_rows wt ++ [r]) k Inserted)) ws
  | UpdateRow t r =>
      on_table t (fun wt =>
        let k := key_of (wt_schema wt) r in
        if negb (length r =? length (wt_schema wt))%nat then inl (SchemaError t)
        else if has_key (wt_schema wt) k (wt_rows wt)
        then inr (audit wt (upsert (wt_schema wt) k r (wt_rows wt)) k Updated)
        else inr wt) ws
  | DeleteRow t k =>
      on_table t (fun wt =>
        if has_key (wt_schema wt) k (wt_rows wt)
        then inr (audit wt (remove_key (wt_schema wt) k (wt_rows wt)) k Deleted)
        else inr wt) ws
  end.

Fixpoint exec_all (ops : list dml) (ws : Workspace) : Error + Workspace :=
  match ops with
  | [] => inr ws
  | op :: rest =>
      match exec_dml op ws with
      | inl e => inl e
      | inr ws' => exec_all rest ws'
      end
  end.

(** The changeset of a dirty table: a removal for a deleted key, the
    current row for an inserted or updated one. *)
Definition changeset_of (wt : WorkTable) : changeset :=
  map (fun p =>
         match snd p with
         | Deleted => (fst p, Remove)
         | _ =>
             match find (fun r => bool_decide (key_of (wt_schema wt) r = fst p))
                        (wt_rows wt) with
             | Some r => (fst p, Upsert r)
             | None => (fst p, Remove)
             end
         end)
      (wt_pending wt).

Definition is_dirty (wt : WorkTable) : bool :=
  wt_tracked wt && negb (bool_decide (wt_pending wt = [])).

Definition parent_objects (parent_tables : list (string * TableEntry))
    (t : string) : list hash :=
  match assoc t parent_tables with
  | Some te => te_objects te
  | None => []
  end.

(** For every table of the working copy: the parent's object list, with a
    new object appended when the table is tracked and dirty. *)
Fixpoint commit_tables `{Digest} (parent_tables : list (string * TableEntry))
    (ws : Workspace) (objs : list Object)
  : list Object * list (string * TableEntry) :=
  match ws with
  | [] => (objs, [])
  | (t, wt) :: rest =>
      let old := parent_objects parent_tables t in
      if is_dirty wt then
        let o := freeze (changeset_of wt) (change_key (wt_schema wt)) in
        let r := commit_tables parent_tables rest (store_object o objs) in
        (fst r, (t, {| te_schema := wt_schema wt;
                       te_objects := old ++ [object_id o] |}) :: snd r)
      else
        let r := commit_tables parent_tables rest objs in
        (fst r, (t, {| te_schema := wt_schema wt; te_objects := old |}) :: snd r)
  end.

Definition discard_all (ws : Workspace) : Workspace :=
  map (fun p => (fst p, discard_pending (snd p))) ws.

(** Modelled from the spec: [commit(repository)] freezes the pending changes
    of every tracked dirty table, builds the image whose table entries are
    the parent's with the new objects appended, computes its hash, persists
    it, advances HEAD and discards the pending changes. *)
Definition commit `{Digest} (st : Store) (ws : Workspace)
    (prov : list ProvEntry) (msg : string) : Error + (Store * Workspace) :=
  match find_image (images st) (HEAD st) with
  | None => inl (ReferenceError (HEAD st))
  | Some parent =>
      let r := commit_tables (tables parent) ws (objects st) in
      let h := hash_image (HEAD st) (snd r) prov msg in
      let img := {| image_hash := h; parent_id := Some (HEAD st);
                    comment := msg; provenance := prov; tables := snd r |} in
      inr ({| images := images st ++ [img]; objects := fst r; HEAD := h |},
           discard_all ws)
  end.

(** Modelled from the spec: [checkout(image, tables, lazy)] in eager mode,
    over all tables of the image; the checked-out tables are tracked. *)
Fixpoint checkout_tables (objs : list Object) (tbls : list (string * TableEntry))
  : Error + Workspace :=
  match tbls with
  | [] => inr []
  | (t, te) :: rest =>
      match materialize objs te with
      | inl e => inl e
      | inr rows =>
          match checkout_tables objs rest with
          | inl e => inl e
          | inr ws =>
              inr ((t, {| wt_schema := te_schema te; wt_rows := rows;
                          wt_tracked := true; wt_pending := [] |}) :: ws)
          end
      end
  end.

Definition checkout (st : Store) (h : hash) : Error + Workspace :=
  match find_image (images st) h with
  | None => inl (ReferenceError h)
  | Some img => checkout_tables (objects st) (tables img)
  end.

(** Modelled from the spec: [log(image)] walks [parent_id] back to the
    root. *)
Fixpoint log_from (fuel : nat) (imgs : list Image) (h : hash) : list Image :=
  match fuel with
  | O => []
  | S fuel' =>
      match find_image imgs h with
      | None => []
      | Some img =>
          img :: match parent_id img with
                 | None => []
                 | Some p => log_from fuel' imgs p
                 end
      end
  end.

Definition log (st : Store) (h : hash) : list Image :=
  log_from (length (images st)) (images st) h.

(** *** The build engine *)

(** A source image is named by tag or by hash prefix. *)
Inductive image_ref := ByTag (tag : string) | ByHash (prefix : string).

Record SourceRef := {
  ref_namespace : string;
  ref_repository : string;
  ref_image : image_ref;
}.

(** A source repository: read, never written, by a run. *)
Record SourceRepo := {
  src_namespace : string;
  src_repository : string;
  src_images : list Image;
  src_tags : list (string * hash);
}.

(** Modelled from the spec: tags map to a hash; a hash prefix must match
    exactly one known hash; anything else is a reference error. *)
Definition resolve_image (repo : SourceRepo) (r : image_ref) : Error + Image :=
  match r with
  | ByTag t =>
      match assoc t (src_tags repo) with
      | None => inl (ReferenceError t)
      | Some h =>
          match find_image (src_images repo) h with
          | None => inl (ReferenceError h)
          | Some img => inr img
          end
      end
  | ByHash p =>
      match filter (fun i => String.prefix p (image_hash i) = true)
                   (src_images repo) with
      | [img] => inr img
      | _ => inl (ReferenceError p)
      end
  end.

Definition resolve (sources : list SourceRepo) (r : SourceRef)
  : Error + (SourceRepo * Image) :=
  match find (fun s => String.eqb (src_namespace s) (ref_namespace r)
                       && String.eqb (src_repository s) (ref_repository r))
             sources with
  | None => inl (ReferenceError (ref_repository r))
  | Some repo =>
      match resolve_image repo (ref_image r) with
      | inl e => inl e
      | inr img => inr (repo, img)
      end
  end.

Fixpoint resolve_all (sources : list SourceRepo) (rs : list SourceRef)
  : Error + list (SourceRepo * Image) :=
  match rs with
  | [] => inr []
  | r :: rest =>
      match resolve sources r with
      | inl e => inl e
      | inr x =>
          match resolve_all sources rest with
          | inl e => inl e
          | inr xs => inr (x :: xs)
          end
      end
  end.

(** One table of an import command: a table name, or an inline query when
    [item_is_query], and the name it gets in the output. *)
Record ImportItem := {
  item_source : string;
  item_alias : string;
  item_is_query : bool;
}.

Inductive Node :=
| From (src : SourceRef)
| Import (src : SourceRef) (items : list ImportItem)
| Sql (statement : string).

(** A command node with its text after parameter substitution. *)
Record Command := {
  cmd_text : string;
  cmd_node : Node;
}.

(** The relational engine, consumed through its interface: which source
    images a statement reads, what a statement does to a working copy, and
    what an import query returns over a source image's tables. *)
Class Adapter := {
  statement_sources : string -> list SourceRef;
  run_statement : string -> list Workspace -> Workspace -> Error + list dml;
  run_query : string -> Workspace -> Error + (Schema * list row);
}.

Definition source_descriptor (x : SourceRepo * Image) : string * string * hash :=
  (src_namespace (fst x), src_repository (fst x), image_hash (snd x)).

(** The cache key of a step: the command text and the resolved hashes of
    the source images, recorded as the image's provenance, together with
    the output HEAD, recorded as the image's parent. *)
Definition step_provenance (kind : StepKind) (text : string)
    (srcs : list (SourceRepo * Image)) : list ProvEntry :=
  [{| prov_kind := kind; prov_sources := map source_descriptor srcs;
      prov_text := text |}].

Definition has_key_of (head : hash) (prov : list ProvEntry) (img : Image) : bool :=
  bool_decide (parent_id img = Some head) && bool_decide (provenance img = prov).

(** An image with that exact key that is a child of the current HEAD. *)
Definition cached_image (st : Store) (prov : list ProvEntry) : option Image :=
  find (has_key_of (HEAD st) prov) (images st).

Definition known (imgs : list Image) (i : Image) : bool :=
  bool_decide (is_Some (find_image imgs (image_hash i))).

(** Images of [src] whose hash the repository does not know yet. *)
Fixpoint adopt (imgs src : list Image) : list Image :=
  match src with
  | [] => imgs
  | i :: rest => adopt (if known imgs i then imgs else imgs ++ [i]) rest
  end.

Definition rows_changeset (sch : Schema) (rows : list row) : changeset :=
  map (fun r => (key_of sch r, Upsert r)) rows.

Section Execution.
Context `{Digest} `{Adapter}.

(** Modelled from the spec: importing one table.  Verbatim, the source
    table's entry is reused as it is; with a query, the query is executed
    over the source image and its result frozen into an object. *)
Definition import_one (objs : list Object) (simg : Image) (it : ImportItem)
  : Error + (list Object * TableEntry) :=
  if item_is_query it then
    match checkout_tables objs (tables simg) with
    | inl e => inl e
    | inr ws =>
        match run_query (item_source it) ws with
        | inl e => inl e
        | inr res =>
            let o := freeze (rows_changeset (fst res) (snd res))
                            (change_key (fst res)) in
            inr (store_object o objs,
                 {| te_schema := fst res; te_objects := [object_id o] |})
        end
    end
  else
    match assoc (item_source it) (tables simg) with
    | None => inl (SchemaError (item_source it))
    | Some te => inr (objs, te)
    end.

Fixpoint import_items (objs : list Object) (simg : Image)
    (items : list ImportItem) (tbls : list (string * TableEntry))
  : Error + (list Object * list (string * TableEntry)) :=
  match items with
  | [] => inr (objs, tbls)
  | it :: rest =>
      match import_one objs simg it with
      | inl e => inl e
      | inr r =>
          import_items (fst r) simg rest (assoc_set (item_alias it) (snd r) tbls)
      end
  end.

(** An import step that is not served from the cache. *)
Definition run_import (srcs : list (SourceRepo * Image))
    (items : list ImportItem) (prov : list ProvEntry) (st : Store)
  : Error + Store :=
  match srcs, find_image (images st) (HEAD st) with
  | [src], Some parent =>
      match import_items (objects st) (snd src) items (tables parent) with
      | inl e => inl e
      | inr r =>
          let h := hash_image (HEAD st) (snd r) prov "" in
          let img := {| image_hash := h; parent_id := Some (HEAD st);
                        comment := ""; provenance := prov;
                        tables := snd r |} in
          inr {| images := images st ++ [img]; objects := fst r; HEAD := h |}
      end
  | _, _ => inl (ReferenceError (HEAD st))
  end.

Fixpoint checkout_sources (objs : list Object) (srcs : list (SourceRepo * Image))
  : Error + list Workspace :=
  match srcs with
  | [] => inr []
  | s :: rest =>
      match checkout_tables objs (tables (snd s)) with
      | inl e => inl e
      | inr ws =>
          match checkout_sources objs rest with
          | inl e => inl e
          | inr wss => inr (ws :: wss)
          end
      end
  end.

(** A statement step that is not served from the cache: the statement
    runs on a checkout of HEAD and the outcome is committed. *)
Definition run_sql_step (srcs : list (SourceRepo * Image))
    (statement : string) (prov : list ProvEntry) (st : Store)
  : Error + Store :=
  match checkout st (HEAD st) with
  | inl e => inl e
  | inr ws =>
      match checkout_sources (objects st) srcs with
      | inl e => inl e
      | inr src_ws =>
          match run_statement statement src_ws ws with
          | inl e => inl e
          | inr ops =>
              match exec_all ops ws with
              | inl e => inl e
              | inr ws' =>
                  match commit st ws' prov "" with
                  | inl e => inl e
                  | inr r => inr (fst r)
                  end
              end
          end
      end
  end.

(** The sources a command reads and the provenance it records. *)
Definition plan (sources : list SourceRepo) (c : Command)
  : Error + (list (SourceRepo * Image) * list ProvEntry) :=
  match cmd_node c with
  | From src =>
      match resolve sources src with
      | inl e => inl e
      | inr x => inr ([x], [])
      end
  | Import src _ =>
      match resolve sources src with
      | inl e => inl e
      | inr x => inr ([x], step_provenance IMPORT (cmd_text c) [x])
      end
  | Sql statement =>
      match resolve_all sources (statement_sources statement) with
      | inl e => inl e
      | inr xs => inr (xs, step_provenance SQL (cmd_text c) xs)
      end
  end.

(** Modelled from the spec: one command.  Selecting a base image makes the
    image and its history known to the output repository and moves HEAD to
    it.  An import or a statement is skipped when an image with its key is a
    child of HEAD, and that image reused. *)
Definition step (sources : list SourceRepo) (c : Command) (st : Store)
  : Error + Store :=
  match plan sources c with
  | inl e => inl e
  | inr (srcs, prov) =>
      match cmd_node c with
      | From _ =>
          match srcs with
          | [src] =>
              inr {| images := adopt (images st) (src_images (fst src));
                     objects := objects st;
                     HEAD := image_hash (snd src) |}
          | _ => inl (ReferenceError (cmd_text c))
          end
      | Import _ items =>
          match cached_image st prov with
          | Some img => inr (set_head st (image_hash img))
          | None => run_import srcs items prov st
          end
      | Sql statement =>
          match cached_image st prov with
          | Some img => inr (set_head st (image_hash img))
          | None => run_sql_step srcs statement prov st
          end
      end
  end.

(** Modelled from the spec: [execute(commands, outputRepository)] runs the
    commands in order; a failing step stops the run and leaves what earlier
    steps committed. *)
Fixpoint execute (sources : list SourceRepo) (commands : list Command)
    (st : Store) : Store * option Error :=
  match commands with
  | [] => (st, None)
  | c :: rest =>
      match step sources c st with
      | inl e => (st, Some e)
      | inr st' => execute sources rest st'
      end
  end.
End Execution.

End Core.

(** ** Reference instances of the interfaces, used to run the definitions on
    concrete inputs *)
Module Reference.
Import Engine.

(** An in-memory backend: the catalog, the primary keys as
    (schema, table, column, type), and the statements executed so far. *)
Record RefDb := {
  ref_tables : list (string * string);
  ref_columns : list (string * string * string * string);
  ref_pks : list (string * string * string * string);
  ref_log : list (string * list sqlval);
}.

Definition ref_logged (stmt : string) (args : list sqlval) (db : RefDb) : RefDb :=
  {| ref_tables := ref_tables db; ref_columns := ref_columns db;
     ref_pks := ref_pks db; ref_log := ref_log db ++ [(stmt, args)] |}.

Definition ref_run_sql (stmt : string) (args : list sqlval)
    (shape : ResultShape) : M RefDb Result :=
  fun db =>
    if String.eqb stmt table_exists_query then
      match args with
      | [SqlText s; SqlText n] =>
          (inr (coerce shape (select_table_name (ref_tables db) s n)), db)
      | _ => (inl (DatabaseError "arguments"), db)
      end
    else if String.eqb stmt column_names_types_query then
      match args with
      | [SqlText s; SqlText n] =>
          (inr (coerce shape (select_columns (ref_columns db) s n)), db)
      | _ => (inl (DatabaseError "arguments"), db)
      end
    else if String.eqb stmt "RAISE" then
      (inl (DatabaseError "raised"), ref_logged stmt args db)
    else (inr (coerce shape []), ref_logged stmt args db).

#[export] Instance ref_backend : Backend := {|
  Db := RefDb;
  run_sql := ref_run_sql;
  get_primary_keys := fun s t db => (inr (select_columns (ref_pks db) s t), db);
|}.

#[export] Instance ref_catalog : Catalog := {|
  catalog_tables := ref_tables;
  catalog_columns := ref_columns;
|}.

#[export] Instance ref_catalog_laws : CatalogLaws.
Proof. split; intros; reflexivity. Qed.

(** A table name of 63 characters, and a longer name that starts with it. *)
Definition name_63 : string :=
  "archive_of_measurements_taken_by_the_weather_station_number_042".

Definition name_70 : string := name_63 +:+ "_backup".

(** A database with one table [public.fruits(fruit_id, name)] keyed by
    [fruit_id], one without a key, [public.log(line)], and one whose name
    has 63 characters. *)
Definition fruits_db : RefDb :=
  {| ref_tables := [("public", "fruits"); ("public", "log");
                    ("public", name_63)];
     ref_columns := [("public", "fruits", "fruit_id", "integer");
                     ("public", "fruits", "name", "character varying");
                     ("public", "log", "line", "text")];
     ref_pks := [("public", "fruits", "fruit_id", "integer")];
     ref_log := [] |}.

(** Conditions of the form TRUE or FALSE; anything else is NULL. *)
#[export] Instance ref_expr_eval : Singer.ExprEval.
Proof.
  refine {| Singer.eval_expr := fun e _ _ =>
              if String.eqb e "TRUE" then SqlBool true
              else if String.eqb e "FALSE" then SqlBool false
              else SqlNull |}.
  reflexivity.
Defined.

(** An engine that reads the SELECT of [_make_changeset] back from its
    text, and answers it as [Singer.select] says. *)
Definition after (prefix s : string) : option string :=
  if String.prefix prefix s
  then Some (substring (String.length prefix)
                       (String.length s - String.length prefix) s)
  else None.

(** A quoted identifier after its opening quote: the name, a doubled quote
    read as one, and the text after the closing quote. *)
Fixpoint read_quoted (s : string) : option (string * string) :=
  match s with
  | EmptyString => None
  | String c r =>
      if Ascii.eqb c PySql.dquote then
        match r with
        | String c' r' =>
            if Ascii.eqb c' PySql.dquote
            then (fun x => (String c (fst x), snd x)) <$> read_quoted r'
            else Some (EmptyString, r)
        | EmptyString => Some (EmptyString, r)
        end
      else (fun x => (String c (fst x), snd x)) <$> read_quoted r
  end.

Definition read_ident (s : string) : option (string * string) :=
  match s with
  | String c r => if Ascii.eqb c PySql.dquote then read_quoted r else None
  | EmptyString => None
  end.

(** The items [n.column,] at the head of the select list. *)
Fixpoint read_columns (fuel : nat) (s : string) : list string * string :=
  match fuel with
  | O => ([], s)
  | S fuel' =>
      match after "n." s ≫= read_ident with
      | Some (c, rest) =>
          match after "," rest with
          | Some rest' =>
              let '(cs, t) := read_columns fuel' rest' in (c :: cs, t)
          | None => ([], s)
          end
      | None => ([], s)
      end
  end.

(** [schema.table n], to the end of the text. *)
Definition read_relation (s : string) : option (string * string) :=
  x ← read_ident s;
  rest ← after "." (snd x);
  y ← read_ident rest;
  if String.eqb (snd y) " n" then Some (fst x, fst y) else None.

(** The condition: the text before the FROM clause that ends the
    statement. *)
Fixpoint read_condition (s : string) : option (string * (string * string)) :=
  match after " AS upserted FROM " s ≫= read_relation with
  | Some relation => Some (EmptyString, relation)
  | None =>
      match s with
      | EmptyString => None
      | String c r =>
          (fun x => (String c (fst x), snd x)) <$> read_condition r
      end
  end.

Definition parse_select (text : string) : option Singer.SelectQuery :=
  t ← after "SELECT " text;
  let '(cols, rest) := read_columns (String.length t) t in
  x ← read_condition rest;
  Some {| Singer.q_columns := cols; Singer.q_condition := fst x;
          Singer.q_schema := fst (snd x); Singer.q_table := snd (snd x) |}.

#[export] Instance ref_sql_engine : Singer.SqlEngine := {|
  Singer.run_sql text db :=
    match parse_select text with
    | Some q => Singer.select q db
    | None => inl (DatabaseError "syntax error")
    end;
|}.

(** A bucket with three objects, of which [broken.csv] cannot be read.
    The text [tables] stands for the JSON of three tables, the text
    [incomplete] for that of three tables of which the second names neither
    an S3 object nor a URL. *)
#[export] Instance ref_remote : CsvFdw.Remote := {|
  CsvFdw.Client := unit;
  CsvFdw.Response := string;
  CsvFdw.json_loads := fun text =>
    if String.eqb text "tables" then
      inr [("fruits", {[ "s3_object" := "a.csv" ]});
           ("missing", {[ "s3_object" := "broken.csv" ]});
           ("remote", {[ "url" := "http://files/data.csv" ]})]
    else if String.eqb text "incomplete" then
      inr [("fruits", {[ "s3_object" := "a.csv" ]});
           ("unnamed", {[ "delimiter" := ";" ]});
           ("remote", {[ "url" := "http://files/data.csv" ]})]
    else inr [];
  CsvFdw.load_options := fun o => inr o;
  CsvFdw.get_s3_params := fun _ => inr (tt, "bucket", "");
  CsvFdw.list_objects := fun _ _ _ => inr ["a.csv"; "broken.csv"; "b.csv"];
  CsvFdw.get_object := fun _ _ o =>
    if String.eqb o "broken.csv" then inl (OtherError "S3Error" "NoSuchKey")
    else inr o;
  CsvFdw.http_get := fun u => inr u;
  CsvFdw.close_response := fun _ => inr tt;
  CsvFdw._get_table_definition := fun r _ t o =>
    inr {| CsvFdw.table_name := t; CsvFdw.columns := [("col_1", "text")];
           CsvFdw.options := o |};
  CsvFdw.get_exception_name := fun e =>
    match e with
    | IndexError _ => "IndexError"
    | KeyError _ => "KeyError"
    | DatabaseError _ => "DatabaseError"
    | OtherError n _ => n
    end;
  CsvFdw.exception_text := fun e =>
    match e with
    | IndexError m | KeyError m | DatabaseError m | OtherError _ m => m
    end;
|}.

(** A staging relation and its schema spec. *)
Definition staging_fruits : Singer.Relation :=
  {| Singer.rel_columns := ["fruit_id"; "name"];
     Singer.rel_rows := [[SqlInt 1; SqlText "apple"]; [SqlInt 2; SqlText "orange"]] |}.

Definition fruits_spec : Types.TableSchema :=
  [{| Types.ordinal := 1; Types.name := "fruit_id"; Types.pg_type := "integer";
      Types.is_pk := true; Types.comment := None |};
   {| Types.ordinal := 2; Types.name := "name"; Types.pg_type := "text";
      Types.is_pk := false; Types.comment := None |}].

(** The script of the preprocessor tests in miniature: one parameter, one
    escaped placeholder. *)
Definition sample_script : string :=
  "FROM repo:${TAG} IMPORT {SELECT '\${ESCAPED}'}".

End Reference.

(** ** Statements of the properties in the words of the design *)
Module Statements.
Import Engine.

(** "Invoking [run_sql] once per argument set, in sequence order, each with
    the no-result shape": the outcome of doing so from a state, an
    exception of one invocation ending the sequence. *)
Inductive invoked_in_order `{Backend} (statement : string)
  : list (list sqlval) -> Db -> (Exn + unit) * Db -> Prop :=
| invoked_none db :
    invoked_in_order statement [] db (inr tt, db)
| invoked_raises args rest db e db' :
    run_sql statement args NONE db = (inl e, db') ->
    invoked_in_order statement (args :: rest) db (inl e, db')
| invoked_next args rest db r db' out :
    run_sql statement args NONE db = (inr r, db') ->
    invoked_in_order statement rest db' out ->
    invoked_in_order statement (args :: rest) db out.

(** The text of the statement that [_make_changeset] sends. *)
Definition select_text (cols : list string) (condition schema table : string)
  : string :=
  "SELECT "
  +:+ PySql.str_join "," (map (fun c => "n." +:+ PySql.quote_ident c) cols)
  +:+ "," +:+ condition +:+ " AS upserted FROM "
  +:+ PySql.quote_ident schema +:+ "." +:+ PySql.quote_ident table +:+ " n".

(** The SELECT that this text is. *)
Definition select_query (cols : list string) (condition schema table : string)
  : Singer.SelectQuery :=
  {| Singer.q_columns := cols; Singer.q_condition := condition;
     Singer.q_schema := schema; Singer.q_table := table |}.

(** The value a row of a relation has in a named column. *)
Definition column_value (cols : list string) (r : list sqlval) (c : string)
  : sqlval :=
  match Singer.column_index c cols with
  | Some i => default SqlNull (r !! i)
  | None => SqlNull
  end.

(** The change-key tuple of a row: its values in the change-key columns. *)
Definition change_key_tuple (schema_spec : Types.TableSchema)
    (rel : Singer.Relation) (r : list sqlval) : list sqlval :=
  map (column_value (Singer.rel_columns rel) r)
      (map fst (Singer.get_change_key schema_spec)).

(** The name [_introspect_s3] gives a table when none is passed: the object
    key without the configured prefix. *)
Definition default_table_name (srv_options : CsvFdw.Options) (object_id : string)
  : string :=
  CsvFdw.py_drop
    (String.length (default "" (srv_options !! "s3_object_prefix"))) object_id.

(** What introspecting one object of a bucket scan comes to: a table
    definition, or the exception raised on the way. *)
Definition s3_outcome `{CsvFdw.Remote} (client : CsvFdw.Client) (bucket : string)
    (srv_options : CsvFdw.Options) (object_id : string)
  : Exn + CsvFdw.TableDefinition :=
  CsvFdw.fetch_s3 client bucket object_id srv_options
    (default_table_name srv_options object_id) {[ "s3_object" := object_id ]}.

(** The objects a scan introspects: all but those an EXCEPT clause names. *)
Definition scanned (restriction_type : option string) (restricts : list string)
    (objects : list string) : list string :=
  filter (fun o => ~ (restriction_type = Some "except" /\ o ∈ restricts)) objects.

Definition notice_for `{CsvFdw.Remote} (table_name : string) (e : Exn)
  : CsvFdw.Notice :=
  {| CsvFdw.notice_table_name := table_name;
     CsvFdw.notice_error := CsvFdw.get_exception_name e;
     CsvFdw.notice_error_text := CsvFdw.exception_text e |}.

(** Of the tables introspected, with their outcomes: the definitions of those
    that succeeded, and one notice for each that raised. *)
Definition definitions_of
    (outcomes : list (string * (Exn + CsvFdw.TableDefinition)))
  : list CsvFdw.TableDefinition :=
  omap (fun x => match snd x with inr d => Some d | inl _ => None end) outcomes.

(** What [_introspect_s3] returns for an outcome. *)
Definition slot (r : Exn + CsvFdw.TableDefinition) : option CsvFdw.TableDefinition :=
  match r with inr d => Some d | inl _ => None end.

Definition notices_of `{CsvFdw.Remote}
    (outcomes : list (string * (Exn + CsvFdw.TableDefinition)))
  : list CsvFdw.Notice :=
  omap (fun x => match snd x with
                 | inl e => Some (notice_for (fst x) e)
                 | inr _ => None
                 end) outcomes.

(** What introspecting one entry of the per-table options comes to: the
    table's name and the outcome of reading its S3 object or its URL. *)
Definition table_outcome `{CsvFdw.Remote} (client : CsvFdw.Client) (bucket : string)
    (srv_options : CsvFdw.Options) (item : string * CsvFdw.Options)
  : string * (Exn + CsvFdw.TableDefinition) :=
  match snd item !! "s3_object" with
  | Some object_id =>
      let name := CsvFdw.str_or (Some (fst item))
                    (default_table_name srv_options object_id) in
      (name, CsvFdw.fetch_s3 client bucket object_id srv_options name
               (<["s3_object" := object_id]> (snd item)))
  | None =>
      let name := CsvFdw.str_or (Some (fst item)) "data" in
      (name, CsvFdw.fetch_url srv_options (default "" (snd item !! "url")) name
               (snd item))
  end.

(** The per-table options of a call: the JSON under [table_options], or
    none. *)
Definition table_options_of `{CsvFdw.Remote} (options : CsvFdw.Options)
  : Exn + list (string * CsvFdw.Options) :=
  match options !! "table_options" with
  | Some text => CsvFdw.json_loads text
  | None => inr []
  end.

(** A table of the per-table options that can be introspected: it names an
    S3 object or a URL. *)
Definition names_source (item : string * CsvFdw.Options) : Prop :=
  is_Some (snd item !! "s3_object") \/ is_Some (snd item !! "url").

(** Error isolation as claimed of every call of [import_schema], here for
    calls with per-table options: once the options are parsed and loaded and
    the S3 parameters obtained, whatever happens while the tables are
    introspected, the call returns table definitions and sends notices; no
    exception comes out of it. *)
Definition isolates_table_errors `{CsvFdw.Remote} (schema : string)
    (srv_options options : CsvFdw.Options) (restriction_type : option string)
    (restricts : list string) : Prop :=
  forall items srv params sent,
    table_options_of options = inr items ->
    items <> [] ->
    CsvFdw.load_options srv_options = inr srv ->
    CsvFdw.get_s3_params srv = inr params ->
    exists definitions notices,
      CsvFdw.import_schema schema srv_options options restriction_type
        restricts sent
      = (inr definitions, sent ++ notices).

(** The column that the Mongo data source adds. *)
Definition id_column (ord : Z) : Types.TableColumn :=
  {| Types.ordinal := ord; Types.name := "_id"; Types.pg_type := "NAME";
     Types.is_pk := false; Types.comment := None |}.

(** The characters of the script text that a token was read from. *)
Definition source_of (t : Splitfile.token) : list ascii :=
  match t with
  | Splitfile.Text c => [c]
  | Splitfile.Placeholder n =>
      Splitfile.dollar :: Splitfile.lbrace
      :: list_ascii_of_string n ++ [Splitfile.rbrace]
  | Splitfile.Escaped n =>
      Splitfile.backslash :: Splitfile.dollar :: Splitfile.lbrace
      :: list_ascii_of_string n ++ [Splitfile.rbrace]
  end.

(** A character that may stand in a parameter name. *)
Definition name_char (c : ascii) : Prop :=
  Ascii.eqb c Splitfile.rbrace = false /\ Splitfile.is_blank c = false.

(** The token of a placeholder, escaped or not. *)
Definition tag (escaped : bool) : string -> Splitfile.token :=
  if escaped then Splitfile.Escaped else Splitfile.Placeholder.

(** A parameter name: at least one character, none of them a closing brace
    or a blank. *)
Definition parameter_name (name : list ascii) : Prop :=
  name <> [] /\ Forall name_char name.

(** The text opens with a placeholder, [${NAME}], or with an escaped
    placeholder, a backslash and [${NAME}]. *)
Definition opens_placeholder (s : list ascii) : Prop :=
  exists name rest,
    parameter_name name
    /\ (s = Splitfile.dollar :: Splitfile.lbrace
             :: name ++ Splitfile.rbrace :: rest
        \/ s = Splitfile.backslash :: Splitfile.dollar :: Splitfile.lbrace
                :: name ++ Splitfile.rbrace :: rest).

(** A script text read from left to right: a placeholder or an escaped
    placeholder wherever one opens, a plain character anywhere else. *)
Inductive reads : list ascii -> list Splitfile.token -> Prop :=
| reads_end :
    reads [] []
| reads_placeholder name rest pieces :
    parameter_name name ->
    reads rest pieces ->
    reads (Splitfile.dollar :: Splitfile.lbrace
             :: name ++ Splitfile.rbrace :: rest)
          (Splitfile.Placeholder (string_of_list_ascii name) :: pieces)
| reads_escaped name rest pieces :
    parameter_name name ->
    reads rest pieces ->
    reads (Splitfile.backslash :: Splitfile.dollar :: Splitfile.lbrace
             :: name ++ Splitfile.rbrace :: rest)
          (Splitfile.Escaped (string_of_list_ascii name) :: pieces)
| reads_text c rest pieces :
    ~ opens_placeholder (c :: rest) ->
    reads rest pieces ->
    reads (c :: rest) (Splitfile.Text c :: pieces).

(** What a piece of the text becomes: a plain character itself, a
    placeholder its bound value, an escaped placeholder [${NAME}] without
    the backslash. *)
Definition substitute (params : Splitfile.Params) (t : Splitfile.token)
  : string :=
  match t with
  | Splitfile.Text c => String c EmptyString
  | Splitfile.Placeholder n => default EmptyString (params !! n)
  | Splitfile.Escaped n => "${" +:+ n +:+ "}"
  end.

Definition substituted (params : Splitfile.Params)
    (pieces : list Splitfile.token) : string :=
  foldr (fun t acc => substitute params t +:+ acc) EmptyString pieces.

(** The characters up to the first closing brace and the text after it,
    when no blank comes before that brace. *)
Fixpoint closing (s : list ascii) : option (list ascii * list ascii) :=
  match s with
  | [] => None
  | c :: r =>
      if Ascii.eqb c Splitfile.rbrace then Some ([], r)
      else if Splitfile.is_blank c then None
      else (fun x => (c :: fst x, snd x)) <$> closing r
  end.

End Statements.

(** ** A digest that writes the content out, used to run the core on
    concrete inputs *)
Module Plain.
Import Core.

Definition value_text (v : value) : string :=
  match v with
  | VInt z => "i" +:+ pretty z
  | VText s => "t" +:+ s
  end.

Definition joined (sep : string) (parts : list string) : string :=
  foldr (fun p acc => p +:+ sep +:+ acc) "" parts.

Definition change_text (c : key * change) : string :=
  "[" +:+ joined "," (map value_text (fst c)) +:+ "]"
  +:+ match snd c with
      | Upsert r => "+" +:+ joined "," (map value_text r)
      | Remove => "-"
      end.

Definition entry_text (t : string * TableEntry) : string :=
  fst t +:+ "=" +:+ joined "," (map col_name (te_schema (snd t)))
  +:+ "@" +:+ joined "," (te_objects (snd t)).

Definition prov_text_of (p : ProvEntry) : string :=
  match prov_kind p with IMPORT => "IMPORT " | SQL => "SQL " end
  +:+ prov_text p +:+ "<"
  +:+ joined "," (map (fun s => snd s) (prov_sources p)).

#[export] Instance plain_digest : Digest := {|
  hash_changeset ck cs :=
    "o:" +:+ joined "," ck +:+ ":" +:+ joined ";" (map change_text cs);
  hash_image parent tbls prov msg :=
    "i:" +:+ parent +:+ ":" +:+ joined ";" (map entry_text tbls)
    +:+ ":" +:+ joined ";" (map prov_text_of prov) +:+ ":" +:+ msg;
|}.

End Plain.

(** ** Scenario A: two commits of a tracked table *)
Module ScenarioA.
Import Core.

Definition fruit_schema : Schema :=
  [{| col_name := "fruit_id"; col_type := "integer"; is_primary_key := true |};
   {| col_name := "name"; col_type := "varchar"; is_primary_key := false |}].

Definition pineapple : row := [VInt 1; VText "pineapple"].
Definition banana : row := [VInt 2; VText "banana"].

Definition bind_err {A B} (x : Error + A) (k : A -> Error + B) : Error + B :=
  match x with
  | inl e => inl e
  | inr a => k a
  end.

(** The working copy before the first commit: the table is created in a
    checkout of the root, tracked, and holds the first row. *)
Definition first_rows : Error + Workspace :=
  bind_err (checkout empty_store root_hash) (fun ws0 =>
  bind_err (exec_dml (CreateTable "my_fruits" fruit_schema) ws0) (fun ws1 =>
  bind_err (track "my_fruits" ws1) (fun ws2 =>
  exec_dml (InsertRow "my_fruits" pineapple) ws2))).

(** Commit, add the second row, commit again. *)
Definition history `{Digest} : Error + Store :=
  bind_err first_rows (fun ws =>
  bind_err (commit empty_store ws [] "first") (fun r1 =>
  bind_err (exec_dml (InsertRow "my_fruits" banana) (snd r1)) (fun ws' =>
  bind_err (commit (fst r1) ws' [] "second") (fun r2 =>
  inr (fst r2))))).

(** The table as a checkout of an image shows it. *)
Definition shown (st : Store) (h : hash) : Error + list row :=
  bind_err (checkout st h) (fun ws => inr (rows_of ws "my_fruits")).

(** The digests that occur in the scenario. *)
Definition object_1 `{Digest} : hash :=
  hash_changeset ["fruit_id"] [([VInt 1], Upsert pineapple)].
Definition object_2 `{Digest} : hash :=
  hash_changeset ["fruit_id"] [([VInt 2], Upsert banana)].
Definition tables_1 `{Digest} : list (string * TableEntry) :=
  [("my_fruits", {| te_schema := fruit_schema; te_objects := [object_1] |})].
Definition tables_2 `{Digest} : list (string * TableEntry) :=
  [("my_fruits", {| te_schema := fruit_schema; te_objects := [object_1; object_2] |})].
Definition commit_1 `{Digest} : Image :=
  {| image_hash := hash_image root_hash tables_1 [] "first";
     parent_id := Some root_hash; comment := "first"; provenance := [];
     tables := tables_1 |}.
Definition commit_2 `{Digest} : Image :=
  {| image_hash := hash_image (image_hash commit_1) tables_2 [] "second";
     parent_id := Some (image_hash commit_1); comment := "second";
     provenance := []; tables := tables_2 |}.

(** The stores after the first and after the second commit. *)
Definition store_1 `{Digest} : Store :=
  {| images := [root_image; commit_1];
     objects := [freeze [([VInt 1], Upsert pineapple)] ["fruit_id"]];
     HEAD := image_hash commit_1 |}.

Definition store_2 `{Digest} : Store :=
  {| images := [root_image; commit_1; commit_2];
     objects := [freeze [([VInt 1], Upsert pineapple)] ["fruit_id"];
                 freeze [([VInt 2], Upsert banana)] ["fruit_id"]];
     HEAD := image_hash commit_2 |}.

Definition clean (rows : list row) : Workspace :=
  [("my_fruits", {| wt_schema := fruit_schema; wt_rows := rows;
                    wt_tracked := true; wt_pending := [] |})].

End ScenarioA.

(** ** An import whose query returns the source table as it is *)
Module Dedup.
Import Core Plain.

(** An engine for the examples.  It understands the queries
    [SELECT * FROM t] and [SELECT * FROM t WHERE fruit_id = 2], and the one
    statement [INSERT INTO my_fruits VALUES (3, 'mayonnaise')]. *)
Definition where_two : string := " WHERE fruit_id = 2".

Definition ends_with (suffix s : string) : bool :=
  (String.length suffix <=? String.length s)%nat
  && String.eqb (substring (String.length s - String.length suffix)
                           (String.length suffix) s) suffix.

Definition select_star (q : string) (ws : Workspace) : Error + (Schema * list row) :=
  if String.prefix "SELECT * FROM " q then
    let body := substring 14 (String.length q - 14) q in
    if ends_with where_two body then
      match assoc (substring 0 (String.length body - String.length where_two) body)
                  ws with
      | Some wt =>
          inr (wt_schema wt,
               filter (fun r => head r = Some (VInt 2)) (wt_rows wt))
      | None => inl (SchemaError q)
      end
    else
      match assoc body ws with
      | Some wt => inr (wt_schema wt, wt_rows wt)
      | None => inl (SchemaError q)
      end
  else inl (ParseError q).

Definition insert_mayonnaise : string :=
  "INSERT INTO my_fruits VALUES (3, 'mayonnaise')".

#[export] Instance star_adapter : Adapter := {|
  statement_sources := fun _ => [];
  run_statement := fun stmt _ _ =>
    if String.eqb stmt insert_mayonnaise
    then inr [InsertRow "my_fruits" [VInt 3; VText "mayonnaise"]]
    else inl (ParseError stmt);
  run_query := select_star;
|}.

Definition apple : row := [VInt 1; VText "apple"].
Definition orange : row := [VInt 2; VText "orange"].

(** The source repository: one commit of a table [fruits] with two rows. *)
Definition source_store : Error + Store :=
  ScenarioA.bind_err
    (exec_all [CreateTable "fruits" ScenarioA.fruit_schema;
               InsertRow "fruits" apple; InsertRow "fruits" orange] [])
    (fun ws => ScenarioA.bind_err (commit empty_store ws [] "fruits")
                 (fun r => inr (fst r))).

Definition source_images : list Image :=
  match source_store with inr st => images st | inl _ => [] end.

Definition source_objects : list Object :=
  match source_store with inr st => objects st | inl _ => [] end.

Definition source_head : hash :=
  match source_store with inr st => HEAD st | inl _ => root_hash end.

Definition source_repo : SourceRepo :=
  {| src_namespace := "test"; src_repository := "pg_mount";
     src_images := source_images; src_tags := [("latest", source_head)] |}.

Definition source_ref : SourceRef :=
  {| ref_namespace := "test"; ref_repository := "pg_mount";
     ref_image := ByTag "latest" |}.

(** The output repository before the build, on the store that also holds
    the source's objects. *)
Definition output_store : Store :=
  {| images := [root_image]; objects := source_objects; HEAD := root_hash |}.

Definition star_item : ImportItem :=
  {| item_source := "SELECT * FROM fruits"; item_alias := "my_fruits";
     item_is_query := true |}.

Definition star_import : Command :=
  {| cmd_text := "FROM test/pg_mount:latest IMPORT {SELECT * FROM fruits} AS my_fruits";
     cmd_node := Import source_ref [star_item] |}.

Definition plain_item : ImportItem :=
  {| item_source := "fruits"; item_alias := "fruits"; item_is_query := false |}.

Definition plain_import : Command :=
  {| cmd_text := "FROM test/pg_mount:latest IMPORT fruits";
     cmd_node := Import source_ref [plain_item] |}.

(** A script in the manner of the build-script tests: two imports, one of
    them through a query that keeps one row, and a statement. *)
Definition filtered_item : ImportItem :=
  {| item_source := "SELECT * FROM fruits WHERE fruit_id = 2";
     item_alias := "my_fruits"; item_is_query := true |}.

(** One import of two tables, the first through a query. *)
Definition mixed_import : Command :=
  {| cmd_text := "FROM test/pg_mount:latest IMPORT {SELECT * FROM fruits WHERE fruit_id = 2} AS my_fruits, fruits";
     cmd_node := Import source_ref [filtered_item; plain_item] |}.

Definition filtered_import : Command :=
  {| cmd_text := "FROM test/pg_mount:latest IMPORT {SELECT * FROM fruits WHERE fruit_id = 2} AS my_fruits";
     cmd_node := Import source_ref [filtered_item] |}.

Definition script : list Command :=
  [filtered_import; plain_import;
   {| cmd_text := "SQL " +:+ insert_mayonnaise;
      cmd_node := Sql insert_mayonnaise |}].

(** The object ids of a table in the image at HEAD. *)
Definition head_objects (st : Store) (t : string) : list hash :=
  match find_image (images st) (HEAD st) with
  | Some img => match assoc t (tables img) with
                | Some te => te_objects te
                | None => []
                end
  | None => []
  end.

End Dedup.

(** ** Statements about the core, in the words of the design *)
Module CoreStatements.
Import Core.

(** The store a second run starts from: what the first run left, possibly
    with more images, the checkout pointer put back. *)
Definition rewound (st : Store) (ext : list Image) (objs : list Object)
    (h : hash) : Store :=
  {| images := images st ++ ext; objects := objs; HEAD := h |}.

(** An executed step appends exactly one image, a child of the HEAD it
    started from that carries the provenance of the step, and moves HEAD to
    it. *)
Definition appends_child (prov : list ProvEntry) (st st' : Store) : Prop :=
  exists img, images st' = images st ++ [img]
              /\ parent_id img = Some (HEAD st)
              /\ provenance img = prov
              /\ HEAD st' = image_hash img.

(** What importing one table does to the objects and which entry it
    yields. *)
Inductive imported `{Digest} `{Adapter} (objs : list Object) (simg : Image) (it : ImportItem)
  : list Object -> TableEntry -> Prop :=
| imported_verbatim te :
    item_is_query it = false ->
    assoc (item_source it) (tables simg) = Some te ->
    imported objs simg it objs te
| imported_query ws sch rows :
    item_is_query it = true ->
    checkout_tables objs (tables simg) = inr ws ->
    run_query (item_source it) ws = inr (sch, rows) ->
    let o := freeze (rows_changeset sch rows) (change_key sch) in
    imported objs simg it (store_object o objs)
             {| te_schema := sch; te_objects := [object_id o] |}.

(** The number of tables of an import that come with a query. *)
Definition queries (items : list ImportItem) : nat :=
  length (filter (fun it => item_is_query it = true) items).

(** The object ids that the images of a repository reference. *)
Definition repo_object_ids (repo : SourceRepo) : list hash :=
  concat (map (fun img => concat (map (fun t => te_objects (snd t)) (tables img)))
              (src_images repo)).

(** Import sharing as the design document words it, for a step that imports
    one table: without a query no object is created and the new image's
    entry has the source table's object ids; with a query exactly one object
    is created, and it is not among the source repository's objects. *)
Definition import_sharing `{Digest} `{Adapter} (sources : list SourceRepo)
    (c : Command) (st : Store) : Prop :=
  forall src it repo simg st',
    cmd_node c = Import src [it] ->
    resolve sources src = inr (repo, simg) ->
    step sources c st = inr st' ->
    if item_is_query it then
      exists o, objects st' = objects st ++ [o]
                /\ object_id o ∉ repo_object_ids repo
    else
      objects st' = objects st
      /\ exists img te,
           find_image (images st') (HEAD st') = Some img
           /\ assoc (item_alias it) (tables img) = Some te
           /\ assoc (item_source it) (tables simg) = Some te.

End CoreStatements.

(** ** splitgraph/engine/postgres/engine.py, the interface *)
Module Postgres.
Import PySql Py.

(** The engine that the data sources and the ingestion drive:
    [PostgresEngine], and [get_temporary_table_id] of
    splitgraph.core.common, whose code lives elsewhere.  The arguments of
    [run_sql] are [None] when the call passes none. *)
Class PgEngine := {
  PgDb : Type;
  PgResult : Type;
  run_sql :
    Composable -> option (list pyval) -> Engine.ResultShape -> M PgDb PgResult;
  commit : M PgDb unit;
  rollback : M PgDb unit;
  delete_schema : string -> M PgDb unit;
  get_all_tables : string -> M PgDb (list string);
  get_full_table_schema : string -> string -> M PgDb Types.TableSchema;
  copy_table : string -> string -> string -> string -> M PgDb unit;
  get_temporary_table_id : M PgDb string;
}.

End Postgres.

(** ** splitgraph/hooks/data_source/fdw.py, the data sources *)
Module Fdw.
Import Types PySql Py Postgres.

(** [TableParams] and [TableInfo] of splitgraph.core.types: a list of table
    names, or a dictionary from table name to schema and parameters. *)
Abbreviation TableParams := (Dict pyval).

Inductive TableInfo :=
| TableList (names : list string)
| TableDict (d : Dict (TableSchema * TableParams)).

(** The fields of a data source.  [params] holds the scalar entries of the
    parameter dictionary; its entry [extra_server_args], a dictionary when
    present, is kept in a field of its own. *)
Record Source := {
  credentials : Dict pyval;
  params : Dict pyval;
  extra_server_args : option (Dict pyval);
  tables : option TableInfo;
}.

(** The methods of a data source class that the subclasses override; the
    records [PostgreSQL], [Mongo], [MySQL] and [ElasticSearch] below are the
    four classes. *)
Record Hooks := {
  get_user_options : Source -> Exn + Dict pyval;
  get_server_options : Source -> Exn + Dict pyval;
  get_table_options : Source -> string -> Exn + Dict pyval;
  get_table_schema : Source -> string -> TableSchema -> Exn + TableSchema;
  get_remote_schema_name : Source -> Exn + string;
  get_fdw_name : string;
}.

Definition NotImplementedError (msg : string) : Exn :=
  OtherError "NotImplementedError" msg.

(** *** ForeignDataWrapperDataSource: the methods that a subclass may
    override, as the base class has them *)
Module ForeignDataWrapperDataSource.

Definition get_user_options (self : Source) : Exn + Dict pyval := inr [].

Definition get_server_options (self : Source) : Exn + Dict pyval := inr [].

(** [{k: str(v) for k, v in self.tables.get(table_name, ({}, {}))[1].items()}],
    and [{}] when [self.tables] is not a dictionary. *)
Definition get_table_options (self : Source) (table_name : string)
  : Exn + Dict pyval :=
  match tables self with
  | Some (TableDict d) =>
      inr (map (fun kv => (fst kv, PStr (py_str (snd kv))))
               (snd (default ([], []) (dict_get table_name d))))
  | _ => inr []
  end.

Definition get_table_schema (self : Source) (table_name : string)
    (table_schema : TableSchema) : Exn + TableSchema :=
  inr table_schema.

Definition get_remote_schema_name (self : Source) : Exn + string :=
  inl (NotImplementedError "").

End ForeignDataWrapperDataSource.

(** [SQL(" OPTIONS (") + SQL(",").join(Identifier(o) + SQL(" %s") for o in
    option_names) + SQL(")")] *)
Definition _format_options (option_names : list string) : Composable :=
  add (add (SQL " OPTIONS (")
           (join (SQL ",")
                 (map (fun o => add (Identifier o) (SQL " %s")) option_names)))
      (SQL ")").

(** Truthiness of an optional dictionary. *)
Definition dict_truthy {V} (d : option (Dict V)) : bool :=
  match d with
  | Some (_ :: _) => true
  | _ => false
  end.

Definition str_values (d : Dict pyval) : list pyval :=
  map (fun v => PStr (py_str v)) (dict_values d).

Section EngineCalls.
Context `{PgEngine}.

Definition init_fdw (server_id wrapper : string)
    (server_options user_options : option (Dict pyval)) (overwrite : bool)
  : M PgDb unit :=
  _ ← (if overwrite then
         q ← liftE (format "DROP SERVER IF EXISTS {} CASCADE"
                      [Identifier server_id]);
         _ ← run_sql q None Engine.MANY_MANY; mret tt
       else mret tt);
  create_server ← liftE
    (format "CREATE SERVER IF NOT EXISTS {} FOREIGN DATA WRAPPER {}"
       [Identifier server_id; Identifier wrapper]);
  _ ← (if dict_truthy server_options then
         let opts := default [] server_options in
         run_sql (add create_server (_format_options (dict_keys opts)))
           (Some (str_values opts)) Engine.MANY_MANY
       else run_sql create_server None Engine.MANY_MANY);
  if dict_truthy user_options then
    let opts := default [] user_options in
    create_mapping ← liftE
      (format "CREATE USER MAPPING IF NOT EXISTS FOR PUBLIC SERVER {}"
         [Identifier server_id]);
    _ ← run_sql (add create_mapping (_format_options (dict_keys opts)))
          (Some (str_values opts)) Engine.MANY_MANY;
    mret tt
  else mret tt.

(** [if tables:] adds the LIMIT TO clause for a non-empty list only. *)
Definition _import_foreign_schema (mountpoint remote_schema server_id : string)
    (tables : list string) : M PgDb unit :=
  query ← liftE (format "IMPORT FOREIGN SCHEMA {} " [Identifier remote_schema]);
  let query :=
    match tables with
    | [] => query
    | _ => add query
             (add (add (SQL "LIMIT TO (")
                       (join (SQL ",") (map Identifier tables)))
                  (SQL ")"))
    end in
  tail ← liftE (format "FROM SERVER {} INTO {}"
                  [Identifier server_id; Identifier mountpoint]);
  _ ← run_sql (add query tail) None Engine.MANY_MANY;
  mret tt.

End EngineCalls.

(** Truthiness of [col.comment]. *)
Definition comment_text (col : TableColumn) : option string :=
  match comment col with
  | Some (String c r) => Some (String c r)
  | _ => None
  end.

(** The loop over the columns that appends one COMMENT statement and one
    argument per column with a comment. *)
Fixpoint add_comments (schema table_name : string) (cols : TableSchema)
    (query : Composable) (args : list pyval)
  : Exn + (Composable * list pyval) :=
  match cols with
  | [] => inr (query, args)
  | col :: rest =>
      match comment_text col with
      | Some text =>
          c ← format "COMMENT ON COLUMN {}.{}.{} IS %s;"
                [Identifier schema; Identifier table_name;
                 Identifier (name col)];
          add_comments schema table_name rest (add query c)
            (args ++ [PStr text])
      | None => add_comments schema table_name rest query args
      end
  end.

Definition create_foreign_table (schema server table_name : string)
    (schema_spec : TableSchema) (extra_options : option (Dict pyval))
  : Exn + (Composable * list pyval) :=
  let table_options := if dict_truthy extra_options
                       then default [] extra_options else [] in
  query ← format "CREATE FOREIGN TABLE {}.{} ("
            [Identifier schema; Identifier table_name];
  cols ← format
           (str_join ","
              (map (fun col => "{} " +:+ pg_type col +:+ " ") schema_spec))
           (map (fun col => Identifier (name col)) schema_spec);
  let query := add query cols in
  srv ← format ") SERVER {}" [Identifier server];
  let query := add query srv in
  let '(query, args) :=
    match table_options with
    | [] => (query, [])
    | _ =>
        let query := add query (SQL " OPTIONS(") in
        (add query
           (add (join (SQL ",")
                      (map (fun o => add (Identifier o) (SQL " %s"))
                           (dict_keys table_options)))
                (SQL ");")),
         dict_values table_options)
    end in
  add_comments schema table_name schema_spec query args.

Section DataSource.
Context `{PgEngine}.
Variable hooks : Hooks.
Variable self : Source.

(** One pass of the loop over [tables.items()]: the schema and the options
    go through the hooks, then the statement is run with its arguments. *)
Definition create_one_table (schema server_id : string)
    (item : string * (TableSchema * TableParams)) : M PgDb unit :=
  let '(table_name, (table_schema, _)) := item in
  schema_spec ← liftE (get_table_schema hooks self table_name table_schema);
  extra_options ← liftE (get_table_options hooks self table_name);
  qa ← liftE (create_foreign_table schema server_id table_name schema_spec
                (Some extra_options));
  _ ← run_sql (fst qa) (Some (snd qa)) Engine.MANY_MANY;
  mret tt.

Definition _create_foreign_tables (schema server_id : string)
    (tables : TableInfo) : M PgDb unit :=
  match tables with
  | TableList names =>
      match get_remote_schema_name hooks self with
      | inl (OtherError "NotImplementedError" _) =>
          raise (NotImplementedError
            "The FDW does not support IMPORT FOREIGN SCHEMA! Pass a tables dictionary.")
      | inl e => raise e
      | inr remote_schema =>
          _import_foreign_schema schema remote_schema server_id names
      end
  | TableDict d => for_each d (create_one_table schema server_id)
  end.

(** Truthiness of a [TableInfo] argument. *)
Definition tables_truthy (t : option TableInfo) : bool :=
  match t with
  | Some (TableList (_ :: _)) => true
  | Some (TableDict (_ :: _)) => true
  | _ => false
  end.

(** [tables or self.tables or []] *)
Definition tables_or_default (t : option TableInfo) : TableInfo :=
  if tables_truthy t then default (TableList []) t
  else if tables_truthy (tables self) then default (TableList []) (tables self)
  else TableList [].

Definition mount (schema : string) (tables : option TableInfo)
    (overwrite : bool) : M PgDb unit :=
  let tables := tables_or_default tables in
  let fdw := get_fdw_name hooks in
  let server_id := schema +:+ "_" +:+ fdw +:+ "_server" in
  server_options ← liftE (get_server_options hooks self);
  user_options ← liftE (get_user_options hooks self);
  _ ← init_fdw server_id (get_fdw_name hooks) (Some server_options)
        (Some user_options) overwrite;
  q ← liftE (format "CREATE SCHEMA IF NOT EXISTS {}" [Identifier schema]);
  _ ← run_sql q None Engine.MANY_MANY;
  _create_foreign_tables schema server_id tables.

(** The [finally] block shared by [introspect], [preview] and [_load]. *)
Definition cleanup (tmp_schema : string) : M PgDb unit :=
  _ ← rollback; _ ← delete_schema tmp_schema; commit.

(** The dictionary comprehension of [introspect]. *)
Fixpoint introspect_tables (tmp_schema : string) (ts : list string)
    (result : Dict (TableSchema * TableParams))
  : M PgDb (Dict (TableSchema * TableParams)) :=
  match ts with
  | [] => mret result
  | t :: rest =>
      s ← get_full_table_schema tmp_schema t;
      introspect_tables tmp_schema rest (dict_set t (s, []) result)
  end.

Definition introspect : M PgDb (Dict (TableSchema * TableParams)) :=
  tmp_schema ← get_temporary_table_id;
  try_finally
    (_ ← mount tmp_schema None true;
     ts ← get_all_tables tmp_schema;
     introspect_tables tmp_schema ts [])
    (cleanup tmp_schema).

Definition _preview_table (schema table : string) (limit : Z)
  : M PgDb PgResult :=
  q ← liftE (format "SELECT row_to_json(t.*) FROM {}.{} t LIMIT %s"
               [Identifier schema; Identifier table]);
  run_sql q (Some [PInt limit]) Engine.MANY_ONE.

(** The loop of [preview]: a table's entry is its rows, or the text of the
    [DatabaseError] that reading it raised. *)
Fixpoint preview_tables (tmp_schema : string) (ts : list string)
    (result : Dict (string + PgResult)) : M PgDb (Dict (string + PgResult)) :=
  match ts with
  | [] => mret result
  | t :: rest =>
      result ← except_DatabaseError
                 (r ← _preview_table tmp_schema t 10;
                  mret (dict_set t (inr r) result))
                 (fun msg => mret (dict_set t (inl msg) result));
      preview_tables tmp_schema rest result
  end.

Definition preview (tables : option TableInfo)
  : M PgDb (Dict (string + PgResult)) :=
  tmp_schema ← get_temporary_table_id;
  try_finally
    (_ ← mount tmp_schema tables true;
     _ ← commit;
     ts ← get_all_tables tmp_schema;
     preview_tables tmp_schema ts [])
    (cleanup tmp_schema).

(** One pass of the loop of [_load]; the handler only logs. *)
Definition load_table (tmp_schema schema t : string) : M PgDb unit :=
  except_DatabaseError
    (_ ← copy_table tmp_schema t schema t; commit)
    (fun _ => mret tt).

Definition _load (schema : string) (tables : option TableInfo) : M PgDb unit :=
  tmp_schema ← get_temporary_table_id;
  try_finally
    (_ ← mount tmp_schema tables true;
     _ ← commit;
     ts ← get_all_tables tmp_schema;
     for_each ts (load_table tmp_schema schema))
    (cleanup tmp_schema).

End DataSource.

(** *** The subclasses *)

Module PostgreSQLDataSource.

(** [{"host": ..., "port": str(...), "dbname": ...,
    **self.params.get("extra_server_args", {})}] *)
Definition get_server_options (self : Source) : Exn + Dict pyval :=
  host ← dict_item "host" (params self);
  port ← dict_item "port" (params self);
  dbname ← dict_item "dbname" (params self);
  mret (dict_update
          [("host", host); ("port", PStr (py_str port)); ("dbname", dbname)]
          (default [] (extra_server_args self))).

Definition get_user_options (self : Source) : Exn + Dict pyval :=
  username ← dict_item "username" (credentials self);
  password ← dict_item "password" (credentials self);
  mret [("user", username); ("password", password)].

Definition get_table_options (self : Source) (table_name : string)
  : Exn + Dict pyval :=
  options ← ForeignDataWrapperDataSource.get_table_options self table_name;
  remote_schema ← dict_item "remote_schema" (params self);
  mret (dict_set "schema_name" remote_schema options).

Definition get_fdw_name : string := "postgres_fdw".

Definition get_remote_schema_name (self : Source) : Exn + string :=
  remote_schema ← dict_item "remote_schema" (params self);
  mret (py_str remote_schema).

End PostgreSQLDataSource.

Definition PostgreSQL : Hooks := {|
  get_user_options := PostgreSQLDataSource.get_user_options;
  get_server_options := PostgreSQLDataSource.get_server_options;
  get_table_options := PostgreSQLDataSource.get_table_options;
  get_table_schema := ForeignDataWrapperDataSource.get_table_schema;
  get_remote_schema_name := PostgreSQLDataSource.get_remote_schema_name;
  get_fdw_name := PostgreSQLDataSource.get_fdw_name;
|}.

(** The methods of [MongoDataSource] besides [get_table_schema]. *)
Module MongoOptions.

Definition get_server_options (self : Source) : Exn + Dict pyval :=
  host ← dict_item "host" (params self);
  port ← dict_item "port" (params self);
  mret [("address", host); ("port", PStr (py_str port))].

Definition get_user_options (self : Source) : Exn + Dict pyval :=
  username ← dict_item "username" (credentials self);
  password ← dict_item "password" (credentials self);
  mret [("username", username); ("password", password)].

Definition get_fdw_name : string := "mongo_fdw".

End MongoOptions.

Definition Mongo : Hooks := {|
  get_user_options := MongoOptions.get_user_options;
  get_server_options := MongoOptions.get_server_options;
  get_table_options := ForeignDataWrapperDataSource.get_table_options;
  get_table_schema := fun _ => MongoDataSource.get_table_schema;
  get_remote_schema_name := ForeignDataWrapperDataSource.get_remote_schema_name;
  get_fdw_name := MongoOptions.get_fdw_name;
|}.

Module MySQLDataSource.

Definition get_server_options (self : Source) : Exn + Dict pyval :=
  host ← dict_item "host" (params self);
  port ← dict_item "port" (params self);
  mret (dict_update [("host", host); ("port", PStr (py_str port))]
          (default [] (extra_server_args self))).

Definition get_user_options (self : Source) : Exn + Dict pyval :=
  username ← dict_item "username" (credentials self);
  password ← dict_item "password" (credentials self);
  mret [("username", username); ("password", password)].

Definition get_table_options (self : Source) (table_name : string)
  : Exn + Dict pyval :=
  dbname ← dict_item "dbname" (params self);
  mret [("dbname", dbname)].

Definition get_fdw_name : string := "mysql_fdw".

Definition get_remote_schema_name (self : Source) : Exn + string :=
  dbname ← dict_item "dbname" (params self);
  mret (py_str dbname).

End MySQLDataSource.

Definition MySQL : Hooks := {|
  get_user_options := MySQLDataSource.get_user_options;
  get_server_options := MySQLDataSource.get_server_options;
  get_table_options := MySQLDataSource.get_table_options;
  get_table_schema := ForeignDataWrapperDataSource.get_table_schema;
  get_remote_schema_name := MySQLDataSource.get_remote_schema_name;
  get_fdw_name := MySQLDataSource.get_fdw_name;
|}.

Module ElasticSearchDataSource.

Definition get_server_options (self : Source) : Exn + Dict pyval :=
  host ← dict_item "host" (params self);
  port ← dict_item "port" (params self);
  username ← dict_item "username" (credentials self);
  password ← dict_item "password" (credentials self);
  mret [("wrapper", PStr "pg_es_fdw.ElasticsearchFDW"); ("host", host);
        ("port", port); ("username", username); ("password", password)].

Definition get_fdw_name : string := "multicorn".

End ElasticSearchDataSource.

Definition ElasticSearch : Hooks := {|
  get_user_options := ForeignDataWrapperDataSource.get_user_options;
  get_server_options := ElasticSearchDataSource.get_server_options;
  get_table_options := ForeignDataWrapperDataSource.get_table_options;
  get_table_schema := ForeignDataWrapperDataSource.get_table_schema;
  get_remote_schema_name := ForeignDataWrapperDataSource.get_remote_schema_name;
  get_fdw_name := ElasticSearchDataSource.get_fdw_name;
|}.

End Fdw.

(** Texts that the statements of fdw.py are compared with. *)
Module FdwStatements.
Import Types PySql Py Postgres Fdw.

(** [name type ] for each column, separated by commas. *)
Definition column_defs (schema_spec : TableSchema) : string :=
  str_join ","
    (map (fun col => quote_ident (name col) +:+ " " +:+ pg_type col +:+ " ")
         schema_spec).

(** [name %s] for each option, separated by commas. *)
Definition option_slots (option_names : list string) : string :=
  str_join "," (map (fun o => quote_ident o +:+ " %s") option_names).

(** The OPTIONS clause of CREATE FOREIGN TABLE, with the semicolon that
    ends it. *)
Definition table_options_clause (options : Dict pyval) : string :=
  match options with
  | [] => EmptyString
  | _ => " OPTIONS(" +:+ option_slots (dict_keys options) +:+ ");"
  end.

Definition comment_statement (schema table_name column : string) : string :=
  "COMMENT ON COLUMN " +:+ quote_ident schema +:+ "." +:+ quote_ident table_name
    +:+ "." +:+ quote_ident column +:+ " IS %s;".

(** One COMMENT statement per column with a comment, in column order. *)
Fixpoint comment_statements (schema table_name : string) (cols : TableSchema)
  : string :=
  match cols with
  | [] => EmptyString
  | col :: rest =>
      match comment_text col with
      | Some _ => comment_statement schema table_name (name col)
                  +:+ comment_statements schema table_name rest
      | None => comment_statements schema table_name rest
      end
  end.

Definition comment_args (cols : TableSchema) : list pyval :=
  omap (fun col => PStr <$> comment_text col) cols.

(** Placeholders of a statement: [%s] counts, [%%] is a percent sign. *)
Fixpoint placeholders (s : string) : nat :=
  match s with
  | EmptyString => O
  | String c t =>
      if Ascii.eqb c "%" then
        match t with
        | EmptyString => O
        | String c' r =>
            if Ascii.eqb c' "s" then S (placeholders r)
            else if Ascii.eqb c' "%" then placeholders r
            else placeholders t
        end
      else placeholders t
  end.

Definition no_percent (s : string) : bool := negb (has_char "%"%char s).

(** The parameters that [self.tables] holds for a table: none when
    [self.tables] is not a dictionary or lacks the table. *)
Definition table_params (self : Source) (table_name : string) : TableParams :=
  match tables self with
  | Some (TableDict d) => snd (default ([], []) (dict_get table_name d))
  | _ => []
  end.

(** The statement that [mount] runs between the server and the tables. *)
Definition create_schema_statement (schema : string) : Composable :=
  Composed [SQL "CREATE SCHEMA IF NOT EXISTS "; Identifier schema].

(** A computation that raises nothing but [DatabaseError], and one that
    raises nothing at all. *)
Definition only_DatabaseError {S A} (m : M S A) : Prop :=
  forall s e s', m s = (inl e, s') -> exists msg, e = DatabaseError msg.

Definition never_raises {S} (m : M S unit) : Prop :=
  forall s, exists s', m s = (inr tt, s').

(** What the loop of [_load] does to the engine, table by table and in
    order: a table is copied and the copy committed, or its copy raises a
    [DatabaseError] and the loop goes on from the state the failed copy
    left, without a commit for that table. *)
Inductive loaded `{PgEngine} (tmp_schema schema : string)
  : list string -> PgDb -> PgDb -> Prop :=
| loaded_none db :
    loaded tmp_schema schema [] db db
| loaded_copied t ts db db1 db2 db' :
    copy_table tmp_schema t schema t db = (inr tt, db1) ->
    commit db1 = (inr tt, db2) ->
    loaded tmp_schema schema ts db2 db' ->
    loaded tmp_schema schema (t :: ts) db db'
| loaded_skipped t ts db msg db1 db' :
    copy_table tmp_schema t schema t db = (inl (DatabaseError msg), db1) ->
    loaded tmp_schema schema ts db1 db' ->
    loaded tmp_schema schema (t :: ts) db db'.

(** The outcome of a preview query that an entry of [preview] stands for:
    the rows, or a [DatabaseError] with the text. *)
Definition previewed {R} (entry : string + R) : Exn + R :=
  match entry with
  | inl msg => inl (DatabaseError msg)
  | inr rows => inr rows
  end.

(** The name of the foreign server that [mount] sets up. *)
Definition server_name (hooks : Hooks) (schema : string) : string :=
  schema +:+ "_" +:+ get_fdw_name hooks +:+ "_server".

(** The OPTIONS clause and the arguments of the statements of [init_fdw],
    for an optional dictionary of options. *)
Definition options_clause (options : option (Dict pyval)) : string :=
  if dict_truthy options
  then " OPTIONS (" +:+ option_slots (dict_keys (default [] options)) +:+ ")"
  else EmptyString.

Definition options_args (options : option (Dict pyval))
  : option (list pyval) :=
  if dict_truthy options then Some (str_values (default [] options)) else None.

(** The LIMIT TO clause of IMPORT FOREIGN SCHEMA. *)
Definition limit_clause (tables : list string) : string :=
  match tables with
  | [] => EmptyString
  | _ => "LIMIT TO (" +:+ str_join "," (map quote_ident tables) +:+ ")"
  end.

Definition unsupported_message : string :=
  "The FDW does not support IMPORT FOREIGN SCHEMA! Pass a tables dictionary.".

End FdwStatements.

(** Sample inputs for fdw.py. *)
Module FdwReference.
Import Types Py Postgres Fdw.

Definition fruit_columns : TableSchema :=
  [{| ordinal := 1; name := "fruit_id"; pg_type := "integer"; is_pk := true;
      comment := Some "Identifier of the fruit" |};
   {| ordinal := 2; name := "name"; pg_type := "character varying";
      is_pk := false; comment := None |};
   {| ordinal := 3; name := "colour"; pg_type := "text"; is_pk := false;
      comment := Some "" |}].

Definition fruit_options : Dict pyval :=
  [("database", PStr "shop"); ("collection", PStr "fruits")].

(** The calls that an engine receives. *)
Inductive Call :=
| CallSql (text : string) (args : option (list pyval))
    (shape : Engine.ResultShape)
| CallCommit
| CallRollback
| CallDeleteSchema (schema : string)
| CallCopyTable (source_schema source_table target_schema target_table : string).

(** An engine that records its calls.  Every schema holds the tables
    [tables]; reading, describing or copying the table [broken] raises a
    [DatabaseError], every other call succeeds. *)
Definition record (c : Call) : M (list Call) unit :=
  fun log => (inr tt, log ++ [c]).

Definition reads_broken (text : string) : bool :=
  String.eqb text
    ("SELECT row_to_json(t.*) FROM " +:+ PySql.quote_ident "sg_tmp_1" +:+ "."
     +:+ PySql.quote_ident "broken" +:+ " t LIMIT %s").

Definition recording_engine (tables : list string) : PgEngine := {|
  PgDb := list Call;
  PgResult := list string;
  run_sql q args shape :=
    _ ← record (CallSql (PySql.as_string q) args shape);
    if reads_broken (PySql.as_string q)
    then raise (DatabaseError "relation is broken")
    else mret ["{}"];
  commit := record CallCommit;
  rollback := record CallRollback;
  delete_schema schema := record (CallDeleteSchema schema);
  get_all_tables schema := mret tables;
  get_full_table_schema schema table :=
    if String.eqb table "broken"
    then raise (DatabaseError "relation is broken")
    else mret fruit_columns;
  copy_table source_schema source_table target_schema target_table :=
    _ ← record (CallCopyTable source_schema source_table target_schema
                  target_table);
    if String.eqb source_table "broken"
    then raise (DatabaseError "relation is broken")
    else mret tt;
  get_temporary_table_id := mret "sg_tmp_1";
|}.

Definition some_broken : list string := ["fruits"; "broken"; "vegetables"].
Definition none_broken : list string := ["fruits"; "vegetables"].

Definition mongo_source : Source := {|
  credentials := [("username", PStr "reader"); ("password", PStr "secret")];
  params := [("host", PStr "mongo"); ("port", PInt 27017)];
  extra_server_args := None;
  tables := Some (TableDict [("fruits", (fruit_columns, fruit_options))]);
|}.

Definition mongo_source_without_tables : Source := {|
  credentials := [("username", PStr "reader"); ("password", PStr "secret")];
  params := [("host", PStr "mongo"); ("port", PInt 27017)];
  extra_server_args := None;
  tables := None;
|}.

Definition postgres_source : Source := {|
  credentials := [("username", PStr "reader"); ("password", PStr "secret")];
  params := [("host", PStr "db"); ("port", PInt 5432);
             ("dbname", PStr "shop"); ("remote_schema", PStr "public")];
  extra_server_args :=
    Some [("host", PStr "replica"); ("fetch_size", PStr "1000")];
  tables :=
    Some (TableDict
            [("fruits", (fruit_columns,
                         [("schema_name", PStr "private");
                          ("batch", PInt 10)]))]);
|}.

(** The calls that the engine has received when the loops of [preview] and
    [_load] start on the Mongo source: those of the mount, and a commit. *)
Definition mounted_log : list Call :=
  Eval vm_compute in
    snd ((_ ← mount (H := recording_engine []) Mongo mongo_source
                "sg_tmp_1" None true;
          commit (PgEngine := recording_engine [])) []).

End FdwReference.

(** ** splitgraph/ingestion/csv/fdw.py, reading the rows *)
Module CsvRows.

(** The rows that the generator [_read_csv] yields before it ends, and the
    exception that ends it, if any. *)
Abbreviation Yielded := (list (list (option string)) * option Exn)%type.

Section ReadCsv.
(** [pad_csv_row(row, row_number=..., num_cols=...)] of
    splitgraph.ingestion.csv.common, whose code lives elsewhere. *)
Variable pad_csv_row : list string -> nat -> nat -> Exn + list string.

(** [[r if r != "" else None for r in row]] *)
Definition nulls_for_empty (row : list string) : list (option string) :=
  map (fun r => if String.eqb r "" then None else Some r) row.

(** The loop of [_read_csv] from row [row_number] on: [header] is
    [csv_options.header] and [num_cols] is [self._num_cols]. *)
Fixpoint read_from (header : bool) (num_cols : nat) (header_skipped : bool)
    (row_number : nat) (csv_reader : list (list string)) : Yielded :=
  match csv_reader with
  | [] => ([], None)
  | row :: rest =>
      if negb header_skipped && header then
        read_from header num_cols true (S row_number) rest
      else
        match row with
        | [] => read_from header num_cols header_skipped (S row_number) rest
        | _ =>
            match pad_csv_row row row_number num_cols with
            | inl e => ([], Some e)
            | inr padded =>
                let '(rows, e) :=
                  read_from header num_cols header_skipped (S row_number) rest in
                (nulls_for_empty padded :: rows, e)
            end
        end
  end.

Definition _read_csv (header : bool) (num_cols : nat)
    (csv_reader : list (list string)) : Yielded :=
  read_from header num_cols false 0 csv_reader.

End ReadCsv.

(** The rows after the header, each with its number in the file, empty
    rows left out. *)
Fixpoint numbered {A} (n : nat) (l : list A) : list (nat * A) :=
  match l with
  | [] => []
  | x :: rest => (n, x) :: numbered (S n) rest
  end.

Definition data_rows (header : bool) (csv_reader : list (list string))
  : list (nat * list string) :=
  filter (fun nr => snd nr <> [])
         (if header then drop 1 (numbered 0 csv_reader)
          else numbered 0 csv_reader).

(** A padding function as the reader needs it: rows are cut or filled with
    empty strings to the number of columns. *)
Definition pad_to_width (row : list string) (row_number num_cols : nat)
  : Exn + list string :=
  inr (take num_cols row ++ replicate (num_cols - length row) EmptyString).

Definition sample_rows : list (list string) :=
  [["id"; "name"; "colour"]; ["1"; "apple"; ""]; []; ["2"; "pear"];
   ["3"; ""; "yellow"; "extra"]].

End CsvRows.

(** ** splitgraph/ingestion/singer/_utils.py, schema migration *)
Module SingerMigration.
Import Types PySql Py Postgres.

(** [{c.name: c.pg_type for c in spec}] *)
Definition column_types (spec : TableSchema) : Dict string :=
  dict_update [] (map (fun c => (name c, pg_type c)) spec).

Section Migrate.
Context `{PgEngine}.
(** [validate_type] of splitgraph.engine, whose code lives elsewhere. *)
Variable validate_type : string -> Exn + string.

(** The body of the first loop, for one column of the old schema. *)
Definition drop_if_removed (table_schema table_name : string)
    (new_cols : Dict string) (c : string) : M PgDb unit :=
  match dict_get c new_cols with
  | None =>
      q ← liftE (format "ALTER TABLE {}.{} DROP COLUMN {}"
                   [Identifier table_schema; Identifier table_name;
                    Identifier c]);
      _ ← run_sql q None Engine.MANY_MANY; mret tt
  | Some _ => mret tt
  end.

(** The body of the second loop, for one column of the new schema with its
    type [new_cols[c]]. *)
Definition add_or_alter (table_schema table_name : string)
    (old_cols : Dict string) (item : string * string) : M PgDb unit :=
  let '(c, new_type) := item in
  match dict_get c old_cols with
  | None =>
      t ← liftE (validate_type new_type);
      q ← liftE (format ("ALTER TABLE {}.{} ADD COLUMN {} " +:+ t)
                   [Identifier table_schema; Identifier table_name;
                    Identifier c]);
      _ ← run_sql q None Engine.MANY_MANY; mret tt
  | Some old_type =>
      if String.eqb new_type old_type then mret tt
      else
        t ← liftE (validate_type new_type);
        q ← liftE (format ("ALTER TABLE {}.{} ALTER COLUMN {} TYPE " +:+ t)
                     [Identifier table_schema; Identifier table_name;
                      Identifier c]);
        _ ← run_sql q None Engine.MANY_MANY; mret tt
  end.

Definition _migrate_schema (table_schema table_name : string)
    (table_schema_spec new_schema_spec : TableSchema) : M PgDb unit :=
  let old_cols := column_types table_schema_spec in
  let new_cols := column_types new_schema_spec in
  _ ← for_each (dict_keys old_cols)
        (drop_if_removed table_schema table_name new_cols);
  for_each new_cols (add_or_alter table_schema table_name old_cols).

End Migrate.

(** The three statements as the engine receives them. *)
Definition drop_column_statement (s t c : string) : Composable :=
  Composed [SQL "ALTER TABLE "; Identifier s; SQL "."; Identifier t;
            SQL " DROP COLUMN "; Identifier c].

Definition add_column_statement (s t c type : string) : Composable :=
  Composed [SQL "ALTER TABLE "; Identifier s; SQL "."; Identifier t;
            SQL " ADD COLUMN "; Identifier c; SQL (" " +:+ type)].

Definition alter_type_statement (s t c type : string) : Composable :=
  Composed [SQL "ALTER TABLE "; Identifier s; SQL "."; Identifier t;
            SQL " ALTER COLUMN "; Identifier c; SQL (" TYPE " +:+ type)].

(** The columns of the engine's tables, name to type. *)
Class ColumnCatalog `{PgEngine} := {
  table_columns : PgDb -> string -> string -> option (gmap string string);
}.

(** What a statement that the engine has accepted has done: the table has
    the columns to match.  Nothing is said on whether the engine accepts a
    statement; PostgreSQL, for one, refuses to drop a column that other
    objects depend on and to retype a column whose values cannot be cast. *)
Class AlterEffects `{ColumnCatalog} : Prop := {
  drop_column_effect : forall db s t c cols r db',
    table_columns db s t = Some cols ->
    run_sql (drop_column_statement s t c) None Engine.MANY_MANY db
    = (inr r, db') ->
    table_columns db' s t = Some (delete c cols);
  add_column_effect : forall db s t c type cols r db',
    table_columns db s t = Some cols ->
    run_sql (add_column_statement s t c type) None Engine.MANY_MANY db
    = (inr r, db') ->
    table_columns db' s t = Some (<[c := type]> cols);
  alter_type_effect : forall db s t c type cols r db',
    table_columns db s t = Some cols ->
    run_sql (alter_type_statement s t c type) None Engine.MANY_MANY db
    = (inr r, db') ->
    table_columns db' s t = Some (<[c := type]> cols);
}.

(** The statements that a migration of the table [s.t] can run. *)
Inductive alters (s t : string) : Composable -> Prop :=
| alters_drop c : alters s t (drop_column_statement s t c)
| alters_add c type : alters s t (add_column_statement s t c type)
| alters_type c type : alters s t (alter_type_statement s t c type).

(** The exception [e] and the state [db'] are what the engine answered to
    one of these statements. *)
Definition refused `{PgEngine} (s t : string) (e : Exn) (db' : PgDb) : Prop :=
  exists q db,
    alters s t q /\ run_sql q None Engine.MANY_MANY db = (inl e, db').

(** A table schema's names and types, whatever else the columns carry. *)
Definition same_columns (spec1 spec2 : TableSchema) : Prop :=
  forall c, dict_get c (column_types spec1) = dict_get c (column_types spec2).

End SingerMigration.

(** An engine for the migration: it keeps the columns of its tables and
    executes the three ALTER TABLE statements. *)
Module MigrationReference.
Import Types PySql Py Postgres SingerMigration.

Abbreviation Columns := (gmap string string).

(** The text after [prefix], when [s] starts with it. *)
Fixpoint strip_prefix (prefix s : string) : option string :=
  match prefix with
  | EmptyString => Some s
  | String p prefix' =>
      match s with
      | String c s' => if Ascii.eqb p c then strip_prefix prefix' s' else None
      | EmptyString => None
      end
  end.

Definition missing_column : Exn := DatabaseError "column does not exist".
Definition duplicate_column : Exn := DatabaseError "column already exists".

(** The table and the change of its columns that a statement asks for. *)
Definition alter_effect (q : Composable)
  : option (string * string * (Columns -> Exn + Columns)) :=
  match q with
  | Composed [SQL a; Identifier s; SQL b; Identifier t; SQL k; Identifier c] =>
      if String.eqb a "ALTER TABLE " && String.eqb b "."
         && String.eqb k " DROP COLUMN "
      then Some (s, t, fun cols =>
                         match cols !! c with
                         | Some _ => inr (delete c cols)
                         | None => inl missing_column
                         end)
      else None
  | Composed [SQL a; Identifier s; SQL b; Identifier t; SQL k; Identifier c;
              SQL rest] =>
      if String.eqb a "ALTER TABLE " && String.eqb b "." then
        if String.eqb k " ADD COLUMN " then
          match strip_prefix " " rest with
          | Some type =>
              Some (s, t, fun cols =>
                            match cols !! c with
                            | Some _ => inl duplicate_column
                            | None => inr (<[c := type]> cols)
                            end)
          | None => None
          end
        else if String.eqb k " ALTER COLUMN " then
          match strip_prefix " TYPE " rest with
          | Some type =>
              Some (s, t, fun cols =>
                            match cols !! c with
                            | Some _ => inr (<[c := type]> cols)
                            | None => inl missing_column
                            end)
          | None => None
          end
        else None
      else None
  | _ => None
  end.

Definition alter (q : Composable) : M (gmap (string * string) Columns) unit :=
  fun db =>
    match alter_effect q with
    | None => (inl (DatabaseError "syntax error"), db)
    | Some (s, t, change) =>
        match db !! (s, t) with
        | None => (inl (DatabaseError "relation does not exist"), db)
        | Some cols =>
            match change cols with
            | inl e => (inl e, db)
            | inr cols' => (inr tt, <[(s, t) := cols']> db)
            end
        end
    end.

#[export] Instance columns_engine : PgEngine := {|
  PgDb := gmap (string * string) Columns;
  PgResult := unit;
  run_sql q args shape := alter q;
  commit := mret tt;
  rollback := mret tt;
  delete_schema schema := mret tt;
  get_all_tables schema := mret [];
  get_full_table_schema schema table := mret [];
  copy_table source_schema source_table target_schema target_table := mret tt;
  get_temporary_table_id := mret "sg_tmp_1";
|}.

#[export] Instance columns_catalog : ColumnCatalog := {|
  table_columns db s t := db !! (s, t);
|}.

(** [public.fruits] before the migration, its schema, and the schema to
    migrate to: [name] is retyped, [colour] is dropped, [weight] is new. *)
Definition old_fruits : TableSchema :=
  [{| ordinal := 1; name := "fruit_id"; pg_type := "integer"; is_pk := true;
      comment := None |};
   {| ordinal := 2; name := "name"; pg_type := "character varying";
      is_pk := false; comment := None |};
   {| ordinal := 3; name := "colour"; pg_type := "text"; is_pk := false;
      comment := None |}].

Definition new_fruits : TableSchema :=
  [{| ordinal := 1; name := "fruit_id"; pg_type := "integer"; is_pk := true;
      comment := None |};
   {| ordinal := 2; name := "name"; pg_type := "text"; is_pk := false;
      comment := None |};
   {| ordinal := 3; name := "weight"; pg_type := "numeric"; is_pk := false;
      comment := None |}].

(** The old schema in another order, with other keys and comments. *)
Definition old_fruits_reordered : TableSchema :=
  [{| ordinal := 1; name := "colour"; pg_type := "text"; is_pk := true;
      comment := Some "Colour of the fruit" |};
   {| ordinal := 2; name := "fruit_id"; pg_type := "integer"; is_pk := false;
      comment := None |};
   {| ordinal := 3; name := "name"; pg_type := "character varying";
      is_pk := false; comment := None |}].

Definition fruits_columns : Columns :=
  {[ "fruit_id" := "integer"; "name" := "character varying";
     "colour" := "text" ]}.

Definition fruits_tables : gmap (string * string) Columns :=
  {[ ("public", "fruits") := fruits_columns ]}.

(** A [validate_type] that accepts every type. *)
Definition accept_type (t : string) : Exn + string := inr t.

End MigrationReference.

(** ** splitgraph/engine/__init__.py, the methods that build statements *)
Module EngineSql.
Import Engine PySql Py.

Definition TypeError (msg : string) : Exn := OtherError "TypeError" msg.

(** [str(v)], as [%s] formats a value read from the database. *)
Definition sql_str (v : sqlval) : string :=
  match v with
  | SqlNull => "None"
  | SqlInt z => pretty z
  | SqlText s => s
  | SqlBool true => "True"
  | SqlBool false => "False"
  end.

(** Truthiness of such a value. *)
Definition sql_truthy (v : sqlval) : bool :=
  match v with
  | SqlNull => false
  | SqlInt z => negb (Z.eqb z 0)
  | SqlText s => negb (String.eqb s "")
  | SqlBool b => b
  end.

(** [Identifier(v)] accepts strings only. *)
Definition identifier_of (v : sqlval) : Exn + Composable :=
  match v with
  | SqlText s => inr (Identifier s)
  | _ => inl (TypeError "SQL identifier parts must be strings")
  end.

(** [for a, b in rows] and [for a, b, c in rows]. *)
Definition unpack2 (row : list sqlval) : Exn + sqlval * sqlval :=
  match row with
  | [a; b] => inr (a, b)
  | _ => inl (ValueError "wrong number of values to unpack (expected 2)")
  end.

Definition unpack3 (row : list sqlval) : Exn + sqlval * sqlval * sqlval :=
  match row with
  | [a; b; c] => inr (a, b, c)
  | _ => inl (ValueError "wrong number of values to unpack (expected 3)")
  end.

(** A comprehension whose element expression can raise. *)
Fixpoint mapE {A B} (f : A -> Exn + B) (l : list A) : Exn + list B :=
  match l with
  | [] => inr []
  | x :: rest => y ← f x; ys ← mapE f rest; mret (y :: ys)
  end.

(** The rows of a result asked for with the shape MANY_MANY; a result of
    another form cannot be iterated as rows. *)
Definition rows_of (r : Result) : Exn + list (list sqlval) :=
  match r with
  | Rows rs => inr rs
  | _ => inl (TypeError "result is not a list of rows")
  end.

(** *** Tuples [(ordinal, name, type, is_pk)] and their order *)

Definition ColumnSpec := (Z * string * string * bool)%type.

Definition spec_ordinal (c : ColumnSpec) : Z := fst (fst (fst c)).
Definition spec_name (c : ColumnSpec) : string := snd (fst (fst c)).
Definition spec_type (c : ColumnSpec) : string := snd (fst c).
Definition spec_is_pk (c : ColumnSpec) : bool := snd c.

(** The first comparison decides unless it finds the components equal. *)
Definition lex (c1 c2 : comparison) : comparison :=
  match c1 with
  | Eq => c2
  | _ => c1
  end.

(** Python's order on these tuples: by ordinal, then by name and by type
    (character by character), then by flag ([False] before [True]). *)
Definition tuple_compare (a b : ColumnSpec) : comparison :=
  lex (Z.compare (spec_ordinal a) (spec_ordinal b))
      (lex (String.compare (spec_name a) (spec_name b))
           (lex (String.compare (spec_type a) (spec_type b))
                (Bool.compare (spec_is_pk a) (spec_is_pk b)))).

Definition tuple_le (a b : ColumnSpec) : Prop := tuple_compare a b <> Gt.

#[export] Instance tuple_le_dec : RelDecision tuple_le.
Proof.
  intros a b. unfold tuple_le.
  destruct (tuple_compare a b); [left|left|right]; congruence.
Defined.

(** [sorted(schema_spec)] *)
Definition py_sorted (schema_spec : list ColumnSpec) : list ColumnSpec :=
  merge_sort tuple_le schema_spec.

Section Methods.
Context `{Backend}.

Definition execute_sql_in (schema sql : string) : M Db unit :=
  _ ← run_sql "SET search_path TO %s" [SqlText schema] NONE;
  _ ← run_sql sql [] NONE;
  _ ← run_sql "SET search_path TO public" [SqlText schema] NONE;
  mret tt.

Definition schema_exists_query : string :=
  "SELECT 1 from information_schema.schemata
                           WHERE schema_name = %s".

Definition schema_exists (schema : string) : M Db bool :=
  r ← run_sql schema_exists_query [SqlText schema] ONE_ONE;
  mret (is_not_None r).

Definition create_schema (schema : string) : M Db Result :=
  q ← liftE (format "CREATE SCHEMA IF NOT EXISTS {}" [Identifier schema]);
  run_sql (as_string q) [] NONE.

(** [SQL(',').join(SQL("{}").format(Identifier(c)) for c, _ in pks)] *)
Definition pk_identifiers (pks : list (list sqlval)) : Exn + Composable :=
  ids ← mapE (fun row => p ← unpack2 row;
                        i ← identifier_of (fst p);
                        format "{}" [i]) pks;
  mret (join (SQL ",") ids).

Definition copy_table (source_schema source_table target_schema
    target_table : string) (with_pk_constraints table_exists : bool)
  : M Db unit :=
  query ← liftE
    (if negb table_exists then
       format "CREATE TABLE {}.{} AS SELECT * FROM {}.{};"
         [Identifier target_schema; Identifier target_table;
          Identifier source_schema; Identifier source_table]
     else
       format "INSERT INTO {}.{} SELECT * FROM {}.{};"
         [Identifier target_schema; Identifier target_table;
          Identifier source_schema; Identifier source_table]);
  query ← (if with_pk_constraints then
             pks ← get_primary_keys source_schema source_table;
             if rows_truthy pks then
               alter ← liftE (format "ALTER TABLE {}.{} ADD PRIMARY KEY ("
                                [Identifier target_schema;
                                 Identifier target_table]);
               ids ← liftE (pk_identifiers pks);
               mret (add query (add (add alter ids) (SQL ")")))
             else mret query
           else mret query);
  _ ← run_sql (as_string query) [] NONE;
  mret tt.

Definition delete_table (schema table : string) : M Db unit :=
  q ← liftE (format "DROP TABLE IF EXISTS {}.{}"
               [Identifier schema; Identifier table]);
  _ ← run_sql (as_string q) [] NONE;
  mret tt.

Definition get_all_tables (schema : string) : M Db Result :=
  run_sql "SELECT table_name FROM information_schema.tables WHERE table_schema = %s"
    [SqlText schema] MANY_ONE.

Definition dump_columns_query : string :=
  "SELECT column_name, data_type, is_nullable
                           FROM information_schema.columns
                           WHERE table_name = %s AND table_schema = %s".

(** ["{} %s " % ctype + ("NOT NULL" if not cnull else "")] *)
Definition column_template (row : list sqlval) : Exn + string :=
  p ← unpack3 row;
  let '(_, ctype, cnull) := p in
  mret (("{} " +:+ sql_str ctype +:+ " ")
        +:+ (if negb (sql_truthy cnull) then "NOT NULL" else "")).

Definition column_identifier (row : list sqlval) : Exn + Composable :=
  p ← unpack3 row;
  let '(cname, _, _) := p in
  identifier_of cname.

(** Truthiness of [created_schema]. *)
Definition str_truthy (s : option string) : bool :=
  match s with
  | Some (String _ _) => true
  | _ => false
  end.

(** The body of the loop of [dump_table_creation], for one table. *)
Definition dump_one_table (schema : string) (created_schema : option string)
    (table : string) : M Db Composable :=
  r ← run_sql dump_columns_query [SqlText table; SqlText schema] MANY_MANY;
  cols ← liftE (rows_of r);
  target ← liftE (if str_truthy created_schema then
                    format "{}.{}" [Identifier (default "" created_schema);
                                    Identifier table]
                  else inr (Identifier table));
  head ← liftE (format "CREATE TABLE {} (" [target]);
  templates ← liftE (mapE column_template cols);
  ids ← liftE (mapE column_identifier cols);
  body ← liftE (format (str_join "," templates) ids);
  let query := add head body in
  pks ← get_primary_keys schema table;
  if rows_truthy pks then
    ids ← liftE (pk_identifiers pks);
    mret (add query (add (add (SQL ", PRIMARY KEY (") ids) (SQL "))")))
  else mret (add query (SQL ")")).

Fixpoint dump_tables (schema : string) (created_schema : option string)
    (tables : list string) (queries : list Composable)
  : M Db (list Composable) :=
  match tables with
  | [] => mret queries
  | table :: rest =>
      q ← dump_one_table schema created_schema table;
      dump_tables schema created_schema rest (queries ++ [q])
  end.

Definition dump_table_creation (schema : string) (tables : list string)
    (created_schema : option string) : M Db Composable :=
  queries ← dump_tables schema created_schema tables [];
  mret (join (SQL ";") queries).

Definition create_table (schema table : string)
    (schema_spec : list ColumnSpec) : M Db unit :=
  let schema_spec := py_sorted schema_spec in
  target ← liftE (format "{}.{}" [Identifier schema; Identifier table]);
  head ← liftE (format "CREATE TABLE {} (" [target]);
  body ← liftE
    (format (str_join ","
               (map (fun c => "{} " +:+ spec_type c +:+ " ") schema_spec))
       (map (fun c => Identifier (spec_name c)) schema_spec));
  let query := add head body in
  let pk_cols := map spec_name (filter (fun c => spec_is_pk c = true) schema_spec) in
  query ← liftE
    (match pk_cols with
     | [] => inr (add query (SQL ")"))
     | _ =>
         ids ← mapE (fun c => format "{}" [Identifier c]) pk_cols;
         mret (add query
                 (add (add (SQL ", PRIMARY KEY (") (join (SQL ",") ids))
                      (SQL "))")))
     end);
  _ ← run_sql (as_string query) [] NONE;
  mret tt.

Definition column_names_query : string :=
  "SELECT column_name FROM information_schema.columns
                           WHERE table_schema = %s
                           AND table_name = %s
                           ORDER BY ordinal_position".

Definition get_column_names (schema table_name : string) : M Db Result :=
  run_sql column_names_query [SqlText schema; SqlText table_name] MANY_ONE.

Definition full_table_schema_query : string :=
  "SELECT ordinal_position, column_name, data_type FROM information_schema.columns
                           WHERE table_schema = %s
                           AND table_name = %s
                           ORDER BY ordinal_position".

(** [[(o, n, dt, (n in pks)) for o, n, dt in results]] with
    [pks = [pk for pk, _ in self.get_primary_keys(schema, table_name)]]. *)
Definition get_full_table_schema (schema table_name : string)
  : M Db (list (sqlval * sqlval * sqlval * bool)) :=
  r ← run_sql full_table_schema_query [SqlText schema; SqlText table_name]
        MANY_MANY;
  pk_rows ← get_primary_keys schema table_name;
  pks ← liftE (mapE (fun row => p ← unpack2 row; mret (fst p)) pk_rows);
  results ← liftE (rows_of r);
  liftE (mapE (fun row => p ← unpack3 row;
                          let '(o, n, dt) := p in
                          mret (o, n, dt, bool_decide (n ∈ pks))) results).

End Methods.

(** What makes a three-way comparison an order. *)
Record CmpLaws {A} (cmp : A -> A -> comparison) : Prop := {
  cmp_refl : forall a, cmp a a = Eq;
  cmp_eq : forall a b, cmp a b = Eq -> a = b;
  cmp_opp : forall a b, cmp a b = CompOpp (cmp b a);
  cmp_lt_trans : forall a b c, cmp a b = Lt -> cmp b c = Lt -> cmp a c = Lt;
}.

(** Comparison of pairs, first component first. *)
Definition pair_compare {A B} (cA : A -> A -> comparison)
    (cB : B -> B -> comparison) (a b : A * B) : comparison :=
  lex (cA (fst a) (fst b)) (cB (snd a) (snd b)).

(** The calls that a backend receives. *)
Inductive EngineCall :=
| SqlCall (statement : string) (arguments : list sqlval) (shape : ResultShape)
| PrimaryKeysCall (schema table : string).

(** A backend that behaves as [B] and keeps the list of its calls. *)
Definition logged (B : Backend) : Backend := {|
  Db := (@Db B * list EngineCall)%type;
  run_sql statement arguments shape := fun s =>
    let '(r, db') := @run_sql B statement arguments shape (fst s) in
    (r, (db', snd s ++ [SqlCall statement arguments shape]));
  get_primary_keys schema table := fun s =>
    let '(r, db') := @get_primary_keys B schema table (fst s) in
    (r, (db', snd s ++ [PrimaryKeysCall schema table]));
|}.

(** The catalog's answers as rows: (column_name, data_type, is_nullable)
    for the columns, (column_name, data_type) for the key. *)
Definition dump_rows (cols : list (string * string * string))
  : list (list sqlval) :=
  map (fun c => [SqlText (fst (fst c)); SqlText (snd (fst c)); SqlText (snd c)])
      cols.

Definition pk_rows (pks : list (string * string)) : list (list sqlval) :=
  map (fun p => [SqlText (fst p); SqlText (snd p)]) pks.

(** The texts of one dumped table. *)
Definition dump_target (created_schema : option string) (table : string)
  : string :=
  if str_truthy created_schema
  then quote_ident (default "" created_schema) +:+ "." +:+ quote_ident table
  else quote_ident table.

Definition dump_column (c : string * string * string) : string :=
  quote_ident (fst (fst c)) +:+ " " +:+ snd (fst c) +:+ " "
    +:+ (if String.eqb (snd c) "" then "NOT NULL" else "").

Definition primary_key_clause (pks : list (string * string)) : string :=
  match pks with
  | [] => ")"
  | _ => ", PRIMARY KEY ("
         +:+ str_join "," (map (fun p => quote_ident (fst p)) pks) +:+ "))"
  end.

Definition dump_text (created_schema : option string) (table : string)
    (cols : list (string * string * string)) (pks : list (string * string))
  : string :=
  "CREATE TABLE " +:+ dump_target created_schema table +:+ " ("
    +:+ str_join "," (map dump_column cols) +:+ primary_key_clause pks.

(** The texts of [copy_table]. *)
Definition copy_head (source_schema source_table target_schema
    target_table : string) (table_exists : bool) : string :=
  (if table_exists then "INSERT INTO " else "CREATE TABLE ")
    +:+ quote_ident target_schema +:+ "." +:+ quote_ident target_table
    +:+ (if table_exists then " SELECT * FROM " else " AS SELECT * FROM ")
    +:+ quote_ident source_schema +:+ "." +:+ quote_ident source_table +:+ ";".

Definition pk_constraint (target_schema target_table : string)
    (pks : list (string * string)) : string :=
  match pks with
  | [] => EmptyString
  | _ => "ALTER TABLE " +:+ quote_ident target_schema +:+ "."
         +:+ quote_ident target_table +:+ " ADD PRIMARY KEY ("
         +:+ str_join "," (map (fun p => quote_ident (fst p)) pks) +:+ ")"
  end.

(** A backend over a fixed catalog: [fruits] has a key and a column that
    is not nullable, [log] has neither. *)
Definition sample_columns (table : string) : list (string * string * string) :=
  if String.eqb table "fruits"
  then [("fruit_id", "integer", "NO"); ("name", "character varying", "YES")]
  else if String.eqb table "log" then [("line", "text", "YES")]
  else [].

Definition sample_pks (table : string) : list (string * string) :=
  if String.eqb table "fruits" then [("fruit_id", "integer")] else [].

#[export] Instance catalog_backend : Backend := {|
  Db := list EngineCall;
  run_sql statement arguments shape := fun log =>
    (inr (if String.eqb statement dump_columns_query then
            match arguments with
            | [SqlText table; _] => Rows (dump_rows (sample_columns table))
            | _ => Rows []
            end
          else PyNone),
     log ++ [SqlCall statement arguments shape]);
  get_primary_keys schema table := fun log =>
    (inr (pk_rows (sample_pks table)), log ++ [PrimaryKeysCall schema table]);
|}.

(** Sample schema specifications, the second a rearrangement of the
    first. *)
Definition fruits_tuples : list ColumnSpec :=
  [(1%Z, "fruit_id", "integer", true);
   (2%Z, "name", "character varying", false);
   (3%Z, "colour", "text", false)].

Definition fruits_tuples_shuffled : list ColumnSpec :=
  [(2%Z, "name", "character varying", false);
   (1%Z, "fruit_id", "integer", true);
   (3%Z, "colour", "text", false)].

End EngineSql.

(** ** splitgraph/ingestion/csv/fdw.py, the table definition *)
Module CsvTableDefinition.
Import Types Py CsvFdw.

(** The collaborators of [_get_table_definition] whose code lives
    elsewhere: [CSVOptions] with its fields [header] and
    [schema_inference_rows], its methods [from_fdw_options] and
    [to_table_options], [make_csv_reader] (the reader is given by the rows
    it yields), [infer_sg_schema], [generate_column_names] and
    [dump_options].  [Stream] is the type of the response read. *)
Class CsvCommon (Stream : Type) := {
  CSVOptions : Type;
  header : CSVOptions -> bool;
  schema_inference_rows : CSVOptions -> nat;
  from_fdw_options : Options -> Exn + CSVOptions;
  to_table_options : CSVOptions -> Options;
  make_csv_reader :
    Stream -> CSVOptions -> Exn + (CSVOptions * list (list string));
  infer_sg_schema : list (list string) -> Exn + TableSchema;
  generate_column_names : TableSchema -> Exn + TableSchema;
  dump_options : Options -> Exn + Options;
}.

(** [[[""] * len(sample[0])] + sample] *)
Definition with_empty_header (sample : list (list string))
  : Exn + list (list string) :=
  match sample with
  | [] => inl (IndexError "list index out of range")
  | first :: _ => inr (replicate (length first) EmptyString :: sample)
  end.

(** [update] lets the entries of its argument win; the dictionaries passed
    in are copied first and stay as they are. *)
Definition _get_table_definition {Stream} `{CsvCommon Stream}
    (response : Stream) (fdw_options : Options) (table_name : string)
    (table_options : Options) : Exn + TableDefinition :=
  let fdw_options := table_options ∪ fdw_options in
  o ← from_fdw_options fdw_options;
  r ← make_csv_reader response o;
  let '(csv_options, reader) := r in
  let sample := take (schema_inference_rows csv_options) reader in
  sample ← (if negb (header csv_options) then with_empty_header sample
            else inr sample);
  let sample := filter (fun row => row <> []) sample in
  sg_schema ← infer_sg_schema sample;
  sg_schema ← generate_column_names sg_schema;
  let new_table_options := to_table_options csv_options ∪ table_options in
  options ← dump_options new_table_options;
  mret {| table_name := table_name;
          columns := map (fun c => (name c, pg_type c)) sg_schema;
          options := options |}.

(** The function that the import calls is this one. *)
Class ReadsDefinitions `{R : Remote} `{!CsvCommon (@Response R)} : Prop :=
  reads_definitions : forall response srv_options table_name table_options,
    CsvFdw._get_table_definition response srv_options table_name table_options
    = _get_table_definition response srv_options table_name table_options.

(** Sample collaborators: a response is the text of the file, one line
    per row and one character per field, and [make_csv_reader] refuses an
    empty response with an [AssertionError]; the option [header] is true
    unless given as [false]; three rows are sampled, or none when the option
    [schema_inference_rows] is [0]; every column is a text column named
    after the first row. *)
Fixpoint text_rows (row : list string) (text : string) : list (list string) :=
  match text with
  | EmptyString => match row with [] => [] | _ => [row] end
  | String c rest =>
      if Ascii.eqb c "010" then row :: text_rows [] rest
      else text_rows (row ++ [String c EmptyString]) rest
  end.

#[export] Instance sample_common : CsvCommon string := {|
  CSVOptions := bool * nat;
  header := fst;
  schema_inference_rows := snd;
  from_fdw_options o :=
    inr (negb (bool_decide (o !! "header" = Some "false")),
         if bool_decide (o !! "schema_inference_rows" = Some "0") then 0
         else 3);
  to_table_options o := {[ "header" := if fst o then "true" else "false" ]};
  make_csv_reader response o :=
    match response with
    | EmptyString => inl (OtherError "AssertionError" "")
    | _ => inr (o, text_rows [] response)
    end;
  infer_sg_schema sample :=
    inr (map (fun n => {| ordinal := 0; name := n; pg_type := "text";
                          is_pk := false; comment := None |})
             (default [] (head sample)));
  generate_column_names s := inr s;
  dump_options o := inr o;
|}.

(** A file of two rows and two columns. *)
Definition fruits_csv : string :=
  "ab" +:+ String "010" "cd".

(** The reference remote, reading its table definitions this way; every URL
    serves [fruits_csv]. *)
Definition sample_remote : Remote := {|
  Client := unit;
  Response := string;
  json_loads := fun _ => inr [];
  load_options := fun o => inr o;
  get_s3_params := fun _ => inr (tt, "bucket", "");
  list_objects := fun _ _ _ => inr [];
  get_object := fun _ _ o => inr o;
  http_get := fun u => inr fruits_csv;
  close_response := fun _ => inr tt;
  CsvFdw._get_table_definition := _get_table_definition;
  get_exception_name := fun e =>
    match e with
    | IndexError _ => "IndexError"
    | KeyError _ => "KeyError"
    | DatabaseError _ => "DatabaseError"
    | OtherError n _ => n
    end;
  exception_text := fun e =>
    match e with
    | IndexError m | KeyError m | DatabaseError m | OtherError _ m => m
    end;
|}.

End CsvTableDefinition.

(** * Lemmas and theorems *)

(** ** The engine interface *)
Section EngineFacts.
Import Engine Statements.
Context `{Backend}.

Lemma bind_unfold {S A B} (m : M S A) (k : A -> M S B) (s : S) :
  (m ≫= k) s = match m s with
                | (inl e, s') => (inl e, s')
                | (inr a, s') => k a s'
                end.
Proof. reflexivity. Qed.

Lemma run_sql_batch_cons statement args rest db :
  run_sql_batch statement (args :: rest) db
  = match run_sql statement args NONE db with
    | (inl e, db') => (inl e, db')
    | (inr _, db') => run_sql_batch statement rest db'
    end.
Proof. reflexivity. Qed.

Lemma run_sql_batch_invoked statement arguments :
  forall db, invoked_in_order statement arguments db
               (run_sql_batch statement arguments db).
Proof.
  induction arguments as [|args rest IH]; intros db.
  - constructor.
  - rewrite run_sql_batch_cons.
    destruct (run_sql statement args NONE db) as [[e|r] db'] eqn:Hrun.
    + now apply invoked_raises.
    + eapply invoked_next; [exact Hrun | apply IH].
Qed.

Lemma invoked_in_order_functional statement arguments db out1 out2 :
  invoked_in_order statement arguments db out1 ->
  invoked_in_order statement arguments db out2 ->
  out1 = out2.
Proof.
  intros H1; revert out2.
  induction H1 as [db|args rest db e db' Hrun|args rest db r db' out Hrun _ IH];
    intros out2 H2; inversion H2; subst; try congruence.
  apply IH. congruence.
Qed.

(** C7. For every statement, every finite sequence of argument sets and
    every state of the backend, [run_sql_batch] ends exactly as invoking
    [run_sql] once per argument set does, in sequence order and each time
    with the no-result shape: same final state, same exception if one
    escapes. *)
Theorem run_sql_batch_equiv statement arguments db out :
  run_sql_batch statement arguments db = out
  <-> invoked_in_order statement arguments db out.
Proof.
  split.
  - intros <-. apply run_sql_batch_invoked.
  - intros Hout.
    eapply invoked_in_order_functional; [apply run_sql_batch_invoked | exact Hout].
Qed.

(** X3. A batch over a concatenation of argument sequences is the batch
    over the first followed, unless it raised, by the batch over the
    second. *)
Theorem run_sql_batch_app statement xs ys db :
  run_sql_batch statement (xs ++ ys) db
  = (run_sql_batch statement xs ≫= fun _ => run_sql_batch statement ys) db.
Proof.
  revert db; induction xs as [|x xs IH]; intros db; [reflexivity|].
  simpl app. rewrite run_sql_batch_cons, bind_unfold, run_sql_batch_cons.
  destruct (run_sql statement x NONE db) as [[e|r] db']; [reflexivity|].
  rewrite IH. reflexivity.
Qed.

(** C5. Whatever primary keys the backend reports for a table:
    [get_change_key] returns them when there is at least one, and otherwise
    the (column name, column type) pairs of all columns that the catalog
    lists for the table. *)
Theorem get_change_key_spec `{!Catalog} `{!CatalogLaws} schema table db pks db' :
  get_primary_keys schema table db = (inr pks, db') ->
  (pks <> [] -> get_change_key schema table db = (inr (Rows pks), db'))
  /\ (pks = [] ->
      get_change_key schema table db
      = (inr (Rows (select_columns (catalog_columns db') schema table)), db')).
Proof.
  intros Hpk. unfold get_change_key. rewrite bind_unfold, Hpk. split.
  - destruct pks; [congruence | reflexivity].
  - intros ->. simpl. unfold get_column_names_types.
    apply column_names_types_query_spec.
Qed.

Lemma is_not_None_select tables schema name :
  is_not_None (coerce ONE_ONE (select_table_name tables schema name))
  = bool_decide ((schema, name) ∈ tables).
Proof.
  unfold select_table_name.
  induction tables as [|[s n] tables IH]; [reflexivity|].
  rewrite filter_cons. simpl fst; simpl snd.
  destruct (decide (s = schema /\ n = name)) as [[-> ->]|Hne].
  - simpl. symmetry. apply bool_decide_eq_true. left.
  - rewrite IH. apply bool_decide_ext. rewrite elem_of_cons.
    split; [tauto|]. intros [Heq|?]; [|assumption].
    exfalso. apply Hne. inversion Heq; subst; auto.
Qed.

(** C8. [table_exists] looks up the first 63 characters of the name it is
    given: it answers whether the catalog has a table of that schema whose
    name is that prefix, so for a name of more than 63 characters it is
    true exactly when a table named by its first 63 characters exists, and
    it cannot tell apart two names with the same first 63 characters. *)
Theorem table_exists_truncates `{!Catalog} `{!CatalogLaws} schema table_name db :
  table_exists schema table_name db
  = (inr (bool_decide ((schema, py_prefix 63 table_name) ∈ catalog_tables db)), db)
  /\ ((63 < String.length table_name)%nat ->
      (fst (table_exists schema table_name db) = inr true
       <-> exists t, (schema, t) ∈ catalog_tables db
                     /\ t = py_prefix 63 table_name))
  /\ (forall other, py_prefix 63 other = py_prefix 63 table_name ->
                    table_exists schema other db
                    = table_exists schema table_name db).
Proof.
  assert (Hval : forall n,
    table_exists schema n db
    = (inr (bool_decide ((schema, py_prefix 63 n) ∈ catalog_tables db)), db)).
  { intros n. unfold table_exists.
    rewrite bind_unfold, table_exists_query_spec.
    unfold mret, M_ret. now rewrite is_not_None_select. }
  split; [apply Hval|]. split.
  - intros _. rewrite Hval. simpl. split.
    + intros Heq. inversion Heq as [Hb].
      apply bool_decide_eq_true in Hb. eauto.
    + intros (t & Hin & ->). f_equal. now apply bool_decide_eq_true.
  - intros other Hpre. now rewrite !Hval, Hpre.
Qed.
End EngineFacts.

Import Reference.

Lemma get_change_key_spec_witness :
  Engine.get_primary_keys (Backend := ref_backend) "public" "log" fruits_db
  = (inr [], fruits_db)
  /\ Engine.get_change_key (H := ref_backend) "public" "log" fruits_db
     = (inr (Engine.Rows [[SqlText "line"; SqlText "text"]]), fruits_db).
Proof.
  split; [reflexivity|].
  refine (eq_trans (proj2 (get_change_key_spec (H := ref_backend) "public" "log"
                             fruits_db [] fruits_db eq_refl) eq_refl) _).
  vm_compute. reflexivity.
Defined.

Lemma table_exists_truncates_witness :
  (63 < String.length name_70)%nat
  /\ ~ (("public", name_70) ∈ ref_tables fruits_db)
  /\ Engine.table_exists (H := ref_backend) "public" name_70 fruits_db
     = (inr true, fruits_db).
Proof.
  split; [vm_compute; lia|]. split.
  - intros Hin. repeat (apply elem_of_cons in Hin as [Hin|Hin]; [discriminate|]).
    inversion Hin.
  - exact (proj1 (table_exists_truncates (H := ref_backend)
                    "public" name_70 fruits_db)).
Defined.

(** ** The Mongo data source *)
Section MongoFacts.
Import Types MongoDataSource Statements.

Lemma has_id_column_app s1 s2 :
  has_id_column (s1 ++ s2) = has_id_column s1 || has_id_column s2.
Proof. apply existsb_app. Qed.

Lemma get_table_schema_fixed table_name s :
  has_id_column s = true -> get_table_schema table_name s = inr s.
Proof. intros Hid. unfold get_table_schema. now rewrite Hid. Qed.

(** C9. On a non-empty schema [get_table_schema] returns the schema as it
    is when a column is named "_id"; otherwise it returns the schema
    followed by one column "_id" of type NAME, not a primary key, whose
    ordinal is the last column's ordinal plus one.  Its result is a fixed
    point: applying it again changes nothing. *)
Theorem get_table_schema_adds_id_once table_name table_schema :
  table_schema <> [] ->
  (has_id_column table_schema = true ->
   get_table_schema table_name table_schema = inr table_schema)
  /\ (has_id_column table_schema = false ->
      exists c, last table_schema = Some c
                /\ get_table_schema table_name table_schema
                   = inr (table_schema ++ [id_column (ordinal c + 1)]))
  /\ (exists s', get_table_schema table_name table_schema = inr s'
                 /\ get_table_schema table_name s' = inr s').
Proof.
  intros Hne.
  assert (Hlast : exists c, last table_schema = Some c).
  { destruct (last table_schema) as [c|] eqn:E; [eauto|].
    apply last_None in E. contradiction. }
  destruct Hlast as [c Hc].
  assert (Hadd : has_id_column table_schema = false ->
                 get_table_schema table_name table_schema
                 = inr (table_schema ++ [id_column (ordinal c + 1)])).
  { intros Hid. unfold get_table_schema, py_last. now rewrite Hid, Hc. }
  split; [apply get_table_schema_fixed|]. split; [eauto|].
  destruct (has_id_column table_schema) eqn:Hid.
  - exists table_schema. split; now apply get_table_schema_fixed.
  - eexists. split; [now apply Hadd|].
    apply get_table_schema_fixed.
    rewrite has_id_column_app. apply orb_true_r.
Qed.
End MongoFacts.

Lemma get_table_schema_adds_id_once_witness :
  exists s',
    MongoDataSource.get_table_schema "orders"
      [{| Types.ordinal := 1; Types.name := "total"; Types.pg_type := "numeric";
          Types.is_pk := false; Types.comment := None |}] = inr s'
    /\ MongoDataSource.get_table_schema "orders" s' = inr s'.
Proof.
  apply (get_table_schema_adds_id_once "orders"
           [{| Types.ordinal := 1; Types.name := "total";
               Types.pg_type := "numeric"; Types.is_pk := false;
               Types.comment := None |}]).
  discriminate.
Defined.

(** ** Schema import over CSV files *)
Section CsvFacts.
Import CsvFdw Statements.
Context `{Remote}.

Lemma report_errors_lift {A} table_name (r : Exn + A) sent :
  report_errors table_name (lift r) sent
  = match r with
    | inr a => (inr (Some a), sent)
    | inl e => (inr None, sent ++ [notice_for table_name e])
    end.
Proof. unfold report_errors, lift. destruct r; reflexivity. Qed.

Lemma introspect_s3_outcome client bucket srv o sent :
  _introspect_s3 client bucket o srv None None sent
  = match s3_outcome client bucket srv o with
    | inr d => (inr (Some d), sent)
    | inl e => (inr None, sent ++ [notice_for (default_table_name srv o) e])
    end.
Proof.
  unfold _introspect_s3. rewrite report_errors_lift. simpl.
  rewrite insert_empty. reflexivity.
Qed.

Lemma scan_objects_outcomes client bucket srv rt restricts objects :
  forall result sent,
    let outcomes := map (fun o => (default_table_name srv o,
                                   s3_outcome client bucket srv o))
                        (scanned rt restricts objects) in
    scan_objects client bucket srv rt restricts objects result sent
    = (inr (result ++ map (fun x => slot (snd x)) outcomes),
       sent ++ notices_of outcomes).
Proof.
  induction objects as [|o rest IH]; intros result sent; simpl.
  - unfold mret, M_ret. now rewrite !app_nil_r.
  - unfold scanned. rewrite filter_cons.
    destruct (decide (rt = Some "except")) as [Hrt|Hrt];
      [destruct (decide (o ∈ restricts)) as [Hin|Hin]|].
    + rewrite !bool_decide_eq_true_2 by assumption. simpl.
      rewrite decide_False by tauto. apply IH.
    + rewrite (bool_decide_eq_false_2 (o ∈ restricts)) by assumption.
      rewrite andb_false_r, decide_True by tauto.
      rewrite bind_unfold, introspect_s3_outcome. simpl.
      destruct (s3_outcome client bucket srv o) as [e|d]; simpl;
        rewrite IH; unfold scanned; now rewrite <- !app_assoc.
    + rewrite (bool_decide_eq_false_2 (rt = Some "except")) by assumption.
      rewrite decide_True by tauto. cbn [andb].
      rewrite bind_unfold, introspect_s3_outcome. simpl.
      destruct (s3_outcome client bucket srv o) as [e|d]; simpl;
        rewrite IH; unfold scanned; now rewrite <- !app_assoc.
Qed.

Lemma truthy_results_slots outcomes :
  truthy_results (map (fun x => slot (snd x)) outcomes) = definitions_of outcomes.
Proof.
  unfold truthy_results, definitions_of.
  induction outcomes as [|[n [e|d]] rest IH]; simpl; [reflexivity|assumption|].
  now f_equal.
Qed.

Lemma introspect_url_outcome srv url name opts sent :
  _introspect_url srv url name opts sent
  = match fetch_url srv url (str_or name "data") (default ∅ opts) with
    | inr d => (inr (Some d), sent)
    | inl e => (inr None, sent ++ [notice_for (str_or name "data") e])
    end.
Proof. unfold _introspect_url. now rewrite report_errors_lift. Qed.

Lemma introspect_table_outcome client bucket prefix srv name opts sent :
  get_s3_params srv = inr (client, bucket, prefix) ->
  is_Some (opts !! "s3_object") \/ is_Some (opts !! "url") ->
  introspect_table srv name opts sent
  = match snd (table_outcome client bucket srv (name, opts)) with
    | inr d => (inr (Some d), sent)
    | inl e =>
        (inr None,
         sent ++ [notice_for (fst (table_outcome client bucket srv (name, opts))) e])
    end.
Proof.
  intros Hs3 Hitem. unfold introspect_table, table_outcome. simpl fst; simpl snd.
  destruct (opts !! "s3_object") as [oid|] eqn:Hoid.
  - rewrite bind_unfold. unfold lift at 1. rewrite Hs3. simpl fst; simpl snd.
    unfold _introspect_s3. now rewrite report_errors_lift.
  - destruct Hitem as [[? ?]|[url Hurl]]; [discriminate|].
    rewrite Hurl. now rewrite introspect_url_outcome.
Qed.

Lemma scan_tables_outcomes client bucket prefix srv items :
  get_s3_params srv = inr (client, bucket, prefix) ->
  Forall (fun item => is_Some (snd item !! "s3_object")
                      \/ is_Some (snd item !! "url")) items ->
  forall result sent,
    let outcomes := map (table_outcome client bucket srv) items in
    scan_tables srv items result sent
    = (inr (result ++ map (fun x => slot (snd x)) outcomes),
       sent ++ notices_of outcomes).
Proof.
  intros Hs3 Hall. induction Hall as [|[name opts] rest Hitem _ IH];
    intros result sent.
  - simpl. unfold mret, M_ret. now rewrite !app_nil_r.
  - cbn [scan_tables map fst snd]. cbn [snd] in Hitem.
    rewrite bind_unfold, (introspect_table_outcome _ _ _ _ _ _ _ Hs3 Hitem).
    unfold notices_of. cbn [omap list_omap].
    destruct (table_outcome client bucket srv (name, opts)) as [n [e|d]];
      cbn [fst snd slot]; rewrite IH; now rewrite <- !app_assoc.
Qed.

(** The loop over the per-table options stops at a table that names
    neither an S3 object nor a URL: the [KeyError] of
    [this_table_options["url"]] is raised outside [report_errors]. *)
Lemma scan_tables_missing_url client bucket prefix srv pre name opts post :
  get_s3_params srv = inr (client, bucket, prefix) ->
  Forall names_source pre ->
  opts !! "s3_object" = None ->
  opts !! "url" = None ->
  forall result sent,
    scan_tables srv (pre ++ (name, opts) :: post) result sent
    = (inl (KeyError "url"),
       sent ++ notices_of (map (table_outcome client bucket srv) pre)).
Proof.
  intros Hs3 Hpre Hobj Hurl. induction Hpre as [|[n o] pre Hitem _ IH];
    intros result sent.
  - cbn [app scan_tables map]. rewrite bind_unfold.
    unfold introspect_table. rewrite Hobj, Hurl.
    unfold raise, notices_of. cbn [omap list_omap]. now rewrite app_nil_r.
  - cbn [app scan_tables map fst snd].
    unfold names_source in Hitem. cbn [snd] in Hitem.
    rewrite bind_unfold, (introspect_table_outcome _ _ _ _ _ _ _ Hs3 Hitem).
    unfold notices_of. cbn [omap list_omap].
    destruct (table_outcome client bucket srv (n, o)) as [n' [e|d]];
      cbn [fst snd]; rewrite IH; now rewrite <- ?app_assoc.
Qed.


(** X1. With per-table options, each naming an S3 object or a URL, and the
    S3 parameters available, [import_schema] returns the definitions of the
    tables that could be read and sends a notice for each table that could
    not; no exception of a table's introspection escapes. *)
Theorem import_schema_table_options_isolates_errors schema srv_options options
    restriction_type restricts text items srv client bucket prefix sent :
  options !! "table_options" = Some text ->
  json_loads text = inr items ->
  items <> [] ->
  load_options srv_options = inr srv ->
  get_s3_params srv = inr (client, bucket, prefix) ->
  Forall (fun item => is_Some (snd item !! "s3_object")
                      \/ is_Some (snd item !! "url")) items ->
  let outcomes := map (table_outcome client bucket srv) items in
  import_schema schema srv_options options restriction_type restricts sent
  = (inr (definitions_of outcomes), sent ++ notices_of outcomes).
Proof.
  intros Hopt Hjson Hne Hload Hs3 Hall outcomes.
  unfold import_schema. rewrite Hopt.
  rewrite bind_unfold. unfold lift at 1. rewrite Hjson.
  rewrite bind_unfold. unfold lift at 1. rewrite Hload.
  assert (Hscan : forall k : list (option TableDefinition) -> Import (list TableDefinition),
    (scan_tables srv items [] ≫= k) sent
    = k (map (fun x => slot (snd x)) outcomes) (sent ++ notices_of outcomes)).
  { intros k. now rewrite bind_unfold, (scan_tables_outcomes _ _ _ _ _ Hs3 Hall). }
  destruct items as [|item rest]; [contradiction|].
  rewrite Hscan. unfold mret, M_ret. now rewrite truthy_results_slots.
Qed.

(** X2. With a URL in the server options and no per-table options,
    [import_schema] returns the definition of the one table [data], or no
    definition and a notice when reading the URL raises. *)
Theorem import_schema_url_isolates_errors schema srv_options options
    restriction_type restricts srv url sent :
  options !! "table_options" = None ->
  load_options srv_options = inr srv ->
  srv !! "url" = Some url ->
  url <> "" ->
  import_schema schema srv_options options restriction_type restricts sent
  = match fetch_url srv url "data" ∅ with
    | inr d => (inr [d], sent)
    | inl e => (inr [], sent ++ [notice_for "data" e])
    end.
Proof.
  intros Hopt Hload Hurl Hne.
  unfold import_schema. rewrite Hopt.
  rewrite bind_unfold. unfold mret at 1, M_ret at 1.
  rewrite bind_unfold. unfold lift at 1. rewrite Hload, Hurl.
  unfold py_truthy_str. apply String.eqb_neq in Hne as ->. cbn [negb default].
  rewrite bind_unfold, introspect_url_outcome. simpl.
  destruct (fetch_url srv url "data" ∅); reflexivity.
Qed.
End CsvFacts.



Lemma import_schema_table_options_isolates_errors_witness :
  CsvFdw.import_schema (H := ref_remote) "public" ∅
    {[ "table_options" := "tables" ]} None [] []
  = (inr [ {| CsvFdw.table_name := "fruits"; CsvFdw.columns := [("col_1", "text")];
              CsvFdw.options := {[ "s3_object" := "a.csv" ]} |};
           {| CsvFdw.table_name := "remote"; CsvFdw.columns := [("col_1", "text")];
              CsvFdw.options := {[ "url" := "http://files/data.csv" ]} |} ],
     [ {| CsvFdw.notice_table_name := "missing";
          CsvFdw.notice_error := "S3Error";
          CsvFdw.notice_error_text := "NoSuchKey" |} ]).
Proof.
  refine (eq_trans
            (import_schema_table_options_isolates_errors (H := ref_remote)
               "public" ∅ {[ "table_options" := "tables" ]} None [] "tables"
               [("fruits", {[ "s3_object" := "a.csv" ]});
                ("missing", {[ "s3_object" := "broken.csv" ]});
                ("remote", {[ "url" := "http://files/data.csv" ]})]
               ∅ tt "bucket" "" [] eq_refl eq_refl _ eq_refl eq_refl _) _).
  - discriminate.
  - repeat (apply Forall_cons; split;
            [first [left; eexists; reflexivity | right; eexists; reflexivity]|]).
    constructor.
  - reflexivity.
Defined.

Lemma import_schema_url_isolates_errors_witness :
  CsvFdw.import_schema (H := ref_remote) "public"
    {[ "url" := "http://files/data.csv" ]} ∅ None [] []
  = (inr [ {| CsvFdw.table_name := "data"; CsvFdw.columns := [("col_1", "text")];
              CsvFdw.options := ∅ |} ], []).
Proof.
  refine (eq_trans
            (import_schema_url_isolates_errors (H := ref_remote) "public"
               {[ "url" := "http://files/data.csv" ]} ∅ None []
               {[ "url" := "http://files/data.csv" ]} "http://files/data.csv" []
               eq_refl eq_refl eq_refl _) _).
  - discriminate.
  - reflexivity.
Defined.

(** ** Build-script preprocessing *)
Section SplitfileFacts.
Import Splitfile Statements.

Lemma scan_cons st c rest :
  scan st (c :: rest) = snd (scan_step st c) ++ scan (fst (scan_step st c)) rest.
Proof. reflexivity. Qed.

Lemma scan_name escaped name :
  forall acc rest,
    Forall name_char name ->
    acc <> [] \/ name <> [] ->
    scan (Name escaped acc) (name ++ rbrace :: rest)
    = tag escaped (string_of_list_ascii (rev acc ++ name)) :: scan Plain rest.
Proof.
  induction name as [|c name IH]; intros acc rest Hvalid Hne.
  - destruct acc as [|a acc]; [destruct Hne; contradiction|].
    rewrite app_nil_r. simpl app. rewrite scan_cons. simpl.
    destruct escaped; reflexivity.
  - inversion Hvalid as [|? ? [Hc1 Hc2] Hrest]; subst.
    simpl app. rewrite scan_cons. simpl. rewrite Hc1, Hc2. simpl.
    rewrite IH by (auto; left; discriminate).
    simpl. now rewrite <- app_assoc.
Qed.

(** An unescaped placeholder at the head of the text is one [Placeholder]
    token. *)
Lemma scan_placeholder name rest :
  name <> [] -> Forall name_char name ->
  scan Plain (dollar :: lbrace :: name ++ rbrace :: rest)
  = Placeholder (string_of_list_ascii name) :: scan Plain rest.
Proof.
  intros Hne Hvalid. rewrite !scan_cons. simpl.
  now rewrite (scan_name false name [] rest) by auto.
Qed.

(** A placeholder behind a backslash is one [Escaped] token: the backslash
    is consumed and the placeholder is not a reference. *)
Lemma scan_escaped name rest :
  name <> [] -> Forall name_char name ->
  scan Plain (backslash :: dollar :: lbrace :: name ++ rbrace :: rest)
  = Escaped (string_of_list_ascii name) :: scan Plain rest.
Proof.
  intros Hne Hvalid. rewrite !scan_cons. simpl.
  now rewrite (scan_name true name [] rest) by auto.
Qed.

(** Any other character of plain text stands for itself. *)
Lemma scan_text c rest :
  Ascii.eqb c backslash = false -> Ascii.eqb c dollar = false ->
  scan Plain (c :: rest) = Text c :: scan Plain rest.
Proof.
  intros H1 H2. rewrite scan_cons. simpl. unfold plain_step.
  now rewrite H1, H2.
Qed.

Lemma flush_source_name escaped acc :
  flat_map source_of (flush (Name escaped acc))
  = flat_map source_of (flush (Dollar escaped)) ++ lbrace :: rev acc.
Proof.
  assert (Htext : forall l, flat_map source_of (map Text l) = l).
  { induction l as [|a l IH]; simpl; [reflexivity | now rewrite IH]. }
  destruct escaped; simpl; now rewrite Htext.
Qed.

Lemma scan_step_source st c :
  flat_map source_of (snd (scan_step st c))
  ++ flat_map source_of (flush (fst (scan_step st c)))
  = flat_map source_of (flush st) ++ [c].
Proof.
  assert (Hplain : forall pre,
    flat_map source_of (pre ++ snd (plain_step c))
    ++ flat_map source_of (flush (fst (plain_step c)))
    = flat_map source_of pre ++ [c]).
  { intros pre. rewrite flat_map_app, <- app_assoc. f_equal.
    unfold plain_step.
    destruct (Ascii.eqb c backslash) eqn:E1;
      [apply Ascii.eqb_eq in E1 as ->; reflexivity|].
    destruct (Ascii.eqb c dollar) eqn:E2;
      [apply Ascii.eqb_eq in E2 as ->; reflexivity|].
    reflexivity. }
  destruct st as [| |escaped|escaped acc].
  - apply (Hplain []).
  - simpl. destruct (Ascii.eqb c dollar) eqn:E1;
      [apply Ascii.eqb_eq in E1 as ->; reflexivity|].
    destruct (Ascii.eqb c backslash) eqn:E2;
      [apply Ascii.eqb_eq in E2 as ->; reflexivity|].
    reflexivity.
  - cbn [scan_step]. destruct (Ascii.eqb c lbrace) eqn:E1.
    + apply Ascii.eqb_eq in E1 as ->. cbn [fst snd flat_map app].
      rewrite flush_source_name. reflexivity.
    + cbn [fst snd]. apply Hplain.
  - cbn [scan_step]. destruct (Ascii.eqb c rbrace) eqn:E1.
    + apply Ascii.eqb_eq in E1 as ->. destruct acc as [|a acc].
      * cbn [fst snd]. rewrite flat_map_app. simpl. now rewrite app_nil_r.
      * cbn [fst snd flat_map]. rewrite flush_source_name.
        destruct escaped; simpl; rewrite list_ascii_of_string_of_list_ascii;
          now rewrite !app_nil_r, <- ?app_assoc.
    + destruct (is_blank c).
      * cbn [fst snd]. rewrite flat_map_app. simpl. now rewrite app_nil_r.
      * cbn [fst snd flat_map app]. rewrite !flush_source_name.
        simpl. now rewrite <- !app_assoc.
Qed.

(** Reading loses nothing: the tokens, written back as they were read,
    give the text. *)
Lemma scan_source s : forall st,
  flat_map source_of (scan st s) = flat_map source_of (flush st) ++ s.
Proof.
  induction s as [|c s IH]; intros st.
  - simpl. now rewrite app_nil_r.
  - rewrite scan_cons, flat_map_app, IH, app_assoc, scan_step_source.
    now rewrite <- app_assoc.
Qed.

Lemma lex_source text :
  flat_map source_of (lex text) = list_ascii_of_string text.
Proof. unfold lex. now rewrite scan_source. Qed.

Lemma referenced_spec toks n : n ∈ referenced toks <-> Placeholder n ∈ toks.
Proof.
  unfold referenced. rewrite list_elem_of_omap. split.
  - intros (t & Hin & Ht). destruct t; inversion Ht; now subst.
  - intros Hin. exists (Placeholder n). auto.
Qed.

Lemma unbound_spec params toks n :
  n ∈ unbound params toks <-> Placeholder n ∈ toks /\ params !! n = None.
Proof.
  unfold unbound. rewrite elem_of_remove_dups, list_elem_of_filter, referenced_spec.
  tauto.
Qed.

(** A blank is none of the characters that the scanner acts on. *)
Lemma blank_not_special c :
  is_blank c = true ->
  Ascii.eqb c rbrace = false /\ Ascii.eqb c lbrace = false
  /\ Ascii.eqb c backslash = false /\ Ascii.eqb c dollar = false.
Proof.
  unfold is_blank. rewrite !orb_true_iff, !Ascii.eqb_eq.
  intros [[[-> | ->] | ->] | ->]; repeat split; reflexivity.
Qed.

Lemma blank_step st c :
  is_blank c = true -> scan_step st c = (Plain, flush st ++ [Text c]).
Proof.
  intros Hb. destruct (blank_not_special c Hb) as (Hr & Hl & Hbs & Hd).
  destruct st as [| |escaped|escaped acc]; cbn [scan_step].
  - unfold plain_step. now rewrite Hbs, Hd.
  - now rewrite Hd, Hbs.
  - unfold plain_step. now rewrite Hl, Hbs, Hd.
  - now rewrite Hr, Hb.
Qed.

(** Unless a name is closed, a step emits plain characters only: what it
    emits and what it keeps pending are what was pending and the
    character. *)
Lemma scan_step_flush st c :
  Ascii.eqb c rbrace = false ->
  snd (scan_step st c) ++ flush (fst (scan_step st c)) = flush st ++ [Text c].
Proof.
  intros Hc.
  assert (Hplain : forall pre,
    (pre ++ snd (plain_step c)) ++ flush (fst (plain_step c))
    = pre ++ [Text c]).
  { intros pre. rewrite <- app_assoc. f_equal. unfold plain_step.
    destruct (Ascii.eqb c backslash) eqn:E1;
      [apply Ascii.eqb_eq in E1 as ->; reflexivity|].
    destruct (Ascii.eqb c dollar) eqn:E2;
      [apply Ascii.eqb_eq in E2 as ->; reflexivity|].
    reflexivity. }
  destruct st as [| |escaped|escaped acc].
  - apply (Hplain []).
  - simpl. destruct (Ascii.eqb c dollar) eqn:E1;
      [apply Ascii.eqb_eq in E1 as ->; reflexivity|].
    destruct (Ascii.eqb c backslash) eqn:E2;
      [apply Ascii.eqb_eq in E2 as ->; reflexivity|].
    reflexivity.
  - cbn [scan_step]. destruct (Ascii.eqb c lbrace) eqn:E1.
    + apply Ascii.eqb_eq in E1 as ->. destruct escaped; reflexivity.
    + cbn [fst snd]. apply Hplain.
  - cbn [scan_step]. rewrite Hc. destruct (is_blank c).
    + cbn [fst snd flush]. now rewrite app_nil_r.
    + cbn [fst snd app]. destruct escaped; cbn [flush rev];
        rewrite map_app; cbn [map app]; now rewrite <- ?app_assoc.
Qed.

Lemma closing_some s : forall n t,
  closing s = Some (n, t) -> Forall name_char n /\ s = n ++ rbrace :: t.
Proof.
  induction s as [|c r IH]; intros n t; cbn [closing]; [discriminate|].
  destruct (Ascii.eqb c rbrace) eqn:Hr.
  - intros [= <- <-]. apply Ascii.eqb_eq in Hr as ->.
    split; [constructor|reflexivity].
  - destruct (is_blank c) eqn:Hb; [discriminate|].
    destruct (closing r) as [[n' t']|]; [|discriminate].
    cbn. intros [= <- <-]. destruct (IH n' t' eq_refl) as [Hn ->].
    split; [|reflexivity]. constructor; [split; assumption|assumption].
Qed.

Lemma closing_none s :
  closing s = None ->
  forall n t, Forall name_char n -> s <> n ++ rbrace :: t.
Proof.
  induction s as [|c r IH]; cbn [closing]; intros Hc n t Hn Heq.
  - destruct n; discriminate.
  - destruct (Ascii.eqb c rbrace) eqn:Hr; [discriminate|].
    destruct n as [|c' n]; cbn in Heq; injection Heq as -> Heq.
    + rewrite Ascii.eqb_refl in Hr. discriminate.
    + inversion Hn as [|? ? [_ Hb] Hn']; subst. rewrite Hb in Hc.
      apply (IH (ltac:(destruct (closing (n ++ rbrace :: t));
                       [discriminate|reflexivity])) n t Hn' eq_refl).
Qed.

(** Text in which no name can be closed reads the same from every state,
    after what the state had pending. *)
Lemma scan_unclosed s :
  closing s = None -> forall st, scan st s = flush st ++ scan Plain s.
Proof.
  induction s as [|c r IH]; cbn [closing]; intros Hc st.
  - cbn [scan flush]. now rewrite app_nil_r.
  - destruct (Ascii.eqb c rbrace) eqn:Hr; [discriminate|].
    assert (Hany : forall st', scan st' (c :: r)
                               = flush st' ++ Text c :: scan Plain r).
    { intros st'. destruct (is_blank c) eqn:Hb.
      - rewrite scan_cons, blank_step by exact Hb. cbn [fst snd].
        now rewrite <- app_assoc.
      - assert (E : closing r = None)
          by (destruct (closing r); [discriminate|reflexivity]).
        rewrite scan_cons, (IH E), app_assoc, (scan_step_flush st' c Hr).
        now rewrite <- app_assoc. }
    rewrite (Hany st), (Hany Plain). reflexivity.
Qed.

(** After [${], text that does not go on as a name and a closing brace is
    plain text, and so are the characters that opened. *)
Lemma scan_open_name escaped r :
  (forall n t, parameter_name n -> r <> n ++ rbrace :: t) ->
  scan (Name escaped []) r = flush (Name escaped []) ++ scan Plain r.
Proof.
  intros Hno. destruct (closing r) as [[n t]|] eqn:Hc.
  - destruct (closing_some _ _ _ Hc) as [Hn ->]. destruct n as [|c n].
    + cbn [app]. rewrite scan_cons. cbn [scan_step].
      rewrite Ascii.eqb_refl. cbn [fst snd].
      rewrite (scan_text rbrace) by reflexivity. now rewrite <- app_assoc.
    + exfalso. apply (Hno (c :: n) t); [|reflexivity].
      split; [discriminate|assumption].
  - now apply scan_unclosed.
Qed.

(** A character at which no placeholder opens is read as itself. *)
Lemma scan_plain_text c rest :
  ~ opens_placeholder (c :: rest) ->
  scan Plain (c :: rest) = Text c :: scan Plain rest.
Proof.
  intros Hno.
  destruct (Ascii.eqb c backslash) eqn:Hb;
    [apply Ascii.eqb_eq in Hb as ->
    |destruct (Ascii.eqb c dollar) eqn:Hd;
       [apply Ascii.eqb_eq in Hd as ->|now apply scan_text]].
  - destruct rest as [|c2 r]; [reflexivity|].
    destruct (Ascii.eqb c2 dollar) eqn:H2; [apply Ascii.eqb_eq in H2 as ->|].
    + destruct r as [|c3 r']; [reflexivity|].
      destruct (Ascii.eqb c3 lbrace) eqn:H3; [apply Ascii.eqb_eq in H3 as ->|].
      * change (scan Plain (backslash :: dollar :: lbrace :: r'))
          with (scan (Name true []) r').
        change (scan Plain (dollar :: lbrace :: r'))
          with (scan (Name false []) r').
        assert (Hname : forall n t, parameter_name n -> r' <> n ++ rbrace :: t).
        { intros n t Hn ->. apply Hno. exists n, t. auto. }
        rewrite !scan_open_name by exact Hname. reflexivity.
      * change (scan Plain (backslash :: dollar :: c3 :: r'))
          with (scan (Dollar true) (c3 :: r')).
        change (scan Plain (dollar :: c3 :: r'))
          with (scan (Dollar false) (c3 :: r')).
        rewrite !scan_cons. cbn [scan_step]. rewrite H3. reflexivity.
    + destruct (Ascii.eqb c2 backslash) eqn:H2';
        [apply Ascii.eqb_eq in H2' as ->|].
      * reflexivity.
      * change (scan Plain (backslash :: c2 :: r))
          with (scan Backslash (c2 :: r)).
        rewrite (scan_cons Backslash). cbn [scan_step]. rewrite H2, H2'.
        cbn [fst snd app]. now rewrite (scan_text c2) by assumption.
  - destruct rest as [|c2 r]; [reflexivity|].
    destruct (Ascii.eqb c2 lbrace) eqn:H2; [apply Ascii.eqb_eq in H2 as ->|].
    + change (scan Plain (dollar :: lbrace :: r))
        with (scan (Name false []) r).
      rewrite scan_open_name.
      * now rewrite (scan_text lbrace) by reflexivity.
      * intros n t Hn ->. apply Hno. exists n, t. auto.
    + change (scan Plain (dollar :: c2 :: r))
        with (scan (Dollar false) (c2 :: r)).
      rewrite (scan_cons (Dollar false)), (scan_cons Plain).
      cbn [scan_step]. rewrite H2. reflexivity.
Qed.

Lemma opens_placeholder_dec s : opens_placeholder s \/ ~ opens_placeholder s.
Proof.
  assert (Hname : forall r,
    (exists n t, parameter_name n /\ r = n ++ rbrace :: t)
    \/ (forall n t, parameter_name n -> r <> n ++ rbrace :: t)).
  { intros r. destruct (closing r) as [[n t]|] eqn:Hc.
    - destruct (closing_some _ _ _ Hc) as [Hn ->]. destruct n as [|c n].
      + right. intros [|c' n'] t' [Hne Hn'] Heq; [contradiction|].
        cbn in Heq. injection Heq as <- _.
        inversion Hn' as [|? ? [Hr _] _]. discriminate Hr.
      + left. exists (c :: n), t.
        split; [split; [discriminate|assumption]|reflexivity].
    - right. intros n t [_ Hn]. now apply closing_none. }
  destruct s as [|c1 s];
    [right; intros (n & t & _ & [H|H]); discriminate H|].
  destruct (Ascii.eqb c1 dollar) eqn:H1.
  - apply Ascii.eqb_eq in H1 as ->.
    destruct s as [|c2 r];
      [right; intros (n & t & _ & [H|H]); discriminate H|].
    destruct (Ascii.eqb c2 lbrace) eqn:H2.
    + apply Ascii.eqb_eq in H2 as ->.
      destruct (Hname r) as [(n & t & Hn & ->)|Hno].
      * left. exists n, t. auto.
      * right. intros (n & t & Hn & [H|H]); [|discriminate H].
        injection H as H. exact (Hno n t Hn H).
    + right. intros (n & t & Hn & [H|H]); [|discriminate H].
      injection H as -> _. rewrite Ascii.eqb_refl in H2. discriminate H2.
  - destruct (Ascii.eqb c1 backslash) eqn:H1'.
    + apply Ascii.eqb_eq in H1' as ->.
      destruct s as [|c2 s];
        [right; intros (n & t & _ & [H|H]); discriminate H|].
      destruct (Ascii.eqb c2 dollar) eqn:H2.
      * apply Ascii.eqb_eq in H2 as ->.
        destruct s as [|c3 r];
          [right; intros (n & t & _ & [H|H]); discriminate H|].
        destruct (Ascii.eqb c3 lbrace) eqn:H3.
        -- apply Ascii.eqb_eq in H3 as ->.
           destruct (Hname r) as [(n & t & Hn & ->)|Hno].
           ++ left. exists n, t. auto.
           ++ right. intros (n & t & Hn & [H|H]); [discriminate H|].
              injection H as H. exact (Hno n t Hn H).
        -- right. intros (n & t & Hn & [H|H]); [discriminate H|].
           injection H as -> _. rewrite Ascii.eqb_refl in H3. discriminate H3.
      * right. intros (n & t & Hn & [H|H]); [discriminate H|].
        injection H as -> _. rewrite Ascii.eqb_refl in H2. discriminate H2.
    + right. intros (n & t & _ & [H|H]); injection H as -> _.
      * rewrite Ascii.eqb_refl in H1. discriminate H1.
      * rewrite Ascii.eqb_refl in H1'. discriminate H1'.
Qed.

(** The scanner reads a text as [reads] says, and in no other way. *)
Lemma reads_scan k : forall s, (length s <= k)%nat -> reads s (scan Plain s).
Proof.
  induction k as [|k IH]; intros s Hk.
  - destruct s; [constructor|cbn in Hk; lia].
  - destruct (opens_placeholder_dec s)
      as [(n & t & [Hne Hn] & [-> | ->])|Hno].
    + rewrite scan_placeholder by assumption.
      apply reads_placeholder; [split; assumption|]. apply IH.
      cbn [length] in Hk. rewrite length_app in Hk. cbn [length] in Hk. lia.
    + rewrite scan_escaped by assumption.
      apply reads_escaped; [split; assumption|]. apply IH.
      cbn [length] in Hk. rewrite length_app in Hk. cbn [length] in Hk. lia.
    + destruct s as [|c rest]; [constructor|].
      rewrite scan_plain_text by assumption.
      apply reads_text; [assumption|]. apply IH. cbn [length] in Hk. lia.
Qed.

Lemma scan_reads s pieces : reads s pieces -> scan Plain s = pieces.
Proof.
  induction 1 as [|name rest pieces [Hne Hn] _ IH
                  |name rest pieces [Hne Hn] _ IH
                  |c rest pieces Hno _ IH].
  - reflexivity.
  - rewrite scan_placeholder by assumption. now rewrite IH.
  - rewrite scan_escaped by assumption. now rewrite IH.
  - rewrite scan_plain_text by assumption. now rewrite IH.
Qed.

Lemma render_substituted (params : Params) toks :
  (forall n, Placeholder n ∈ toks -> is_Some (params !! n)) ->
  render params toks = substituted params toks.
Proof.
  induction toks as [|t toks IH]; intros Hbound; [reflexivity|].
  unfold render, substituted in *. cbn [foldr].
  rewrite IH by (intros n Hn; apply Hbound; now right). f_equal.
  destruct t as [c|n|n]; try reflexivity.
  cbn [expand substitute]. destruct (Hbound n) as [v ->]; [left|reflexivity].
Qed.

(** C4. Every script text reads in exactly one way, from left to right, as
    plain characters, placeholders [${NAME}] and escaped placeholders (a
    backslash and [${NAME}]), a placeholder being read wherever one opens.
    Preprocessing fails if and only if one of the placeholders of the text
    has no binding; the error then lists exactly the names of the
    placeholders of the text that are not bound, so that a name that only
    occurs escaped is never listed; and when every placeholder is bound the
    result is the text with each placeholder replaced by its bound value,
    each escaped placeholder left as [${NAME}], without its backslash, and
    every other character as it is. *)
Theorem preprocess_substitutes_or_lists_unbound commands (params : Params) :
  exists pieces,
    reads (list_ascii_of_string commands) pieces
    /\ (forall pieces',
          reads (list_ascii_of_string commands) pieces' -> pieces' = pieces)
    /\ ((exists err, preprocess commands params = inl err)
        <-> exists n, Placeholder n ∈ pieces /\ params !! n = None)
    /\ (forall names,
          preprocess commands params = inl (UnboundParameters names) ->
          forall n, n ∈ names
                    <-> Placeholder n ∈ pieces /\ params !! n = None)
    /\ ((forall n, Placeholder n ∈ pieces -> is_Some (params !! n)) ->
        preprocess commands params = inr (substituted params pieces)).
Proof.
  assert (Hfail : forall names,
    preprocess commands params = inl (UnboundParameters names) ->
    names = unbound params (lex commands) /\ names <> []).
  { unfold preprocess. intros names Hp.
    destruct (unbound params (lex commands)) eqn:E; inversion Hp. split; congruence. }
  exists (lex commands).
  split; [apply (reads_scan _ _ (Nat.le_refl _))|].
  split; [intros pieces' Hreads; symmetry; now apply scan_reads|].
  split; [split|split].
  - intros [[names] Hp]. destruct (Hfail _ Hp) as [-> Hne].
    destruct (unbound params (lex commands)) as [|n l] eqn:E; [contradiction|].
    exists n. apply unbound_spec. rewrite E. left.
  - intros (n & Hn). apply unbound_spec in Hn. unfold preprocess.
    destruct (unbound params (lex commands)); [inversion Hn | eauto].
  - intros names Hp n. destruct (Hfail _ Hp) as [-> _]. apply unbound_spec.
  - intros Hbound. rewrite <- render_substituted by exact Hbound.
    unfold preprocess.
    destruct (unbound params (lex commands)) as [|n l] eqn:E; [reflexivity|].
    assert (Hn : n ∈ unbound params (lex commands)) by (rewrite E; left).
    apply unbound_spec in Hn as [Hin Hnone].
    destruct (Hbound n Hin) as [v Hv]. congruence.
Qed.

Example preprocess_missing_params :
  preprocess sample_script ∅ = inl (UnboundParameters ["TAG"]).
Proof. vm_compute. reflexivity. Qed.

Example preprocess_escaping :
  preprocess sample_script {[ "TAG" := "tag-v1-whatever" ]}
  = inr "FROM repo:tag-v1-whatever IMPORT {SELECT '${ESCAPED}'}".
Proof. vm_compute. reflexivity. Qed.
End SplitfileFacts.

(** ** The build engine: cached re-execution *)
Section BuildFacts.
Import Core CoreStatements.
Context `{Digest} `{Adapter}.

Lemma find_app_l {A} (f : A -> bool) l1 l2 x :
  find f l1 = Some x -> find f (l1 ++ l2) = Some x.
Proof.
  induction l1 as [|a l1 IH]; simpl; [discriminate|].
  destruct (f a); auto.
Qed.

Lemma find_app_r {A} (f : A -> bool) l1 l2 :
  find f l1 = None -> find f (l1 ++ l2) = find f l2.
Proof.
  induction l1 as [|a l1 IH]; simpl; [reflexivity|].
  destruct (f a); [discriminate | auto].
Qed.

Lemma known_app imgs ext i : known imgs i = true -> known (imgs ++ ext) i = true.
Proof.
  unfold known. rewrite !bool_decide_eq_true. intros [x Hx].
  exists x. unfold find_image in *. now apply find_app_l.
Qed.

Lemma known_self imgs i : known (imgs ++ [i]) i = true.
Proof.
  unfold known, find_image. apply bool_decide_eq_true.
  destruct (find (fun j => String.eqb (image_hash j) (image_hash i)) imgs) eqn:E.
  - erewrite find_app_l by eassumption. eauto.
  - rewrite find_app_r by assumption. simpl. rewrite String.eqb_refl. eauto.
Qed.

Lemma adopt_extends src : forall imgs, exists more, adopt imgs src = imgs ++ more.
Proof.
  induction src as [|i src IH]; intros imgs; simpl.
  - exists []. now rewrite app_nil_r.
  - destruct (known imgs i).
    + apply IH.
    + destruct (IH (imgs ++ [i])) as [more ->].
      exists (i :: more). now rewrite <- app_assoc.
Qed.

Lemma adopt_knows src : forall imgs i,
  (i ∈ src \/ known imgs i = true) -> known (adopt imgs src) i = true.
Proof.
  induction src as [|j src IH]; intros imgs i Hi; simpl.
  - destruct Hi as [Hi|Hi]; [inversion Hi | assumption].
  - apply IH. destruct Hi as [Hi|Hi].
    + apply elem_of_cons in Hi as [->|Hi]; [right | now left].
      destruct (known imgs j) eqn:E; [assumption | apply known_self].
    + right. destruct (known imgs j); [assumption | now apply known_app].
Qed.

Lemma adopt_all_known src : forall imgs,
  (forall i, i ∈ src -> known imgs i = true) -> adopt imgs src = imgs.
Proof.
  induction src as [|j src IH]; intros imgs Hall; simpl; [reflexivity|].
  rewrite (Hall j) by left. apply IH. intros i Hi. apply Hall. now right.
Qed.

Lemma commit_appends st ws prov msg st' ws' :
  commit st ws prov msg = inr (st', ws') -> appends_child prov st st'.
Proof.
  unfold commit. destruct (find_image (images st) (HEAD st)); [|discriminate].
  intros Heq. inversion Heq; subst. eexists. simpl. eauto.
Qed.

Lemma run_import_appends srcs items prov st st' :
  run_import srcs items prov st = inr st' -> appends_child prov st st'.
Proof.
  unfold run_import. destruct srcs as [|src [|? ?]]; try discriminate.
  destruct (find_image (images st) (HEAD st)); [|discriminate].
  destruct (import_items _ _ _ _); [discriminate|].
  intros Heq. inversion Heq; subst. eexists. simpl. eauto.
Qed.

Lemma run_sql_step_appends srcs statement prov st st' :
  run_sql_step srcs statement prov st = inr st' -> appends_child prov st st'.
Proof.
  unfold run_sql_step.
  destruct (checkout st (HEAD st)); [discriminate|].
  destruct (checkout_sources _ _); [discriminate|].
  destruct (run_statement _ _ _); [discriminate|].
  destruct (exec_all _ _); [discriminate|].
  destruct (commit st _ prov "") as [|[st1 ws1]] eqn:E; [discriminate|].
  intros Heq. inversion Heq; subst. eapply commit_appends, E.
Qed.

Lemma cached_after_append prov st st' ext objs :
  cached_image st prov = None ->
  appends_child prov st st' ->
  exists img, cached_image (rewound st' ext objs (HEAD st)) prov = Some img
              /\ image_hash img = HEAD st'.
Proof.
  intros Hmiss (img & Himgs & Hpar & Hprov & Hhead).
  exists img. split; [|now rewrite Hhead].
  unfold cached_image, rewound in *. simpl. rewrite Himgs.
  apply find_app_l. rewrite find_app_r by assumption.
  simpl. unfold has_key_of. rewrite Hpar, Hprov.
  now rewrite !bool_decide_eq_true_2.
Qed.

Lemma cached_before_append prov st ext objs img :
  cached_image st prov = Some img ->
  cached_image (rewound (set_head st (image_hash img)) ext objs (HEAD st)) prov
  = Some img.
Proof.
  unfold cached_image, rewound. simpl. apply find_app_l.
Qed.

(** A step that went through once goes through again from any store that
    extends its result, without adding an image. *)
Lemma step_replay sources c st st' :
  step sources c st = inr st' ->
  forall ext objs,
    step sources c (rewound st' ext objs (HEAD st))
    = inr (rewound st' ext objs (HEAD st')).
Proof.
  unfold step. destruct (plan sources c) as [e|[srcs prov]]; [discriminate|].
  destruct (cmd_node c) as [src|src items|statement].
  - destruct srcs as [|s [|? ?]]; try discriminate.
    intros Heq ext objs. inversion Heq; subst. unfold rewound. simpl.
    rewrite adopt_all_known; [reflexivity|].
    intros i Hi. apply known_app, adopt_knows. now left.
  - destruct (cached_image st prov) as [img|] eqn:Hc; intros Heq ext objs.
    + inversion Heq; subst.
      rewrite (cached_before_append _ _ _ _ _ Hc). reflexivity.
    + apply run_import_appends in Heq.
      destruct (cached_after_append _ _ _ ext objs Hc Heq) as (img & -> & <-).
      reflexivity.
  - destruct (cached_image st prov) as [img|] eqn:Hc; intros Heq ext objs.
    + inversion Heq; subst.
      rewrite (cached_before_append _ _ _ _ _ Hc). reflexivity.
    + apply run_sql_step_appends in Heq.
      destruct (cached_after_append _ _ _ ext objs Hc Heq) as (img & -> & <-).
      reflexivity.
Qed.

Lemma step_images sources c st st' :
  step sources c st = inr st' -> exists more, images st' = images st ++ more.
Proof.
  unfold step. destruct (plan sources c) as [e|[srcs prov]]; [discriminate|].
  assert (Hchild : forall p, appends_child p st st' ->
                             exists more, images st' = images st ++ more).
  { intros p (img & Hi & _). eauto. }
  destruct (cmd_node c) as [src|src items|statement].
  - destruct srcs as [|s [|? ?]]; try discriminate.
    intros Heq. inversion Heq; subst. simpl. apply adopt_extends.
  - destruct (cached_image st prov) as [img|]; intros Heq.
    + inversion Heq; subst. exists []. simpl. now rewrite app_nil_r.
    + eapply Hchild, run_import_appends, Heq.
  - destruct (cached_image st prov) as [img|]; intros Heq.
    + inversion Heq; subst. exists []. simpl. now rewrite app_nil_r.
    + eapply Hchild, run_sql_step_appends, Heq.
Qed.

Lemma execute_images sources commands :
  forall st, exists more,
    images (fst (execute sources commands st)) = images st ++ more.
Proof.
  induction commands as [|c rest IH]; intros st; simpl.
  - exists []. now rewrite app_nil_r.
  - destruct (step sources c st) as [e|st'] eqn:Hs; simpl.
    + exists []. now rewrite app_nil_r.
    + destruct (step_images _ _ _ _ Hs) as [m1 H1].
      destruct (IH st') as [m2 H2]. rewrite H2, H1.
      exists (m1 ++ m2). now rewrite app_assoc.
Qed.

(** Replaying a run from what it left.  When the run succeeded the store
    may have grown in the meantime; when it failed at some step the store is
    the one it left, so that the failing step meets the state it met. *)
Lemma execute_replay sources commands :
  forall st ext objs,
    let first := execute sources commands st in
    (snd first = None \/ (ext = [] /\ objs = objects (fst first))) ->
    execute sources commands (rewound (fst first) ext objs (HEAD st))
    = (rewound (fst first) ext objs (HEAD (fst first)), snd first).
Proof.
  induction commands as [|c rest IH]; intros st ext objs; simpl.
  - reflexivity.
  - destruct (step sources c st) as [e|st'] eqn:Hs; simpl.
    + intros [Hnone|[-> ->]]; [discriminate|].
      unfold rewound. rewrite app_nil_r.
      destruct st as [imgs os h]. simpl in *. now rewrite Hs.
    + intros Hcase.
      destruct (execute_images sources rest st') as [more Hmore].
      pose proof (step_replay _ _ _ _ Hs (more ++ ext) objs) as Hre.
      unfold rewound in *. rewrite Hmore, <- app_assoc, Hre.
      specialize (IH st' ext objs Hcase).
      rewrite Hmore, <- app_assoc in IH. exact IH.
Qed.

(** C1. Executing a build script a second time, from the store the first
    execution left and with the output HEAD back where the first execution
    started, over the same source images, ends in the store of the first
    execution: the same images, no more and no fewer, the same objects, the
    same HEAD and the same outcome. *)
Theorem rerun_creates_no_images sources commands st :
  let first := execute sources commands st in
  let second := execute sources commands (set_head (fst first) (HEAD st)) in
  images (fst second) = images (fst first)
  /\ objects (fst second) = objects (fst first)
  /\ second = first.
Proof.
  intros first second.
  assert (Hsecond : second = first).
  { pose proof (execute_replay sources commands st [] (objects (fst first))) as Hre.
    simpl in Hre. unfold rewound in Hre. rewrite app_nil_r in Hre.
    subst second. unfold set_head. fold first in Hre. rewrite Hre by auto.
    destruct first as [[imgs os h] r]. reflexivity. }
  now rewrite Hsecond.
Qed.
End BuildFacts.

Section ScenarioFacts.
Import Core ScenarioA.
Context `{Digest}.

Lemma find_image_here i l h :
  image_hash i = h -> find_image (i :: l) h = Some i.
Proof. intros <-. unfold find_image. simpl. now rewrite String.eqb_refl. Qed.

Lemma find_image_later i l h :
  image_hash i <> h -> find_image (i :: l) h = find_image l h.
Proof.
  intros Hne. unfold find_image. simpl.
  now apply String.eqb_neq in Hne as ->.
Qed.

Lemma find_object_here o l id :
  object_id o = id -> find_object (o :: l) id = Some o.
Proof. intros <-. unfold find_object. simpl. now rewrite String.eqb_refl. Qed.

Lemma find_object_later o l id :
  object_id o <> id -> find_object (o :: l) id = find_object l id.
Proof.
  intros Hne. unfold find_object. simpl.
  now apply String.eqb_neq in Hne as ->.
Qed.

Lemma first_rows_value :
  first_rows
  = inr [("my_fruits",
          {| wt_schema := fruit_schema; wt_rows := [pineapple];
             wt_tracked := true; wt_pending := [([VInt 1], Inserted)] |})].
Proof. reflexivity. Qed.

Local Arguments find_image : simpl never.
Local Arguments find_object : simpl never.

Lemma first_commit ws :
  first_rows = inr ws ->
  commit empty_store ws [] "first" = inr (store_1, clean [pineapple]).
Proof. rewrite first_rows_value. intros Heq. inversion Heq. reflexivity. Qed.

Lemma second_commit ws :
  image_hash commit_1 <> root_hash ->
  object_1 <> object_2 ->
  exec_dml (InsertRow "my_fruits" banana) (clean [pineapple]) = inr ws ->
  commit store_1 ws [] "second" = inr (store_2, clean [pineapple; banana]).
Proof.
  intros Hh Ho Hws. vm_compute in Hws. inversion Hws; subst ws.
  unfold commit, store_1. simpl.
  rewrite find_image_later by (intros E; apply Hh; symmetry; exact E).
  rewrite find_image_here by reflexivity.
  simpl. unfold store_object. simpl.
  rewrite find_object_later by exact Ho.
  reflexivity.
Qed.

Lemma history_value :
  image_hash commit_1 <> root_hash ->
  object_1 <> object_2 ->
  history = inr store_2.
Proof.
  intros Hh Ho. unfold history.
  rewrite first_rows_value. unfold bind_err at 1.
  rewrite (first_commit _ first_rows_value). unfold bind_err at 1.
  cbn [snd fst].
  destruct (exec_dml (InsertRow "my_fruits" banana) (clean [pineapple]))
    as [e|ws] eqn:Hws; [vm_compute in Hws; discriminate|].
  unfold bind_err at 1.
  now rewrite (second_commit ws Hh Ho Hws).
Qed.

(** C2. Provided the digests of the two objects differ and the hashes of the
    two commits differ from each other and from the all-zero hash: creating
    and tracking the table with the row (1, pineapple), committing, adding
    (2, banana) and committing again leaves a repository of exactly three
    images, the empty root and the two commits, which are also the log of
    HEAD, newest first; checking them out from the root onwards shows the
    table with no rows, with (1, pineapple), and with (1, pineapple),
    (2, banana). *)
Theorem scenario_A_two_commits :
  object_1 <> object_2 ->
  image_hash commit_1 <> root_hash ->
  image_hash commit_2 <> root_hash ->
  image_hash commit_2 <> image_hash commit_1 ->
  exists st,
    history = inr st
    /\ images st = [root_image; commit_1; commit_2]
    /\ log st (HEAD st) = [commit_2; commit_1; root_image]
    /\ map (shown st) (map image_hash (images st))
       = [inr []; inr [pineapple]; inr [pineapple; banana]].
Proof.
  intros Ho H1 H2 H21. exists store_2.
  assert (Hroot : find_image (images store_2) root_hash = Some root_image)
    by reflexivity.
  assert (Hc1 : find_image (images store_2) (image_hash commit_1) = Some commit_1).
  { simpl. rewrite find_image_later by (intros E; apply H1; symmetry; exact E).
    now apply find_image_here. }
  assert (Hc2 : find_image (images store_2) (image_hash commit_2) = Some commit_2).
  { simpl. rewrite find_image_later by (intros E; apply H2; symmetry; exact E).
    rewrite find_image_later by (intros E; apply H21; symmetry; exact E).
    now apply find_image_here. }
  assert (Ho1 : find_object (objects store_2) object_1
                = Some (freeze [([VInt 1], Upsert pineapple)] ["fruit_id"]))
    by (now apply find_object_here).
  assert (Ho2 : find_object (objects store_2) object_2
                = Some (freeze [([VInt 2], Upsert banana)] ["fruit_id"])).
  { simpl. rewrite find_object_later by exact Ho. now apply find_object_here. }
  split; [now apply history_value|]. split; [reflexivity|]. split.
  - unfold log. simpl length. cbn [log_from HEAD store_2].
    fold store_2. rewrite Hc2. cbn [parent_id commit_2].
    rewrite Hc1. cbn [parent_id commit_1]. rewrite Hroot. reflexivity.
  - cbn [map images store_2]. fold store_2.
    unfold shown, checkout. change (image_hash root_image) with root_hash.
    rewrite Hroot, Hc1, Hc2.
    cbn [tables root_image commit_1 commit_2 tables_1 tables_2 checkout_tables
         materialize te_objects te_schema apply_objects].
    rewrite Ho1. cbn [apply_objects]. rewrite Ho2.
    reflexivity.
Qed.
End ScenarioFacts.

Lemma scenario_A_two_commits_witness :
  exists st,
    ScenarioA.history (H := Plain.plain_digest) = inr st
    /\ length (Core.images st) = 3%nat.
Proof.
  destruct (scenario_A_two_commits (H := Plain.plain_digest))
    as (st & Hst & Himgs & _); try (vm_compute; discriminate).
  exists st. split; [exact Hst|]. now rewrite Himgs.
Defined.

(** ** The build engine: imports *)
Section ImportFacts.
Import Core CoreStatements.
Context `{Digest} `{Adapter}.

Lemma assoc_set_same {V} k (v : V) l : assoc k (assoc_set k v l) = Some v.
Proof.
  induction l as [|[k' v'] l IH]; simpl.
  - now rewrite String.eqb_refl.
  - destruct (String.eqb k' k) eqn:E; simpl.
    + now rewrite String.eqb_refl.
    + now rewrite E.
Qed.

Lemma assoc_set_other {V} k k' (v : V) l :
  k <> k' -> assoc k' (assoc_set k v l) = assoc k' l.
Proof.
  intros Hne. induction l as [|[k0 v0] l IH]; simpl.
  - now apply String.eqb_neq in Hne as ->.
  - destruct (String.eqb k0 k) eqn:E; simpl.
    + apply String.eqb_eq in E as ->.
      now apply String.eqb_neq in Hne as ->.
    + now rewrite IH.
Qed.

Lemma store_object_cases o objs :
  (find_object objs (object_id o) = None /\ store_object o objs = objs ++ [o])
  \/ (is_Some (find_object objs (object_id o)) /\ store_object o objs = objs).
Proof.
  unfold store_object. destruct (find_object objs (object_id o)); eauto.
Qed.

Lemma find_object_elem objs id o :
  find_object objs id = Some o -> o ∈ objs /\ object_id o = id.
Proof.
  unfold find_object. intros Hf. apply find_some in Hf as [Hin Heq].
  split; [now apply list_elem_of_In | now apply String.eqb_eq].
Qed.

Lemma store_object_stored o objs :
  exists o', find_object (store_object o objs) (object_id o) = Some o'.
Proof.
  destruct (store_object_cases o objs) as [[Hn ->]|[[o' Ho'] ->]]; [|eauto].
  exists o. unfold find_object in *. rewrite find_app_r by assumption.
  simpl. now rewrite String.eqb_refl.
Qed.

Lemma import_one_imported objs simg it objs' te :
  import_one objs simg it = inr (objs', te) -> imported objs simg it objs' te.
Proof.
  unfold import_one. destruct (item_is_query it) eqn:Hq.
  - destruct (checkout_tables objs (tables simg)) as [|ws] eqn:Hws; [discriminate|].
    destruct (run_query (item_source it) ws) as [|[sch rows]] eqn:Hrun;
      [discriminate|].
    intros Heq. inversion Heq; subst.
    exact (imported_query objs simg it ws sch rows Hq Hws Hrun).
  - destruct (assoc (item_source it) (tables simg)) eqn:Ha; [|discriminate].
    intros Heq. inversion Heq; subst. now apply imported_verbatim.
Qed.

Lemma imported_grows objs simg it objs' te :
  imported objs simg it objs' te ->
  exists new, objs' = objs ++ new
              /\ (length new <= if item_is_query it then 1 else 0)%nat.
Proof.
  intros [te' Hq _|ws sch rows Hq _ _ o]; rewrite Hq.
  - exists []. now rewrite app_nil_r.
  - destruct (store_object_cases o objs) as [[_ ->]|[_ ->]].
    + exists [o]. auto.
    + exists []. rewrite app_nil_r. simpl. auto.
Qed.

Lemma queries_none items :
  (forall it, it ∈ items -> item_is_query it = false) -> queries items = O.
Proof.
  unfold queries. induction items as [|it rest IH]; intros Hall; [reflexivity|].
  rewrite filter_cons, (Hall it) by left. simpl.
  apply IH. intros it' Hin. apply Hall. now right.
Qed.

Lemma import_items_spec simg items :
  forall objs tbls objs' tbls',
    import_items objs simg items tbls = inr (objs', tbls') ->
    (exists new, objs' = objs ++ new /\ (length new <= queries items)%nat)
    /\ (forall pre it post, items = pre ++ it :: post ->
          exists mid mid' tail te,
            imported (objs ++ mid) simg it (objs ++ mid') te
            /\ objs' = (objs ++ mid') ++ tail
            /\ (item_alias it ∉ map item_alias post ->
                assoc (item_alias it) tbls' = Some te))
    /\ (forall t, t ∉ map item_alias items -> assoc t tbls' = assoc t tbls).
Proof.
  induction items as [|it rest IH]; intros objs tbls objs' tbls' Hrun.
  - inversion Hrun; subst. split; [|split].
    + exists []. now rewrite app_nil_r.
    + intros [|? ?] it post Heq; discriminate Heq.
    + reflexivity.
  - simpl in Hrun.
    destruct (import_one objs simg it) as [|[objs1 te]] eqn:Hone; [discriminate|].
    apply import_one_imported in Hone. simpl in Hrun.
    destruct (IH _ _ _ _ Hrun) as ((new2 & -> & Hlen2) & Hitems & Hother).
    destruct (imported_grows _ _ _ _ _ Hone) as (new1 & -> & Hlen1).
    split; [|split].
    + exists (new1 ++ new2). rewrite app_assoc. split; [reflexivity|].
      rewrite length_app. unfold queries in *. rewrite filter_cons.
      destruct (item_is_query it); simpl; lia.
    + intros [|it0 pre] it' post Heq; injection Heq as <- Hrest.
      * subst post. exists [], new1, new2, te. rewrite app_nil_r.
        split; [exact Hone|]. split; [reflexivity|].
        intros Hlast. rewrite Hother by exact Hlast.
        apply assoc_set_same.
      * destruct (Hitems pre it' post Hrest)
          as (mid & mid' & tail & te' & Himp & Hobjs & Hassoc).
        exists (new1 ++ mid), (new1 ++ mid'), tail, te'.
        rewrite !app_assoc. auto.
    + intros t Ht. simpl in Ht. rewrite not_elem_of_cons in Ht.
      destruct Ht as [Hne Ht]. rewrite (Hother t Ht).
      apply assoc_set_other. congruence.
Qed.

End ImportFacts.

Section DedupFacts.
Import Core Dedup CoreStatements.

Lemma star_import_runs :
  exists st',
    step (H := Plain.plain_digest) (H0 := star_adapter)
         [source_repo] star_import output_store = inr st'
    /\ objects st' = objects output_store
    /\ length (objects st') = 1%nat.
Proof. eexists. split; [vm_compute; reflexivity|]. split; reflexivity. Qed.


(** The script run once leaves four images (the root and one per step);
    run again from the root it leaves the same four. *)
Example script_cached :
  let first := fst (execute (H := Plain.plain_digest) (H0 := star_adapter)
                      [source_repo] script output_store) in
  let second := fst (execute (H := Plain.plain_digest) (H0 := star_adapter)
                       [source_repo] script (set_head first root_hash)) in
  length (images first) = 4%nat /\ images second = images first.
Proof. vm_compute. split; reflexivity. Qed.

(** After the script the table imported through the filtering query rests
    on objects that the source does not have, the table imported as it is on
    the source's own object, and a checkout shows the expected rows. *)
Example script_objects :
  let st := fst (execute (H := Plain.plain_digest) (H0 := star_adapter)
                   [source_repo] script output_store) in
  Forall (fun o => o ∉ map object_id source_objects) (head_objects st "my_fruits")
  /\ head_objects st "fruits" = map object_id source_objects
  /\ exists ws, checkout st (HEAD st) = inr ws
                /\ rows_of ws "my_fruits" = [orange; [VInt 3; VText "mayonnaise"]]
                /\ rows_of ws "fruits" = [apple; orange].
Proof.
  split; [|split].
  - vm_compute. repeat constructor; intros Hin;
      repeat (apply elem_of_cons in Hin as [Hin|Hin]; [discriminate|]);
      inversion Hin.
  - vm_compute. reflexivity.
  - eexists. split; [vm_compute; reflexivity|]. split; reflexivity.
Qed.
End DedupFacts.


(** ** Statement composition *)
Import PySql.

Lemma str_app_nil_r (s : string) : s +:+ EmptyString = s.
Proof.
  induction s as [|c s IH]; [reflexivity|].
  change (String c (s +:+ EmptyString) = String c s). now rewrite IH.
Qed.

Lemma str_app_assoc (s1 s2 s3 : string) : (s1 +:+ s2) +:+ s3 = s1 +:+ s2 +:+ s3.
Proof.
  induction s1 as [|c s1 IH]; [reflexivity|].
  change (String c ((s1 +:+ s2) +:+ s3) = String c (s1 +:+ s2 +:+ s3)).
  now rewrite IH.
Qed.

Lemma str_app_nil_l (s : string) : EmptyString +:+ s = s.
Proof. reflexivity. Qed.

Lemma str_app_cons (c : ascii) (s1 s2 : string) :
  String c s1 +:+ s2 = String c (s1 +:+ s2).
Proof. reflexivity. Qed.

Ltac str_norm :=
  repeat (rewrite str_app_assoc || rewrite str_app_nil_r
          || rewrite str_app_nil_l).

Lemma snoc_char_app (lit : string) (c : ascii) (t : string) :
  snoc_char lit c +:+ t = lit +:+ String c t.
Proof. unfold snoc_char. now rewrite str_app_assoc. Qed.

Lemma as_string_Composed_cons (x : Composable) (r : list Composable) :
  as_string (Composed (x :: r)) = as_string x +:+ as_string (Composed r).
Proof. reflexivity. Qed.

Lemma as_string_Composed_app (l1 l2 : list Composable) :
  as_string (Composed (l1 ++ l2))
  = as_string (Composed l1) +:+ as_string (Composed l2).
Proof.
  induction l1 as [|x l1 IH]; [reflexivity|].
  rewrite <- app_comm_cons, !as_string_Composed_cons, IH.
  now rewrite str_app_assoc.
Qed.

Lemma as_string_parts_of (c : Composable) :
  as_string (Composed (parts_of c)) = as_string c.
Proof.
  destruct c; try reflexivity;
    cbn [parts_of]; rewrite as_string_Composed_cons; apply str_app_nil_r.
Qed.

Lemma as_string_add (a b : Composable) :
  as_string (add a b) = as_string a +:+ as_string b.
Proof.
  unfold add. now rewrite as_string_Composed_app, !as_string_parts_of.
Qed.

Lemma as_string_join (sep : Composable) (items : list Composable) :
  as_string (join sep items) = str_join (as_string sep) (map as_string items).
Proof.
  unfold join. induction items as [|x [|y r] IH]; [reflexivity| |].
  - cbn [join_items map str_join]. rewrite as_string_Composed_cons.
    apply str_app_nil_r.
  - cbn [join_items map str_join] in *.
    now rewrite !as_string_Composed_cons, IH.
Qed.

Lemma as_string_emit_lit (lit : string) (out : list Composable) :
  as_string (Composed (emit_lit lit out)) = as_string (Composed out) +:+ lit.
Proof.
  destruct lit as [|c lit]; cbn [emit_lit].
  - now rewrite str_app_nil_r.
  - rewrite as_string_Composed_app, as_string_Composed_cons.
    cbn [as_string]. now rewrite !str_app_nil_r.
Qed.

Lemma no_braces_app (s t : string) :
  no_braces (s +:+ t) = no_braces s && no_braces t.
Proof.
  induction s as [|c s IH]; [reflexivity|].
  rewrite str_app_cons. cbn [no_braces]. rewrite IH. now rewrite andb_assoc.
Qed.

(** Literal text is copied to the current piece. *)
Lemma format_scan_text (args : list Composable) (t : string) :
  no_braces t = true ->
  forall lit f rest,
    format_scan args (FText lit) f (t +:+ rest)
    = format_scan args (FText (lit +:+ t)) f rest.
Proof.
  induction t as [|c t IH]; intros Ht lit f rest.
  - now rewrite str_app_nil_r.
  - cbn [no_braces] in Ht.
    apply andb_prop in Ht as [Hc Ht]. apply andb_prop in Hc as [Ho Hc].
    rewrite str_app_cons. cbn [format_scan].
    apply negb_true_iff in Ho, Hc. rewrite Ho, Hc.
    rewrite IH by assumption. now rewrite snoc_char_app.
Qed.

Lemma format_scan_end (args : list Composable) (t lit : string) (f : fmt) :
  no_braces t = true ->
  format_scan args (FText lit) f t = inr (emit_lit (lit +:+ t) (fmt_out f)).
Proof.
  intros Ht. pose proof (format_scan_text args t Ht lit f EmptyString) as E.
  rewrite str_app_nil_r in E. rewrite E. reflexivity.
Qed.

(** An empty field takes the next positional argument. *)
Lemma format_scan_field (args : list Composable) (lit : string)
    (out : list Composable) (n : nat) (a : Composable) (rest : string) :
  args !! n = Some a ->
  format_scan args (FText lit) {| fmt_out := out; fmt_autonum := Some n |}
    ("{}" +:+ rest)
  = format_scan args (FText EmptyString)
      {| fmt_out := emit_lit lit out ++ [a]; fmt_autonum := Some (S n) |} rest.
Proof.
  intros Ha. change ("{}" +:+ rest) with (String "{" (String "}" rest)).
  cbn [format_scan Ascii.eqb Bool.eqb fmt_out fmt_autonum].
  unfold take_field, py_index. cbn [has_char split_at fmt_autonum fmt_out].
  now rewrite Ha.
Qed.

(** The templates that the sources assemble with [join]: one field per
    item, each followed by text of its own.  The pieces render to the items
    with their text, separated alike. *)
Lemma format_scan_joined (sep : string) (items : list (Composable * string)) :
  no_braces sep = true ->
  Forall (fun it => no_braces (snd it) = true) items ->
  forall pre lit out tail,
    no_braces tail = true ->
    exists pieces,
      format_scan (pre ++ map fst items) (FText lit)
        {| fmt_out := out; fmt_autonum := Some (length pre) |}
        (str_join sep (map (fun it => "{}" +:+ snd it) items) +:+ tail)
      = inr pieces
      /\ as_string (Composed pieces)
         = as_string (Composed out) +:+ lit
           +:+ str_join sep (map (fun it => as_string (fst it) +:+ snd it) items)
           +:+ tail.
Proof.
  intros Hsep Hitems. induction Hitems as [|[a l] items Hl Hitems IH];
    intros pre lit out tail Htail.
  - cbn [map str_join]. change (EmptyString +:+ tail) with tail.
    rewrite format_scan_end by assumption.
    cbn [fmt_out]. eexists. split; [reflexivity|].
    rewrite as_string_emit_lit. str_norm. reflexivity.
  - cbn [snd] in Hl. destruct items as [|it' items'].
    + cbn [map str_join fst snd]. rewrite !str_app_assoc.
      rewrite format_scan_field with (a := a); cycle 1.
      { rewrite lookup_app_r by lia. now rewrite Nat.sub_diag. }
      rewrite format_scan_end
        by (rewrite no_braces_app, Hl, Htail; reflexivity).
      cbn [fmt_out]. eexists. split; [reflexivity|].
      rewrite as_string_emit_lit, as_string_Composed_app, as_string_emit_lit.
      rewrite as_string_Composed_cons.
      change (as_string (Composed [])) with EmptyString.
      str_norm. reflexivity.
    + remember (it' :: items') as rest eqn:Hrest.
      assert (Hjoin : forall (f : Composable * string -> string),
                 str_join sep (map f ((a, l) :: rest))
                 = f (a, l) +:+ sep +:+ str_join sep (map f rest)).
      { intros f. subst rest. reflexivity. }
      rewrite !Hjoin. cbn [fst snd]. rewrite !str_app_assoc.
      rewrite format_scan_field with (a := a); cycle 1.
      { rewrite lookup_app_r by lia. now rewrite Nat.sub_diag. }
      rewrite <- (str_app_assoc l sep).
      rewrite (format_scan_text _ (l +:+ sep))
        by (rewrite no_braces_app, Hl, Hsep; reflexivity).
      specialize (IH (pre ++ [a]) (EmptyString +:+ l +:+ sep)
                    (emit_lit lit out ++ [a]) tail Htail).
      rewrite length_app, Nat.add_1_r in IH. cbn [map] in IH |- *.
      rewrite <- List.app_assoc in IH. cbn [app] in IH.
      destruct IH as (pieces & Hscan & Hstr).
      exists pieces. split; [exact Hscan|].
      rewrite Hstr, as_string_Composed_app, as_string_emit_lit.
      rewrite as_string_Composed_cons.
      change (as_string (Composed [])) with EmptyString.
      str_norm. reflexivity.
Qed.


(** ** The Singer changeset *)
Section SingerFacts.
Import Types Singer Statements.
Context `{ExprEval} `{SqlEngine}.

Lemma py_init_snoc {A} (k : list A) (x : A) : py_init (k ++ [x]) = k.
Proof.
  unfold py_init. rewrite length_app. simpl.
  replace (length k + 1 - 1)%nat with (length k) by lia.
  apply take_app_length.
Qed.

Lemma py_last_snoc {A} (k : list A) (x : A) :
  py_last (k ++ [x]) = inr x.
Proof. unfold py_last. now rewrite last_snoc. Qed.

(** The dictionary comprehension is a left fold of insertions. *)
Lemma changeset_of_rows_fold {R} (kf : R -> list sqlval) (vf : R -> sqlval)
    (rs : list R) (acc : Changeset) :
  changeset_of_rows acc (map (fun r => kf r ++ [vf r]) rs)
  = inr (foldl (fun m r => <[kf r := (vf r, ∅, ∅)]> m) acc rs).
Proof.
  revert acc; induction rs as [|r rs IH]; intros acc; [reflexivity|].
  simpl. rewrite py_last_snoc, py_init_snoc. apply IH.
Qed.

Lemma fold_insert_lookup {R} (kf : R -> list sqlval) (vf : R -> sqlval)
    (rs : list R) (acc : Changeset) k v :
  foldl (fun m r => <[kf r := (vf r, ∅, ∅)]> m) acc rs !! k = Some v ->
  acc !! k = Some v \/ exists r, r ∈ rs /\ kf r = k /\ v = (vf r, ∅, ∅).
Proof.
  revert acc; induction rs as [|r rs IH]; intros acc; simpl; [auto|].
  intros Hk. apply IH in Hk as [Hk|(r' & Hin & Hkey & Hv)].
  - destruct (decide (kf r = k)) as [<-|Hne].
    + rewrite lookup_insert_eq in Hk. inversion Hk; subst.
      right. exists r. split; [left | auto].
    + rewrite lookup_insert_ne in Hk by assumption. auto.
  - right. exists r'. split; [now right | auto].
Qed.

Lemma fold_insert_dom {R} (kf : R -> list sqlval) (vf : R -> sqlval)
    (rs : list R) (acc : Changeset) :
  dom (foldl (fun m r => <[kf r := (vf r, ∅, ∅)]> m) acc rs)
  = dom acc ∪ list_to_set (map kf rs).
Proof.
  revert acc; induction rs as [|r rs IH]; intros acc; simpl.
  - now rewrite union_empty_r_L.
  - rewrite IH, dom_insert_L.
    now rewrite (union_comm_L {[kf r]} (dom acc)), <- union_assoc_L.
Qed.

Lemma column_index_found c cols :
  c ∈ cols -> exists i, column_index c cols = Some i.
Proof.
  induction cols as [|c' cols IH]; intros Hin; [inversion Hin|].
  simpl. destruct (String.eqb c c') eqn:E; [eauto|].
  apply elem_of_cons in Hin as [->|Hin].
  - rewrite String.eqb_refl in E. discriminate.
  - destruct (IH Hin) as [i ->]. simpl. eauto.
Qed.

Lemma project_columns rel_cols cols :
  (forall c, c ∈ cols -> c ∈ rel_cols) ->
  exists idx, mapM (fun c => column_index c rel_cols) cols = Some idx
              /\ forall r, project idx r = map (column_value rel_cols r) cols.
Proof.
  induction cols as [|c cols IH]; intros Hall.
  - exists []. split; reflexivity.
  - destruct (column_index_found c rel_cols) as [i Hi]; [apply Hall; left|].
    destruct IH as (idx & Hidx & Hproj); [intros; apply Hall; now right|].
    exists (i :: idx). split.
    + simpl. rewrite Hi. simpl. rewrite Hidx. reflexivity.
    + intros r. simpl. rewrite Hproj. unfold column_value at 2. now rewrite Hi.
Qed.

Lemma get_change_key_nonempty schema_spec :
  schema_spec <> [] -> map fst (get_change_key schema_spec) <> [].
Proof.
  unfold get_change_key. intros Hne.
  match goal with
  | |- context [match ?pk with [] => _ | _ => _ end] => destruct pk eqn:E
  end.
  - destruct schema_spec; [contradiction | simpl; congruence].
  - simpl; congruence.
Qed.

(** The FROM clause: a condition without braces is copied as it is. *)
Lemma format_from_clause (condition schema table : string) :
  no_braces condition = true ->
  exists q,
    format (condition +:+ " AS upserted FROM {}.{} n")
      [Identifier schema; Identifier table] = inr q
    /\ as_string q
       = condition +:+ " AS upserted FROM " +:+ quote_ident schema +:+ "."
         +:+ quote_ident table +:+ " n".
Proof.
  intros Hcond. unfold format.
  replace (condition +:+ " AS upserted FROM {}.{} n")
    with ((condition +:+ " AS upserted FROM ") +:+ "{}" +:+ "." +:+ "{}"
          +:+ " n")
    by (rewrite str_app_assoc; reflexivity).
  rewrite (format_scan_text _ (condition +:+ " AS upserted FROM "))
    by (rewrite no_braces_app, Hcond; reflexivity).
  rewrite format_scan_field with (a := Identifier schema) by reflexivity.
  rewrite (format_scan_text _ ".") by reflexivity.
  rewrite format_scan_field with (a := Identifier table) by reflexivity.
  rewrite format_scan_end by reflexivity.
  eexists. split; [reflexivity|]. cbn [fmt_out].
  rewrite as_string_emit_lit, as_string_Composed_app, as_string_emit_lit,
    as_string_Composed_app, as_string_emit_lit.
  rewrite !as_string_Composed_cons.
  change (as_string (Composed [])) with EmptyString.
  cbn [as_string]. str_norm. reflexivity.
Qed.

(** The statement sent is the SELECT over the change-key columns. *)
Lemma make_changeset_query (cols : list string) (from_clause : Composable) :
  as_string
    (add (add (add (SQL "SELECT ")
                   (join (SQL ",")
                         (map (fun c => add (SQL "n.") (Identifier c)) cols)))
              (SQL ","))
         from_clause)
  = "SELECT " +:+ str_join "," (map (fun c => "n." +:+ quote_ident c) cols)
    +:+ "," +:+ as_string from_clause.
Proof.
  rewrite !as_string_add, as_string_join, map_map. cbn [as_string].
  rewrite (map_ext (fun c => as_string (add (SQL "n.") (Identifier c)))
                   (fun c => "n." +:+ quote_ident c))
    by (intros c; now rewrite as_string_add).
  str_norm. reflexivity.
Qed.


(** A condition with a replacement field of its own leaves [format] one
    argument short: the function raises before the engine is asked. *)
Example make_changeset_condition_with_field (engine : Tables) schema table
    schema_spec :
  _make_changeset engine schema table schema_spec "n.name <> '{}'"
  = inl (IndexError "tuple index out of range").
Proof. reflexivity. Qed.

End SingerFacts.


(** ** Dictionaries *)
Section DictFacts.
Import Py.
Context {V : Type}.

Lemma dict_get_set_eq (k : string) (v : V) (d : Dict V) :
  dict_get k (dict_set k v d) = Some v.
Proof.
  induction d as [|[k' v'] d IH]; cbn [dict_set dict_get].
  - now rewrite String.eqb_refl.
  - destruct (String.eqb k k') eqn:Hk; cbn [dict_get]; rewrite Hk;
      [reflexivity|exact IH].
Qed.

Lemma dict_get_set_ne (k k' : string) (v : V) (d : Dict V) :
  k <> k' -> dict_get k (dict_set k' v d) = dict_get k d.
Proof.
  intros Hne. induction d as [|[k0 v0] d IH]; cbn [dict_set dict_get].
  - apply String.eqb_neq in Hne. now rewrite Hne.
  - destruct (String.eqb k' k0) eqn:Hk'; cbn [dict_get].
    + apply String.eqb_eq in Hk'. subst k0.
      apply String.eqb_neq in Hne. now rewrite Hne.
    + destruct (String.eqb k k0); [reflexivity|exact IH].
Qed.

Lemma dict_get_None (k : string) (d : Dict V) :
  dict_get k d = None <-> ~ In k (dict_keys d).
Proof.
  induction d as [|[k' v'] d IH]; cbn [dict_get dict_keys map fst In].
  - tauto.
  - destruct (String.eqb k k') eqn:Hk.
    + apply String.eqb_eq in Hk. subst k'. split; [discriminate|tauto].
    + apply String.eqb_neq in Hk. rewrite IH. unfold dict_keys.
      split; [intros Hn [Heq|Hin]; [congruence|tauto]|tauto].
Qed.

Lemma dict_keys_set (k : string) (v : V) (d : Dict V) :
  forall k', In k' (dict_keys (dict_set k v d)) <-> k' = k \/ In k' (dict_keys d).
Proof.
  intros k'. induction d as [|[k0 v0] d IH]; cbn [dict_set dict_keys map fst In].
  - intuition congruence.
  - destruct (String.eqb k k0) eqn:Hk; cbn [map fst In].
    + apply String.eqb_eq in Hk. subst k0. unfold dict_keys. intuition congruence.
    + unfold dict_keys in IH. rewrite IH. unfold dict_keys. tauto.
Qed.

(** With distinct keys in [items], an entry of [items] wins over the entry
    of [d] for the same key. *)
Lemma dict_get_update (k : string) (items : list (string * V)) :
  NoDup (dict_keys items) ->
  forall d,
    dict_get k (dict_update d items)
    = match dict_get k items with
      | Some v => Some v
      | None => dict_get k d
      end.
Proof.
  unfold dict_update.
  induction items as [|[k1 v1] items IH]; intros Hnd d; [reflexivity|].
  cbn [dict_keys map fst] in Hnd. apply NoDup_cons in Hnd as [Hk1 Hnd].
  cbn [fold_left fst snd dict_get]. rewrite (IH Hnd).
  destruct (String.eqb k k1) eqn:Hk.
  - apply String.eqb_eq in Hk. subst k1.
    assert (Hnone : dict_get k items = None).
    { apply dict_get_None. intros Hin. apply Hk1. unfold dict_keys in Hin.
      now apply list_elem_of_In. }
    rewrite Hnone. apply dict_get_set_eq.
  - apply String.eqb_neq in Hk.
    destruct (dict_get k items); [reflexivity|].
    now apply dict_get_set_ne.
Qed.

End DictFacts.

Lemma dict_get_map {V W} (f : V -> W) (k : string) (d : Py.Dict V) :
  Py.dict_get k (map (fun kv => (fst kv, f (snd kv))) d)
  = f <$> Py.dict_get k d.
Proof.
  induction d as [|[k' v'] d IH]; [reflexivity|].
  cbn [map Py.dict_get fst snd]. destruct (String.eqb k k'); [reflexivity|exact IH].
Qed.

(** ** Foreign tables and servers *)
Section FdwFacts.
Import Types PySql Py Postgres Fdw FdwStatements.

Lemma format_joined (sep : string) (items : list (Composable * string)) :
  no_braces sep = true ->
  Forall (fun it => no_braces (snd it) = true) items ->
  exists c,
    format (str_join sep (map (fun it => "{}" +:+ snd it) items))
      (map fst items) = inr c
    /\ as_string c
       = str_join sep (map (fun it => as_string (fst it) +:+ snd it) items).
Proof.
  intros Hsep Hitems.
  destruct (format_scan_joined sep items Hsep Hitems [] EmptyString []
              EmptyString eq_refl) as (pieces & Hscan & Hstr).
  rewrite str_app_nil_r in Hscan. cbn [app length] in Hscan.
  exists (Composed pieces). unfold format. rewrite Hscan. split; [reflexivity|].
  rewrite Hstr. change (as_string (Composed [])) with EmptyString.
  now rewrite !str_app_nil_l, str_app_nil_r.
Qed.

Lemma Exn_bind_inr {A B} (a : A) (k : A -> Exn + B) : (inr a ≫= k) = k a.
Proof. reflexivity. Qed.

(** The column list of CREATE FOREIGN TABLE. *)
Lemma format_columns (schema_spec : TableSchema) :
  Forall (fun col => no_braces (pg_type col) = true) schema_spec ->
  exists c,
    format (str_join ","
              (map (fun col => "{} " +:+ pg_type col +:+ " ") schema_spec))
      (map (fun col => Identifier (name col)) schema_spec) = inr c
    /\ as_string c = column_defs schema_spec.
Proof.
  intros Htypes.
  destruct (format_joined ","
              (map (fun col => (Identifier (name col),
                                " " +:+ pg_type col +:+ " ")) schema_spec)
              eq_refl) as (c & Hc & Hstr).
  { apply Forall_map. eapply Forall_impl; [exact Htypes|].
    intros col Hcol. cbn [snd]. rewrite !no_braces_app, Hcol. reflexivity. }
  repeat rewrite map_map in Hc. repeat rewrite map_map in Hstr.
  cbn [fst snd] in Hc, Hstr.
  exists c. split; [exact Hc|exact Hstr].
Qed.

Lemma comment_args_cons (col : TableColumn) (cols : TableSchema) :
  comment_args (col :: cols)
  = match comment_text col with
    | Some text => PStr text :: comment_args cols
    | None => comment_args cols
    end.
Proof.
  unfold comment_args. cbn [omap list_omap].
  destruct (comment_text col); reflexivity.
Qed.

Lemma add_comments_text (schema table_name : string) (cols : TableSchema) :
  forall query args,
    exists q,
      add_comments schema table_name cols query args
      = inr (q, args ++ comment_args cols)
      /\ as_string q
         = as_string query +:+ comment_statements schema table_name cols.
Proof.
  induction cols as [|col cols IH]; intros query args.
  - exists query. cbn [add_comments comment_args omap comment_statements].
    rewrite app_nil_r, str_app_nil_r. split; reflexivity.
  - cbn [add_comments comment_statements]. rewrite comment_args_cons.
    destruct (comment_text col) as [text|] eqn:Hc.
    + change (format "COMMENT ON COLUMN {}.{}.{} IS %s;"
                [Identifier schema; Identifier table_name;
                 Identifier (name col)])
        with (@inr Exn _ (Composed
                [SQL "COMMENT ON COLUMN "; Identifier schema; SQL ".";
                 Identifier table_name; SQL "."; Identifier (name col);
                 SQL " IS %s;"])).
      rewrite Exn_bind_inr.
      destruct (IH (add query (Composed
                [SQL "COMMENT ON COLUMN "; Identifier schema; SQL ".";
                 Identifier table_name; SQL "."; Identifier (name col);
                 SQL " IS %s;"])) (args ++ [PStr text])) as (q & Hq & Hstr).
      exists q. rewrite Hq. split.
      * now rewrite <- List.app_assoc.
      * rewrite Hstr, as_string_add. unfold comment_statement.
        rewrite !as_string_Composed_cons. cbn [as_string].
        str_norm. reflexivity.
    + destruct (IH query args) as (q & Hq & Hstr).
      exists q. rewrite Hq. split; [reflexivity|exact Hstr].
Qed.

Lemma as_string_slots (option_names : list string) :
  str_join ","
    (map as_string
       (map (fun o => add (Identifier o) (SQL " %s")) option_names))
  = option_slots option_names.
Proof.
  unfold option_slots. rewrite map_map. reflexivity.
Qed.

Lemma create_foreign_table_text (schema server table_name : string)
    (schema_spec : TableSchema) (extra_options : option (Dict pyval)) :
  Forall (fun col => no_braces (pg_type col) = true) schema_spec ->
  exists q,
    create_foreign_table schema server table_name schema_spec extra_options
    = inr (q, dict_values (default [] extra_options) ++ comment_args schema_spec)
    /\ as_string q
       = "CREATE FOREIGN TABLE " +:+ quote_ident schema +:+ "."
         +:+ quote_ident table_name +:+ " (" +:+ column_defs schema_spec
         +:+ ") SERVER " +:+ quote_ident server
         +:+ table_options_clause (default [] extra_options)
         +:+ comment_statements schema table_name schema_spec.
Proof.
  intros Htypes. unfold create_foreign_table.
  change (format "CREATE FOREIGN TABLE {}.{} ("
            [Identifier schema; Identifier table_name])
    with (@inr Exn _ (Composed [SQL "CREATE FOREIGN TABLE "; Identifier schema;
                                SQL "."; Identifier table_name; SQL " ("])).
  rewrite Exn_bind_inr.
  destruct (format_columns schema_spec Htypes) as (cols & Hcols & Hcols_text).
  rewrite Hcols, Exn_bind_inr.
  change (format ") SERVER {}" [Identifier server])
    with (@inr Exn _ (Composed [SQL ") SERVER "; Identifier server])).
  rewrite Exn_bind_inr.
  assert (Hopts : (if dict_truthy extra_options
                   then default [] extra_options else [])
                  = default [] extra_options)
    by (destruct extra_options as [[|? ?]|]; reflexivity).
  rewrite Hopts. clear Hopts.
  set (options := default [] extra_options).
  match goal with
  | |- context [add_comments _ _ _ ?q ?a] => idtac
  | |- exists q, (let '(query, args) := ?p in _) = _ /\ _ =>
      destruct p as [query args] eqn:Hp
  end.
  destruct (add_comments_text schema table_name schema_spec query args)
    as (q & Hq & Hstr).
  exists q. rewrite Hq, Hstr. clear Hq Hstr.
  destruct options as [|o options'] eqn:Ho; inversion Hp; subst query args;
    clear Hp.
  - split; [reflexivity|].
    rewrite !as_string_add, Hcols_text, !as_string_Composed_cons.
    cbn [as_string table_options_clause]. str_norm. reflexivity.
  - split; [reflexivity|].
    rewrite !as_string_add, as_string_join, Hcols_text,
      !as_string_Composed_cons.
    cbn [as_string table_options_clause].
    change (add (Identifier (fst o)) (SQL " %s")
            :: map (fun o0 : string => add (Identifier o0) (SQL " %s"))
                 (dict_keys options'))
      with (map (fun o0 : string => add (Identifier o0) (SQL " %s"))
              (dict_keys (o :: options'))).
    rewrite as_string_slots. str_norm. reflexivity.
Qed.

Lemma has_char_app (c : ascii) (s t : string) :
  has_char c (s +:+ t) = has_char c s || has_char c t.
Proof.
  induction s as [|c' s IH]; [reflexivity|].
  rewrite str_app_cons. cbn [has_char]. rewrite IH. now rewrite orb_assoc.
Qed.

Lemma no_percent_app (s t : string) :
  no_percent (s +:+ t) = no_percent s && no_percent t.
Proof. unfold no_percent. rewrite has_char_app. apply negb_orb. Qed.

Lemma no_percent_quote_ident (s : string) :
  no_percent (quote_ident s) = no_percent s.
Proof.
  unfold no_percent, quote_ident. f_equal.
  change (has_char "%" (double_quotes s +:+ String dquote EmptyString)
          = has_char "%" s).
  rewrite has_char_app. cbn [has_char]. change (Ascii.eqb "%" dquote) with false.
  rewrite !orb_false_r.
  induction s as [|c s IH]; [reflexivity|].
  cbn [double_quotes]. destruct (Ascii.eqb c dquote) eqn:Hc.
  - apply Ascii.eqb_eq in Hc. subst c. cbn [has_char].
    change (Ascii.eqb "%" dquote) with false. now rewrite IH.
  - cbn [has_char]. now rewrite IH.
Qed.

(** Text without a percent sign holds no placeholder. *)
Lemma placeholders_skip (s t : string) :
  no_percent s = true -> placeholders (s +:+ t) = placeholders t.
Proof.
  unfold no_percent. induction s as [|c s IH]; intros Hs; [reflexivity|].
  cbn [has_char] in Hs. apply negb_true_iff, orb_false_elim in Hs as [Hc Hs].
  rewrite str_app_cons. cbn [placeholders].
  rewrite Ascii.eqb_sym, Hc. apply IH. now rewrite Hs.
Qed.

Lemma placeholders_slot (t : string) :
  placeholders (" %s" +:+ t) = S (placeholders t).
Proof. reflexivity. Qed.

Lemma placeholders_option_slots (option_names : list string) (t : string) :
  Forall (fun o => no_percent o = true) option_names ->
  placeholders (option_slots option_names +:+ t)
  = (length option_names + placeholders t)%nat.
Proof.
  unfold option_slots. intros Hnames.
  induction Hnames as [|o names Ho Hnames IH]; [reflexivity|].
  destruct names as [|o' names'].
  - cbn [map str_join length]. str_norm.
    rewrite placeholders_skip by (now rewrite no_percent_quote_ident).
    apply placeholders_slot.
  - remember (o' :: names') as rest eqn:Hrest.
    assert (Hjoin : str_join "," (map (fun o => quote_ident o +:+ " %s")
                                      (o :: rest))
                    = (quote_ident o +:+ " %s") +:+ ","
                      +:+ str_join "," (map (fun o => quote_ident o +:+ " %s")
                                            rest))
      by (subst rest; reflexivity).
    rewrite Hjoin. str_norm.
    rewrite placeholders_skip by (now rewrite no_percent_quote_ident).
    rewrite placeholders_slot.
    rewrite (placeholders_skip ",") by reflexivity. rewrite IH. reflexivity.
Qed.

Lemma no_percent_column_defs (schema_spec : TableSchema) :
  Forall (fun col => no_percent (name col) = true
                     /\ no_percent (pg_type col) = true) schema_spec ->
  no_percent (column_defs schema_spec) = true.
Proof.
  unfold column_defs. intros Hcols.
  induction Hcols as [|col cols [Hn Ht] Hcols IH]; [reflexivity|].
  destruct cols as [|col' cols'].
  - cbn [map str_join]. rewrite !no_percent_app, no_percent_quote_ident, Hn, Ht.
    reflexivity.
  - remember (col' :: cols') as rest eqn:Hrest.
    assert (Hjoin : forall f : TableColumn -> string,
               str_join "," (map f (col :: rest))
               = f col +:+ "," +:+ str_join "," (map f rest))
      by (intros f; subst rest; reflexivity).
    rewrite Hjoin, !no_percent_app, no_percent_quote_ident, Hn, Ht, IH.
    reflexivity.
Qed.

Lemma placeholders_comments (schema table_name : string) (cols : TableSchema) :
  no_percent schema = true -> no_percent table_name = true ->
  Forall (fun col => no_percent (name col) = true) cols ->
  placeholders (comment_statements schema table_name cols)
  = length (comment_args cols).
Proof.
  intros Hs Ht Hcols. induction Hcols as [|col cols Hn Hcols IH]; [reflexivity|].
  cbn [comment_statements]. rewrite comment_args_cons.
  destruct (comment_text col) as [text|]; [|exact IH].
  unfold comment_statement. str_norm.
  rewrite (placeholders_skip "COMMENT ON COLUMN ") by reflexivity.
  rewrite placeholders_skip by (now rewrite no_percent_quote_ident).
  rewrite (placeholders_skip ".") by reflexivity.
  rewrite placeholders_skip by (now rewrite no_percent_quote_ident).
  rewrite (placeholders_skip ".") by reflexivity.
  rewrite placeholders_skip by (now rewrite no_percent_quote_ident).
  change (" IS %s;" +:+ comment_statements schema table_name cols)
    with (" IS" +:+ " %s" +:+ ";" +:+ comment_statements schema table_name cols).
  rewrite (placeholders_skip " IS") by reflexivity.
  rewrite placeholders_slot, (placeholders_skip ";") by reflexivity.
  cbn [length]. now rewrite IH.
Qed.


(** X5 (fdw.py, create_foreign_table): without table options ([None] or an
    empty dictionary) the semicolon that ends CREATE FOREIGN TABLE is not
    written: the COMMENT statements follow the quoted server name directly,
    and the arguments are the non-empty column comments in column order. *)
Theorem create_foreign_table_without_options
    (schema server table_name : string) (schema_spec : TableSchema)
    (extra_options : option (Dict pyval)) :
  Forall (fun col => no_braces (pg_type col) = true) schema_spec ->
  dict_truthy extra_options = false ->
  exists q,
    create_foreign_table schema server table_name schema_spec extra_options
    = inr (q, comment_args schema_spec)
    /\ as_string q
       = "CREATE FOREIGN TABLE " +:+ quote_ident schema +:+ "."
         +:+ quote_ident table_name +:+ " (" +:+ column_defs schema_spec
         +:+ ") SERVER " +:+ quote_ident server
         +:+ comment_statements schema table_name schema_spec.
Proof.
  intros Htypes Hopts.
  destruct (create_foreign_table_text schema server table_name schema_spec
              extra_options Htypes) as (q & Hq & Hstr).
  assert (Hempty : default [] extra_options = [])
    by (destruct extra_options as [[|? ?]|]; [reflexivity|discriminate|reflexivity]).
  rewrite Hempty in Hq, Hstr. exists q. split; [exact Hq|].
  rewrite Hstr. cbn [table_options_clause]. now rewrite str_app_nil_l.
Qed.

(** X6 (fdw.py, PostgreSQLDataSource.get_table_options): the option
    [schema_name] is always the parameter [remote_schema], whatever the
    table's own parameters say; every other option is the [str()] of the
    table's parameter of that name. *)
Theorem postgres_table_options_force_schema_name
    (self : Source) (table_name : string) (remote_schema : pyval) :
  dict_get "remote_schema" (params self) = Some remote_schema ->
  exists options,
    PostgreSQLDataSource.get_table_options self table_name = inr options
    /\ dict_get "schema_name" options = Some remote_schema
    /\ forall k, k <> "schema_name" ->
         dict_get k options
         = (fun v => PStr (py_str v)) <$> dict_get k (table_params self table_name).
Proof.
  intros Hremote. unfold PostgreSQLDataSource.get_table_options, dict_item.
  rewrite Hremote.
  assert (Hbase : ForeignDataWrapperDataSource.get_table_options self table_name
                  = inr (map (fun kv => (fst kv, PStr (py_str (snd kv))))
                             (table_params self table_name))).
  { unfold ForeignDataWrapperDataSource.get_table_options, table_params.
    destruct (tables self) as [[names|d]|]; reflexivity. }
  rewrite Hbase, !Exn_bind_inr. eexists. split; [reflexivity|]. split.
  - apply dict_get_set_eq.
  - intros k Hk. rewrite dict_get_set_ne by exact Hk.
    apply (dict_get_map (fun v => PStr (py_str v))).
Qed.

(** X7 (fdw.py, PostgreSQLDataSource.get_server_options): an entry of
    [extra_server_args] replaces the [host], [port] or [dbname] taken from
    the parameters; without such an entry the server options are the host,
    the [str()] of the port and the database name. *)
Theorem postgres_server_options_extra_args_win
    (self : Source) (host port dbname : pyval) :
  dict_get "host" (params self) = Some host ->
  dict_get "port" (params self) = Some port ->
  dict_get "dbname" (params self) = Some dbname ->
  NoDup (dict_keys (default [] (extra_server_args self))) ->
  exists options,
    PostgreSQLDataSource.get_server_options self = inr options
    /\ forall k,
         dict_get k options
         = match dict_get k (default [] (extra_server_args self)) with
           | Some v => Some v
           | None => dict_get k [("host", host); ("port", PStr (py_str port));
                                 ("dbname", dbname)]
           end.
Proof.
  intros Hhost Hport Hdb Hnd. unfold PostgreSQLDataSource.get_server_options, dict_item.
  rewrite Hhost, Hport, Hdb, !Exn_bind_inr. eexists. split; [reflexivity|].
  intros k. now apply dict_get_update.
Qed.

Lemma liftE_bind {S A B} (a : A) (k : A -> M S B) (s : S) :
  (liftE (inr a) ≫= k) s = k a s.
Proof. reflexivity. Qed.

Section DataSourceFacts.
Context `{PgEngine}.
Variable hooks : Hooks.
Variable self : Source.

(** X8 (fdw.py, mount and _create_foreign_tables): a data source whose
    class leaves [get_remote_schema_name] unimplemented cannot mount a list
    of tables, the default empty list included: [mount] raises
    [NotImplementedError], and does so only after the foreign server and
    the schema have been created. *)
Theorem mount_table_list_unsupported
    (schema : string) (tables : option TableInfo) (overwrite : bool)
    (names : list string) (msg : string)
    (server_options user_options : Dict pyval)
    (db db1 db2 : PgDb) (r : PgResult) :
  get_remote_schema_name hooks self = inl (NotImplementedError msg) ->
  tables_or_default self tables = TableList names ->
  get_server_options hooks self = inr server_options ->
  get_user_options hooks self = inr user_options ->
  init_fdw (server_name hooks schema) (get_fdw_name hooks)
    (Some server_options) (Some user_options) overwrite db = (inr tt, db1) ->
  run_sql (create_schema_statement schema) None Engine.MANY_MANY db1
  = (inr r, db2) ->
  mount hooks self schema tables overwrite db
  = (inl (NotImplementedError unsupported_message), db2).
Proof.
  intros Hremote Htables Hso Huo Hinit Hschema.
  unfold mount. rewrite Hso, Huo, Htables, !liftE_bind.
  fold (server_name hooks schema). rewrite bind_unfold, Hinit.
  change (format "CREATE SCHEMA IF NOT EXISTS {}" [Identifier schema])
    with (@inr Exn _ (create_schema_statement schema)).
  rewrite liftE_bind, bind_unfold, Hschema.
  unfold _create_foreign_tables. rewrite Hremote. reflexivity.
Qed.

Lemma as_string_format_options (option_names : list string) :
  as_string (_format_options option_names)
  = " OPTIONS (" +:+ option_slots option_names +:+ ")".
Proof.
  unfold _format_options.
  rewrite !as_string_add, as_string_join, as_string_slots. reflexivity.
Qed.

(** X25 (fdw.py, init_fdw and _format_options): DROP SERVER IF EXISTS ...
    CASCADE is run first when [overwrite] is set, then CREATE SERVER IF NOT
    EXISTS, then CREATE USER MAPPING only when there are user options.  A
    statement has an OPTIONS clause, with one [%s] per option name and the
    [str()] of the option values as arguments, exactly when its dictionary
    is not empty; otherwise it is run without arguments. *)
Theorem init_fdw_statements
    (server_id wrapper : string)
    (server_options user_options : option (Dict pyval)) (overwrite : bool) :
  exists drop create mapping,
    as_string drop
    = "DROP SERVER IF EXISTS " +:+ quote_ident server_id +:+ " CASCADE"
    /\ as_string create
       = "CREATE SERVER IF NOT EXISTS " +:+ quote_ident server_id
         +:+ " FOREIGN DATA WRAPPER " +:+ quote_ident wrapper
         +:+ options_clause server_options
    /\ as_string mapping
       = "CREATE USER MAPPING IF NOT EXISTS FOR PUBLIC SERVER "
         +:+ quote_ident server_id +:+ options_clause user_options
    /\ forall db,
         init_fdw server_id wrapper server_options user_options overwrite db
         = (_ ← (if overwrite
                 then _ ← run_sql drop None Engine.MANY_MANY; mret tt
                 else mret tt);
            _ ← run_sql create (options_args server_options) Engine.MANY_MANY;
            if dict_truthy user_options
            then _ ← run_sql mapping (options_args user_options)
                       Engine.MANY_MANY;
                 mret tt
            else mret tt) db.
Proof.
  set (drop := Composed [SQL "DROP SERVER IF EXISTS "; Identifier server_id;
                         SQL " CASCADE"]).
  set (create0 := Composed [SQL "CREATE SERVER IF NOT EXISTS ";
                            Identifier server_id;
                            SQL " FOREIGN DATA WRAPPER "; Identifier wrapper]).
  set (mapping0 := Composed
                     [SQL "CREATE USER MAPPING IF NOT EXISTS FOR PUBLIC SERVER ";
                      Identifier server_id]).
  exists drop,
    (if dict_truthy server_options
     then add create0 (_format_options (dict_keys (default [] server_options)))
     else create0),
    (if dict_truthy user_options
     then add mapping0 (_format_options (dict_keys (default [] user_options)))
     else mapping0).
  split; [|split; [|split]].
  - subst drop. rewrite !as_string_Composed_cons. cbn [as_string].
    str_norm. reflexivity.
  - unfold options_clause. destruct (dict_truthy server_options).
    + rewrite as_string_add, as_string_format_options. subst create0.
      rewrite !as_string_Composed_cons. cbn [as_string]. str_norm. reflexivity.
    + subst create0. rewrite !as_string_Composed_cons. cbn [as_string].
      str_norm. reflexivity.
  - unfold options_clause. destruct (dict_truthy user_options).
    + rewrite as_string_add, as_string_format_options. subst mapping0.
      rewrite !as_string_Composed_cons. cbn [as_string]. str_norm. reflexivity.
    + subst mapping0. rewrite !as_string_Composed_cons. cbn [as_string].
      str_norm. reflexivity.
  - intros db. unfold init_fdw, options_args.
    change (format "DROP SERVER IF EXISTS {} CASCADE" [Identifier server_id])
      with (@inr Exn _ drop).
    change (format "CREATE SERVER IF NOT EXISTS {} FOREIGN DATA WRAPPER {}"
              [Identifier server_id; Identifier wrapper])
      with (@inr Exn _ create0).
    change (format "CREATE USER MAPPING IF NOT EXISTS FOR PUBLIC SERVER {}"
              [Identifier server_id])
      with (@inr Exn _ mapping0).
    rewrite !bind_unfold.
    destruct overwrite.
    + rewrite liftE_bind, !bind_unfold.
      destruct (run_sql drop None Engine.MANY_MANY db) as [[e|r] db1];
        [reflexivity|].
      cbn [mret M_ret]. rewrite liftE_bind.
      destruct (dict_truthy server_options); destruct (dict_truthy user_options);
        rewrite ?liftE_bind; reflexivity.
    + cbn [mret M_ret]. rewrite liftE_bind.
      destruct (dict_truthy server_options); destruct (dict_truthy user_options);
        rewrite ?liftE_bind; reflexivity.
Qed.

(** X18 (fdw.py, _import_foreign_schema): one statement is run, IMPORT
    FOREIGN SCHEMA from the server into the mountpoint; its LIMIT TO clause
    is written for a non-empty list of tables only, so that an empty list
    imports the whole remote schema. *)
Theorem import_foreign_schema_statement
    (mountpoint remote_schema server_id : string) (tables : list string) :
  exists q,
    as_string q
    = "IMPORT FOREIGN SCHEMA " +:+ quote_ident remote_schema +:+ " "
      +:+ limit_clause tables +:+ "FROM SERVER " +:+ quote_ident server_id
      +:+ " INTO " +:+ quote_ident mountpoint
    /\ forall db,
         _import_foreign_schema mountpoint remote_schema server_id tables db
         = (_ ← run_sql q None Engine.MANY_MANY; mret tt) db.
Proof.
  unfold _import_foreign_schema.
  change (format "IMPORT FOREIGN SCHEMA {} " [Identifier remote_schema])
    with (@inr Exn _ (Composed [SQL "IMPORT FOREIGN SCHEMA ";
                                Identifier remote_schema; SQL " "])).
  change (format "FROM SERVER {} INTO {}"
            [Identifier server_id; Identifier mountpoint])
    with (@inr Exn _ (Composed [SQL "FROM SERVER "; Identifier server_id;
                                SQL " INTO "; Identifier mountpoint])).
  eexists. split; [|intros db; rewrite !liftE_bind; reflexivity].
  destruct tables as [|t tables].
  - rewrite as_string_add, !as_string_Composed_cons. cbn [as_string limit_clause].
    str_norm. reflexivity.
  - rewrite !as_string_add, as_string_join, !as_string_Composed_cons.
    cbn [as_string limit_clause]. rewrite map_map. str_norm. reflexivity.
Qed.

Lemma for_each_load_tables (tmp_schema schema : string) (ts : list string) :
  never_raises commit ->
  Forall (fun t => only_DatabaseError (copy_table tmp_schema t schema t)) ts ->
  forall db, exists db',
    for_each ts (load_table tmp_schema schema) db = (inr tt, db')
    /\ loaded tmp_schema schema ts db db'.
Proof.
  intros Hcommit Hts. induction Hts as [|t ts Ht Hts IH]; intros db.
  - exists db. split; [reflexivity|constructor].
  - cbn [for_each]. rewrite bind_unfold.
    unfold load_table at 1, except_DatabaseError. rewrite bind_unfold.
    destruct (copy_table tmp_schema t schema t db) as [[e|[]] db1] eqn:Hcopy.
    + destruct (Ht _ _ _ Hcopy) as [msg ->].
      destruct (IH db1) as (db' & Hrun & Hloaded).
      exists db'. split; [exact Hrun|].
      eapply loaded_skipped; eassumption.
    + destruct (Hcommit db1) as [db2 Hc]. rewrite Hc.
      destruct (IH db2) as (db' & Hrun & Hloaded).
      exists db'. split; [exact Hrun|].
      eapply loaded_copied; eassumption.
Qed.

(** X9 (fdw.py, _load): when the mount succeeds and the engine's commit,
    rollback and schema deletion do not raise, [_load] returns normally
    whichever tables fail to copy with a [DatabaseError].  Every table of
    the temporary schema is tried, in order: a table is copied and the copy
    committed, or its copy raises a [DatabaseError], the table is skipped
    and the loop goes on with the next one; the clean-up runs on the state
    that the last table left. *)
Theorem load_skips_failing_tables
    (schema : string) (tables : option TableInfo) (tmp_schema : string)
    (ts : list string) (db db0 db1 db2 db3 : PgDb) :
  get_temporary_table_id db = (inr tmp_schema, db0) ->
  mount hooks self tmp_schema tables true db0 = (inr tt, db1) ->
  commit db1 = (inr tt, db2) ->
  get_all_tables tmp_schema db2 = (inr ts, db3) ->
  never_raises commit ->
  never_raises rollback ->
  never_raises (delete_schema tmp_schema) ->
  Forall (fun t => only_DatabaseError (copy_table tmp_schema t schema t)) ts ->
  exists db4 db',
    loaded tmp_schema schema ts db3 db4
    /\ cleanup tmp_schema db4 = (inr tt, db')
    /\ _load hooks self schema tables db = (inr tt, db').
Proof.
  intros Htmp Hmount Hc Hts Hcommit Hrollback Hdelete Hcopy.
  unfold _load. rewrite bind_unfold, Htmp. unfold try_finally.
  rewrite bind_unfold, Hmount, bind_unfold, Hc, bind_unfold, Hts.
  destruct (for_each_load_tables tmp_schema schema ts Hcommit Hcopy db3)
    as (db4 & Hloop & Hloaded).
  rewrite Hloop.
  assert (Hclean : exists db', cleanup tmp_schema db4 = (inr tt, db')).
  { unfold cleanup.
    destruct (Hrollback db4) as [db5 Hr]. destruct (Hdelete db5) as [db6 Hd].
    destruct (Hcommit db6) as [db7 Hc7].
    rewrite bind_unfold, Hr, bind_unfold, Hd, Hc7. eauto. }
  destruct Hclean as [db' Hclean]. rewrite Hclean.
  exists db4, db'. auto.
Qed.

Lemma preview_tables_entries (tmp_schema : string) (ts : list string) :
  Forall (fun t => only_DatabaseError (_preview_table tmp_schema t 10)) ts ->
  forall result db, exists result' db',
    preview_tables tmp_schema ts result db = (inr result', db')
    /\ (forall t, In t (dict_keys result')
                  <-> In t (dict_keys result) \/ In t ts)
    /\ (forall t entry,
          dict_get t result' = Some entry ->
          dict_get t result = Some entry
          \/ exists s s',
               _preview_table tmp_schema t 10 s = (previewed entry, s')).
Proof.
  intros Hts. induction Hts as [|t ts Ht Hts IH]; intros result db.
  - exists result, db. split; [reflexivity|]. split; [|auto].
    intros t. cbn [In]. tauto.
  - cbn [preview_tables]. rewrite bind_unfold.
    assert (Hone : exists entry db1,
               except_DatabaseError
                 (r ← _preview_table tmp_schema t 10;
                  mret (dict_set t (inr r) result))
                 (fun msg => mret (dict_set t (inl msg) result)) db
               = (inr (dict_set t entry result), db1)
               /\ _preview_table tmp_schema t 10 db = (previewed entry, db1)).
    { unfold except_DatabaseError. rewrite bind_unfold.
      destruct (_preview_table tmp_schema t 10 db) as [[e|r] db1] eqn:Hp.
      - destruct (Ht _ _ _ Hp) as [msg ->]. exists (inl msg), db1.
        split; reflexivity.
      - exists (inr r), db1. split; reflexivity. }
    destruct Hone as (entry & db1 & Hone & Hentry). rewrite Hone.
    destruct (IH (dict_set t entry result) db1)
      as (result' & db' & Hrun & Hkeys & Hvals).
    exists result', db'. split; [exact Hrun|]. split.
    + intros t0. rewrite Hkeys, dict_keys_set. cbn [In]. intuition.
    + intros t0 entry0 Hget.
      destruct (Hvals t0 entry0 Hget) as [Hset|Hw]; [|auto].
      destruct (String.eqb_spec t0 t) as [->|Hne].
      * rewrite dict_get_set_eq in Hset. injection Hset as ->.
        right. eauto.
      * rewrite dict_get_set_ne in Hset by exact Hne. auto.
Qed.


Lemma introspect_tables_entries (tmp_schema : string) (ts : list string) :
  Forall (fun t => forall s, exists schema s',
            get_full_table_schema tmp_schema t s = (inr schema, s')) ts ->
  forall result db, exists result' db',
    introspect_tables tmp_schema ts result db = (inr result', db')
    /\ (forall t, In t (dict_keys result')
                  <-> In t (dict_keys result) \/ In t ts)
    /\ (forall t entry,
          dict_get t result' = Some entry ->
          dict_get t result = Some entry
          \/ snd entry = []
             /\ exists s s',
                  get_full_table_schema tmp_schema t s = (inr (fst entry), s')).
Proof.
  intros Hts. induction Hts as [|t ts Ht Hts IH]; intros result db.
  - exists result, db. split; [reflexivity|]. split; [|auto].
    intros t. cbn [In]. tauto.
  - cbn [introspect_tables]. rewrite bind_unfold.
    destruct (Ht db) as (schema & db1 & Hschema). rewrite Hschema.
    destruct (IH (dict_set t (schema, []) result) db1)
      as (result' & db' & Hrun & Hkeys & Hvals).
    exists result', db'. split; [exact Hrun|]. split.
    + intros t0. rewrite Hkeys, dict_keys_set. cbn [In]. intuition.
    + intros t0 entry Hget. destruct (Hvals t0 entry Hget) as [Hset|Hw]; [|auto].
      destruct (String.eqb_spec t0 t) as [->|Hne].
      * rewrite dict_get_set_eq in Hset. injection Hset as <-.
        right. split; [reflexivity|]. eauto.
      * rewrite dict_get_set_ne in Hset by exact Hne. auto.
Qed.


Lemma introspect_tables_raises (tmp_schema : string) (e : Exn)
    (pre : list string) (t : string) (post : list string) :
  Forall (fun t' => forall s, exists schema s',
            get_full_table_schema tmp_schema t' s = (inr schema, s')) pre ->
  (forall s, exists s', get_full_table_schema tmp_schema t s = (inl e, s')) ->
  forall result db, exists db',
    introspect_tables tmp_schema (pre ++ t :: post) result db = (inl e, db').
Proof.
  intros Hpre Ht. induction Hpre as [|t' pre Ht' Hpre IH]; intros result db.
  - cbn [app introspect_tables]. rewrite bind_unfold.
    destruct (Ht db) as [db' ->]. exists db'. reflexivity.
  - cbn [app introspect_tables]. rewrite bind_unfold.
    destruct (Ht' db) as (schema & db1 & ->). apply IH.
Qed.

(** X21 (fdw.py, introspect): unlike [preview], [introspect] is all or
    nothing: when describing one table of the temporary schema raises,
    that exception escapes (after the clean-up) and the schemas of the
    tables described before it are lost. *)
Theorem introspect_is_all_or_nothing
    (tmp_schema : string) (e : Exn) (pre : list string) (t : string)
    (post : list string) (db db0 db1 db2 : PgDb) :
  get_temporary_table_id db = (inr tmp_schema, db0) ->
  mount hooks self tmp_schema None true db0 = (inr tt, db1) ->
  get_all_tables tmp_schema db1 = (inr (pre ++ t :: post), db2) ->
  never_raises commit ->
  never_raises rollback ->
  never_raises (delete_schema tmp_schema) ->
  Forall (fun t' => forall s, exists schema s',
            get_full_table_schema tmp_schema t' s = (inr schema, s')) pre ->
  (forall s, exists s', get_full_table_schema tmp_schema t s = (inl e, s')) ->
  exists db', introspect hooks self db = (inl e, db').
Proof.
  intros Htmp Hmount Hts Hcommit Hrollback Hdelete Hpre Ht.
  unfold introspect. rewrite bind_unfold, Htmp. unfold try_finally.
  rewrite bind_unfold, Hmount, bind_unfold, Hts.
  destruct (introspect_tables_raises tmp_schema e pre t post Hpre Ht [] db2)
    as (db3 & ->).
  unfold cleanup.
  destruct (Hrollback db3) as [db4 Hr]. destruct (Hdelete db4) as [db5 Hd].
  destruct (Hcommit db5) as [db6 Hc6].
  rewrite bind_unfold, Hr, bind_unfold, Hd, Hc6. exists db6. reflexivity.
Qed.

End DataSourceFacts.

(** X22 (fdw.py, MongoDataSource.get_table_schema): the hook is idempotent:
    a schema that it returned is returned unchanged when passed again, for
    any table name. *)
Theorem mongo_get_table_schema_idempotent
    (table_name table_name' : string) (table_schema result : TableSchema) :
  MongoDataSource.get_table_schema table_name table_schema = inr result ->
  MongoDataSource.get_table_schema table_name' result = inr result.
Proof.
  unfold MongoDataSource.get_table_schema.
  destruct (MongoDataSource.has_id_column table_schema) eqn:Hid.
  - intros [= <-]. now rewrite Hid.
  - destruct (py_last table_schema) as [e|c]; [discriminate|].
    intros [= <-].
    assert (Hid' : MongoDataSource.has_id_column
                     (table_schema
                      ++ [{| ordinal := (ordinal c + 1)%Z; name := "_id";
                             pg_type := "NAME"; is_pk := false;
                             comment := None |}]) = true).
    { unfold MongoDataSource.has_id_column. rewrite existsb_app.
      cbn [existsb name]. rewrite String.eqb_refl. now rewrite orb_true_r. }
    now rewrite Hid'.
Qed.

End FdwFacts.

Lemma postgres_table_options_force_schema_name_witness :
  exists options,
    Fdw.PostgreSQLDataSource.get_table_options FdwReference.postgres_source "fruits"
    = inr options
    /\ Py.dict_get "schema_name" options = Some (Py.PStr "public")
    /\ forall k, k <> "schema_name" ->
         Py.dict_get k options
         = (fun v => Py.PStr (Py.py_str v))
             <$> Py.dict_get k
                   (FdwStatements.table_params FdwReference.postgres_source
                      "fruits").
Proof.
  apply postgres_table_options_force_schema_name. reflexivity.
Defined.

Lemma postgres_server_options_extra_args_win_witness :
  exists options,
    Fdw.PostgreSQLDataSource.get_server_options FdwReference.postgres_source = inr options
    /\ forall k,
         Py.dict_get k options
         = match Py.dict_get k
                   (default [] (Fdw.extra_server_args
                                  FdwReference.postgres_source)) with
           | Some v => Some v
           | None =>
               Py.dict_get k
                 [("host", Py.PStr "db");
                  ("port", Py.PStr (Py.py_str (Py.PInt 5432)));
                  ("dbname", Py.PStr "shop")]
           end.
Proof.
  apply postgres_server_options_extra_args_win; try reflexivity.
  repeat constructor; intros Hin;
    repeat (apply elem_of_cons in Hin as [Hin|Hin]; [discriminate|]);
    inversion Hin.
Defined.


Lemma create_foreign_table_without_options_witness :
  exists q,
    Fdw.create_foreign_table "staging" "staging_mongo_fdw_server" "fruits"
      FdwReference.fruit_columns None
    = inr (q, FdwStatements.comment_args FdwReference.fruit_columns)
    /\ as_string q
       = "CREATE FOREIGN TABLE " +:+ quote_ident "staging" +:+ "."
         +:+ quote_ident "fruits" +:+ " ("
         +:+ FdwStatements.column_defs FdwReference.fruit_columns
         +:+ ") SERVER " +:+ quote_ident "staging_mongo_fdw_server"
         +:+ FdwStatements.comment_statements "staging" "fruits"
               FdwReference.fruit_columns.
Proof.
  apply create_foreign_table_without_options;
    [repeat constructor|reflexivity].
Defined.

Lemma mount_table_list_unsupported_witness :
  exists db,
    Fdw.mount (H := FdwReference.recording_engine FdwReference.some_broken) Fdw.Mongo
      FdwReference.mongo_source_without_tables "staging" None true []
    = (inl (Fdw.NotImplementedError FdwStatements.unsupported_message), db).
Proof.
  eexists.
  eapply (mount_table_list_unsupported (H := FdwReference.recording_engine FdwReference.some_broken));
    vm_compute; reflexivity.
Defined.

Ltac recording_engine_never_raises :=
  intros ?; eexists; reflexivity.

Ltac recording_engine_only_DatabaseError :=
  repeat constructor;
  intros ? ? ? Heq; vm_compute in Heq; inversion Heq; eauto.

Lemma load_skips_failing_tables_witness :
  exists db4 db,
    FdwStatements.loaded
      (H := FdwReference.recording_engine FdwReference.some_broken)
      "sg_tmp_1" "warehouse" FdwReference.some_broken
      FdwReference.mounted_log db4
    /\ Fdw.cleanup
         (H := FdwReference.recording_engine FdwReference.some_broken)
         "sg_tmp_1" db4 = (inr tt, db)
    /\ Fdw._load
         (H := FdwReference.recording_engine FdwReference.some_broken)
         Fdw.Mongo FdwReference.mongo_source "warehouse" None []
       = (inr tt, db).
Proof.
  eapply (load_skips_failing_tables
            (H := FdwReference.recording_engine FdwReference.some_broken));
    [vm_compute; reflexivity | vm_compute; reflexivity
    | vm_compute; reflexivity | vm_compute; reflexivity
    | recording_engine_never_raises | recording_engine_never_raises
    | recording_engine_never_raises | recording_engine_only_DatabaseError].
Defined.


(** ** Reading CSV rows *)
Section CsvRowsFacts.
Import CsvRows.
Variable pad_csv_row : list string -> nat -> nat -> Exn + list string.

Lemma read_from_rows (header : bool) (num_cols : nat)
    (pad : list string -> nat -> list string) :
  (forall row n, pad_csv_row row n num_cols = inr (pad row n)) ->
  forall csv_reader header_skipped n,
    read_from pad_csv_row header num_cols header_skipped n csv_reader
    = (map (fun nr => nulls_for_empty (pad (snd nr) (fst nr)))
           (filter (fun nr => snd nr <> [])
                   (if negb header_skipped && header
                    then drop 1 (numbered n csv_reader)
                    else numbered n csv_reader)),
       None).
Proof.
  intros Hpad. induction csv_reader as [|row rest IH]; intros hs n.
  - cbn [read_from numbered]. now destruct (negb hs && header).
  - cbn [read_from numbered].
    destruct (negb hs && header) eqn:Hskip.
    + rewrite IH. cbn [negb andb drop]. reflexivity.
    + destruct row as [|cell row].
      * rewrite IH, Hskip. rewrite filter_cons_False by (cbn; tauto).
        reflexivity.
      * rewrite Hpad, IH, Hskip.
        rewrite filter_cons_True by (cbn; discriminate). reflexivity.
Qed.

(** X11 (csv/fdw.py, _read_csv): when padding does not raise, the generator
    yields one row for each non-empty row of the reader, in order, padded
    with the row's position in the file and with empty strings replaced by
    NULL; with [header] set, the first row of the reader is left out,
    whether or not it is empty. *)
Theorem read_csv_yields_data_rows (header : bool) (num_cols : nat)
    (pad : list string -> nat -> list string) (csv_reader : list (list string)) :
  (forall row n, pad_csv_row row n num_cols = inr (pad row n)) ->
  _read_csv pad_csv_row header num_cols csv_reader
  = (map (fun nr => nulls_for_empty (pad (snd nr) (fst nr)))
         (data_rows header csv_reader),
     None).
Proof.
  intros Hpad. unfold _read_csv, data_rows.
  rewrite (read_from_rows header num_cols pad Hpad). reflexivity.
Qed.

Lemma nulls_for_empty_cells (row : list string) :
  ~ In (Some EmptyString) (nulls_for_empty row).
Proof.
  unfold nulls_for_empty. intros Hin. apply in_map_iff in Hin as (r & Hr & _).
  destruct (String.eqb r "") eqn:Heq; [discriminate|].
  injection Hr as ->. discriminate.
Qed.

(** X12 (csv/fdw.py, _read_csv): no value that the generator yields is the
    empty string, whatever the padding does and also when it raises after
    some rows. *)
Theorem read_csv_never_yields_empty_string (header : bool) (num_cols : nat)
    (csv_reader : list (list string)) :
  Forall (fun row => ~ In (Some EmptyString) row)
         (fst (_read_csv pad_csv_row header num_cols csv_reader)).
Proof.
  unfold _read_csv. generalize false, 0.
  induction csv_reader as [|row rest IH]; intros hs n; [constructor|].
  cbn [read_from]. destruct (negb hs && header); [apply IH|].
  destruct row as [|cell row]; [apply IH|].
  destruct (pad_csv_row (cell :: row) n num_cols) as [e|padded]; [constructor|].
  specialize (IH hs (S n)).
  destruct (read_from pad_csv_row header num_cols hs (S n) rest) as [rows e].
  cbn [fst] in *. constructor; [apply nulls_for_empty_cells|exact IH].
Qed.

End CsvRowsFacts.

Lemma read_csv_yields_data_rows_witness :
  CsvRows._read_csv CsvRows.pad_to_width true 3 CsvRows.sample_rows
  = ([[Some "1"; Some "apple"; None]; [Some "2"; Some "pear"; None];
      [Some "3"; None; Some "yellow"]], None).
Proof.
  refine (eq_trans
            (read_csv_yields_data_rows CsvRows.pad_to_width true 3
               (fun row _ =>
                  take 3 row ++ replicate (3 - length row) EmptyString)
               CsvRows.sample_rows _) _).
  - intros row n. reflexivity.
  - vm_compute. reflexivity.
Defined.

(** ** Schema migration *)
Section DictInvariant.
Import Py.
Context {V : Type}.

Lemma dict_set_NoDup (k : string) (v : V) (d : Dict V) :
  NoDup (dict_keys d) -> NoDup (dict_keys (dict_set k v d)).
Proof.
  induction d as [|[k' v'] d IH]; intros Hnd; cbn [dict_set].
  - cbn. apply NoDup_singleton.
  - cbn [dict_keys map fst] in Hnd. apply NoDup_cons in Hnd as [Hk' Hnd].
    destruct (String.eqb k k') eqn:Hk.
    + cbn [dict_keys map fst]. apply NoDup_cons. split; assumption.
    + cbn [dict_keys map fst]. apply NoDup_cons. split; [|now apply IH].
      intros Hin. apply list_elem_of_In, (dict_keys_set k v d k') in Hin.
      apply String.eqb_neq in Hk. destruct Hin as [->|Hin]; [congruence|].
      apply Hk'. now apply list_elem_of_In.
Qed.

Lemma dict_update_NoDup (items : list (string * V)) :
  forall d, NoDup (dict_keys d) -> NoDup (dict_keys (dict_update d items)).
Proof.
  unfold dict_update. induction items as [|[k v] items IH]; intros d Hnd;
    [exact Hnd|].
  cbn [fold_left fst snd]. apply IH. now apply dict_set_NoDup.
Qed.

Lemma dict_set_In (k : string) (v : V) (d : Dict V) (k0 : string) (v0 : V) :
  In (k0, v0) (dict_set k v d) -> (k0, v0) = (k, v) \/ In (k0, v0) d.
Proof.
  induction d as [|[k' v'] d IH]; cbn [dict_set In].
  - intros [Heq|[]]. left. congruence.
  - destruct (String.eqb k k') eqn:Hk; cbn [In].
    + apply String.eqb_eq in Hk. subst k'.
      intros [Heq|Hin]; [left; congruence|tauto].
    + intros [Heq|Hin]; [tauto|]. destruct (IH Hin); tauto.
Qed.

Lemma dict_update_In (items : list (string * V)) :
  forall d k0 v0,
    In (k0, v0) (dict_update d items) -> In (k0, v0) d \/ In (k0, v0) items.
Proof.
  unfold dict_update. induction items as [|[k v] items IH]; intros d k0 v0 Hin;
    [tauto|].
  cbn [fold_left fst snd] in Hin. destruct (IH _ _ _ Hin) as [Hset|Hitems].
  - destruct (dict_set_In _ _ _ _ _ Hset) as [Heq|Hd]; [|tauto].
    right. left. congruence.
  - right. now right.
Qed.

Lemma dict_get_In (k : string) (v : V) (d : Dict V) :
  NoDup (dict_keys d) -> In (k, v) d -> dict_get k d = Some v.
Proof.
  induction d as [|[k' v'] d IH]; intros Hnd Hin; [destruct Hin|].
  cbn [dict_keys map fst] in Hnd. apply NoDup_cons in Hnd as [Hk' Hnd].
  cbn [dict_get]. destruct Hin as [Heq|Hin].
  - injection Heq as -> ->. now rewrite String.eqb_refl.
  - destruct (String.eqb k k') eqn:Hk; [|now apply IH].
    apply String.eqb_eq in Hk. subst k'. exfalso. apply Hk'.
    apply list_elem_of_In. unfold dict_keys.
    change k with (fst (k, v)). now apply in_map.
Qed.

Lemma dict_get_Some_In (k : string) (v : V) (d : Dict V) :
  dict_get k d = Some v -> In (k, v) d.
Proof.
  induction d as [|[k' v'] d IH]; [discriminate|].
  cbn [dict_get]. destruct (String.eqb k k') eqn:Hk.
  - apply String.eqb_eq in Hk. subst k'. intros [= ->]. now left.
  - intros Hget. right. now apply IH.
Qed.

Lemma dict_keys_get (k : string) (d : Dict V) :
  In k (dict_keys d) -> is_Some (dict_get k d).
Proof.
  intros Hin. destruct (dict_get k d) eqn:Hget; [eauto|].
  apply dict_get_None in Hget. contradiction.
Qed.

End DictInvariant.

Lemma for_each_nothing {S A} (xs : list A) (body : A -> M S unit) :
  (forall x s, In x xs -> body x s = (inr tt, s)) ->
  forall s, Py.for_each xs body s = (inr tt, s).
Proof.
  induction xs as [|x xs IH]; intros Hbody s; [reflexivity|].
  cbn [Py.for_each]. rewrite bind_unfold, Hbody by (now left).
  apply IH. intros y s' Hy. apply Hbody. now right.
Qed.

Section MigrationFacts.
Import Types PySql Py Postgres SingerMigration.
Context `{PgEngine}.
Variable validate_type : string -> Exn + string.

Lemma column_types_NoDup (spec : TableSchema) :
  NoDup (dict_keys (column_types spec)).
Proof. apply dict_update_NoDup. constructor. Qed.

(** X13 (singer/_utils.py, _migrate_schema): when the old and the new schema
    give the same type to the same column names, nothing is run on the
    engine, whatever the order, the ordinals, the primary-key flags and
    the comments of the two schemas are. *)
Theorem migrate_same_columns_runs_nothing
    (table_schema table_name : string)
    (table_schema_spec new_schema_spec : TableSchema) (db : PgDb) :
  same_columns table_schema_spec new_schema_spec ->
  _migrate_schema validate_type table_schema table_name table_schema_spec
    new_schema_spec db = (inr tt, db).
Proof.
  intros Hsame. unfold _migrate_schema. rewrite bind_unfold.
  rewrite for_each_nothing.
  - apply for_each_nothing. intros [c new_type] s Hin. cbn [add_or_alter].
    apply dict_get_In in Hin; [|apply column_types_NoDup].
    rewrite Hsame, Hin. now rewrite String.eqb_refl.
  - intros c s Hin. unfold drop_if_removed.
    apply dict_keys_get in Hin as [v Hv]. rewrite <- Hsame, Hv. reflexivity.
Qed.

Lemma format_add_column (s t c type : string) :
  no_braces type = true ->
  format ("ALTER TABLE {}.{} ADD COLUMN {} " +:+ type)
    [Identifier s; Identifier t; Identifier c]
  = inr (add_column_statement s t c type).
Proof.
  intros Htype. unfold format.
  change ("ALTER TABLE {}.{} ADD COLUMN {} " +:+ type)
    with ("ALTER TABLE " +:+ "{}" +:+ "." +:+ "{}" +:+ " ADD COLUMN "
          +:+ "{}" +:+ " " +:+ type).
  rewrite (format_scan_text _ "ALTER TABLE ") by reflexivity.
  rewrite format_scan_field with (a := Identifier s) by reflexivity.
  rewrite (format_scan_text _ ".") by reflexivity.
  rewrite format_scan_field with (a := Identifier t) by reflexivity.
  rewrite (format_scan_text _ " ADD COLUMN ") by reflexivity.
  rewrite format_scan_field with (a := Identifier c) by reflexivity.
  rewrite format_scan_end by (rewrite no_braces_app, Htype; reflexivity).
  reflexivity.
Qed.

Lemma format_alter_type (s t c type : string) :
  no_braces type = true ->
  format ("ALTER TABLE {}.{} ALTER COLUMN {} TYPE " +:+ type)
    [Identifier s; Identifier t; Identifier c]
  = inr (alter_type_statement s t c type).
Proof.
  intros Htype. unfold format.
  change ("ALTER TABLE {}.{} ALTER COLUMN {} TYPE " +:+ type)
    with ("ALTER TABLE " +:+ "{}" +:+ "." +:+ "{}" +:+ " ALTER COLUMN "
          +:+ "{}" +:+ " TYPE " +:+ type).
  rewrite (format_scan_text _ "ALTER TABLE ") by reflexivity.
  rewrite format_scan_field with (a := Identifier s) by reflexivity.
  rewrite (format_scan_text _ ".") by reflexivity.
  rewrite format_scan_field with (a := Identifier t) by reflexivity.
  rewrite (format_scan_text _ " ALTER COLUMN ") by reflexivity.
  rewrite format_scan_field with (a := Identifier c) by reflexivity.
  rewrite format_scan_end by (rewrite no_braces_app, Htype; reflexivity).
  reflexivity.
Qed.

Section WithLaws.
Context `{!ColumnCatalog} `{!AlterEffects}.
Variables table_schema table_name : string.

(** The first loop: the columns of [keys] that the new schema lacks are
    dropped, the others stay. *)
Lemma drop_removed_columns (new_cols : Dict string) (keys : list string) :
  NoDup keys ->
  forall db cols,
    table_columns db table_schema table_name = Some cols ->
    match for_each keys (drop_if_removed table_schema table_name new_cols) db
    with
    | (inr _, db') =>
        exists cols',
          table_columns db' table_schema table_name = Some cols'
          /\ forall c,
               cols' !! c
               = if decide (c ∈ keys)
                 then match dict_get c new_cols with
                      | None => None
                      | Some _ => cols !! c
                      end
                 else cols !! c
    | (inl e, db') => refused table_schema table_name e db'
    end.
Proof.
  intros Hnd. induction Hnd as [|k keys Hk Hnd IH]; intros db cols Hcols.
  - cbn. exists cols. split; [exact Hcols|].
    intros c. destruct (decide (c ∈ [])) as [Hin|]; [inversion Hin|reflexivity].
  - cbn [for_each]. rewrite bind_unfold. unfold drop_if_removed at 1.
    destruct (dict_get k new_cols) as [v|] eqn:Hnew.
    + cbn [mret M_ret]. specialize (IH db cols Hcols).
      destruct (for_each keys (drop_if_removed table_schema table_name new_cols)
                  db) as [[e|u] db']; [exact IH|].
      destruct IH as (cols' & Hcols' & Hlook).
      exists cols'. split; [exact Hcols'|].
      intros c. rewrite Hlook.
      destruct (decide (c ∈ keys)) as [Hin|Hnin];
        destruct (decide (c ∈ k :: keys)) as [Hin'|Hnin'];
        try reflexivity.
      * exfalso. apply Hnin'. now right.
      * apply elem_of_cons in Hin' as [->|Hin']; [|contradiction].
        now rewrite Hnew.
    + change (format "ALTER TABLE {}.{} DROP COLUMN {}"
                [Identifier table_schema; Identifier table_name; Identifier k])
        with (@inr Exn _ (drop_column_statement table_schema table_name k)).
      rewrite liftE_bind, bind_unfold.
      destruct (run_sql (drop_column_statement table_schema table_name k) None
                  Engine.MANY_MANY db) as [[e|r] db1] eqn:Hdrop.
      { exists (drop_column_statement table_schema table_name k), db.
        split; [constructor|exact Hdrop]. }
      cbn [mret M_ret].
      pose proof (drop_column_effect _ _ _ _ _ _ _ Hcols Hdrop) as Hcols1.
      specialize (IH db1 (delete k cols) Hcols1).
      destruct (for_each keys (drop_if_removed table_schema table_name new_cols)
                  db1) as [[e|u] db']; [exact IH|].
      destruct IH as (cols' & Hcols' & Hlook).
      exists cols'. split; [exact Hcols'|].
      intros c. rewrite Hlook.
      destruct (decide (c = k)) as [->|Hne].
      * rewrite lookup_delete_eq, Hnew.
        destruct (decide (k ∈ k :: keys)) as [_|Hn];
          [|exfalso; apply Hn; now left].
        destruct (decide (k ∈ keys)); reflexivity.
      * rewrite lookup_delete_ne by congruence.
        destruct (decide (c ∈ keys)) as [Hin|Hnin];
          destruct (decide (c ∈ k :: keys)) as [Hin'|Hnin'];
          try reflexivity.
        -- exfalso. apply Hnin'. now right.
        -- apply elem_of_cons in Hin' as [->|Hin']; [congruence|contradiction].
Qed.

(** One pass of the second loop: the column ends with its new type. *)
Lemma add_or_alter_column (old_cols : Dict string) (c type : string)
    (db : PgDb) (cols : gmap string string) :
  validate_type type = inr type ->
  no_braces type = true ->
  table_columns db table_schema table_name = Some cols ->
  cols !! c = dict_get c old_cols ->
  match add_or_alter validate_type table_schema table_name old_cols (c, type) db
  with
  | (inr _, db1) =>
      exists cols1,
        table_columns db1 table_schema table_name = Some cols1
        /\ cols1 !! c = Some type
        /\ forall c', c' <> c -> cols1 !! c' = cols !! c'
  | (inl e, db1) => refused table_schema table_name e db1
  end.
Proof.
  intros Hvalid Hbraces Hcols Hold. cbn [add_or_alter].
  destruct (dict_get c old_cols) as [old_type|] eqn:Hget.
  - destruct (String.eqb_spec type old_type) as [->|Hne].
    + cbn [mret M_ret]. exists cols. auto.
    + rewrite Hvalid, liftE_bind, format_alter_type, liftE_bind,
        bind_unfold by exact Hbraces.
      destruct (run_sql (alter_type_statement table_schema table_name c type)
                  None Engine.MANY_MANY db) as [[e|r] db1] eqn:Hrun.
      { eexists _, db. split; [apply (alters_type _ _ c type)|exact Hrun]. }
      cbn [mret M_ret]. exists (<[c := type]> cols).
      split; [exact (alter_type_effect _ _ _ _ _ _ _ _ Hcols Hrun)|]. split.
      * apply lookup_insert_eq.
      * intros c' Hc'. now apply lookup_insert_ne.
  - rewrite Hvalid, liftE_bind, format_add_column, liftE_bind,
      bind_unfold by exact Hbraces.
    destruct (run_sql (add_column_statement table_schema table_name c type)
                None Engine.MANY_MANY db) as [[e|r] db1] eqn:Hrun.
    { eexists _, db. split; [apply (alters_add _ _ c type)|exact Hrun]. }
    cbn [mret M_ret]. exists (<[c := type]> cols).
    split; [exact (add_column_effect _ _ _ _ _ _ _ _ Hcols Hrun)|]. split.
    + apply lookup_insert_eq.
    + intros c' Hc'. now apply lookup_insert_ne.
Qed.

(** The second loop: each column of [items] ends with its new type. *)
Lemma add_or_alter_columns (old_cols : Dict string)
    (items : list (string * string)) :
  NoDup (dict_keys items) ->
  Forall (fun it => validate_type (snd it) = inr (snd it)
                    /\ no_braces (snd it) = true) items ->
  forall db cols,
    table_columns db table_schema table_name = Some cols ->
    (forall c type, In (c, type) items -> cols !! c = dict_get c old_cols) ->
    match for_each items
            (add_or_alter validate_type table_schema table_name old_cols) db
    with
    | (inr _, db') =>
        exists cols',
          table_columns db' table_schema table_name = Some cols'
          /\ forall c,
               cols' !! c
               = match dict_get c items with
                 | Some type => Some type
                 | None => cols !! c
                 end
    | (inl e, db') => refused table_schema table_name e db'
    end.
Proof.
  induction items as [|[c type] items IH]; intros Hnd Hval db cols Hcols Hpre.
  - cbn. exists cols. split; [exact Hcols|reflexivity].
  - cbn [dict_keys map fst] in Hnd. apply NoDup_cons in Hnd as [Hc Hnd].
    apply Forall_cons in Hval as [[Hvalid Hbraces] Hval].
    cbn [snd] in Hvalid, Hbraces.
    pose proof (add_or_alter_column old_cols c type db cols Hvalid Hbraces
                  Hcols (Hpre c type (or_introl eq_refl))) as Hone.
    cbn [for_each]. rewrite bind_unfold.
    destruct (add_or_alter validate_type table_schema table_name old_cols
                (c, type) db) as [[e|u] db1]; [exact Hone|].
    destruct Hone as (cols1 & Hcols1 & Hc1 & Hother).
    assert (Hfresh : forall c' type', In (c', type') items -> c' <> c).
    { intros c' type' Hin ->. apply Hc. apply list_elem_of_In.
      change c with (fst (c, type')). now apply in_map. }
    specialize (IH Hnd Hval db1 cols1 Hcols1).
    destruct (for_each items
                (add_or_alter validate_type table_schema table_name old_cols)
                db1) as [[e|u'] db'].
    { apply IH. intros c' type' Hin.
      rewrite Hother by (eapply Hfresh; exact Hin).
      eapply Hpre. right. exact Hin. }
    destruct IH as (cols' & Hcols' & Hlook).
    { intros c' type' Hin. rewrite Hother by (eapply Hfresh; exact Hin).
      eapply Hpre. right. exact Hin. }
    exists cols'. split; [exact Hcols'|].
    intros x. rewrite Hlook. cbn [dict_get].
    destruct (String.eqb_spec x c) as [->|Hne].
    + assert (Hnone : dict_get c items = None).
      { apply dict_get_None. intros Hin. apply Hc. now apply list_elem_of_In. }
      now rewrite Hnone.
    + destruct (dict_get x items); [reflexivity|]. now apply Hother.
Qed.

(** X14 (singer/_utils.py, _migrate_schema): on an engine where an accepted
    ALTER TABLE statement (DROP COLUMN, ADD COLUMN, ALTER COLUMN TYPE) has
    its effect on the table's columns, if the table has the columns of the
    old schema and the new types pass [validate_type] unchanged and contain
    no brace, then a migration that ends normally leaves the table with
    exactly the column names and types of the new schema; and a migration
    ends otherwise only with the exception, and in the state, that the
    engine answered to one of its ALTER TABLE statements. *)
Theorem migrate_reaches_new_schema
    (table_schema_spec new_schema_spec : TableSchema)
    (db : PgDb) (cols : gmap string string) :
  table_columns db table_schema table_name = Some cols ->
  (forall c, cols !! c = dict_get c (column_types table_schema_spec)) ->
  Forall (fun col => validate_type (pg_type col) = inr (pg_type col)
                     /\ no_braces (pg_type col) = true) new_schema_spec ->
  match _migrate_schema validate_type table_schema table_name
          table_schema_spec new_schema_spec db with
  | (inr _, db') =>
      exists cols',
        table_columns db' table_schema table_name = Some cols'
        /\ forall c, cols' !! c = dict_get c (column_types new_schema_spec)
  | (inl e, db') => refused table_schema table_name e db'
  end.
Proof.
  intros Hcols Hold Hval. unfold _migrate_schema.
  set (old_cols := column_types table_schema_spec) in *.
  set (new_cols := column_types new_schema_spec).
  pose proof (drop_removed_columns new_cols (dict_keys old_cols)
                (column_types_NoDup _) db cols Hcols) as Hfirst.
  rewrite bind_unfold.
  destruct (for_each (dict_keys old_cols)
              (drop_if_removed table_schema table_name new_cols) db)
    as [[e|u] db1]; [exact Hfirst|].
  destruct Hfirst as (cols1 & Hcols1 & Hlook1).
  assert (Hitems : forall c type, In (c, type) new_cols ->
                     dict_get c new_cols = Some type).
  { intros c type Hin. apply dict_get_In; [apply column_types_NoDup|exact Hin]. }
  assert (Hvalid : Forall (fun it => validate_type (snd it) = inr (snd it)
                                     /\ no_braces (snd it) = true) new_cols).
  { apply Forall_forall. intros [c type] Hin. cbn [snd].
    apply list_elem_of_In, dict_update_In in Hin as [[]|Hin].
    apply in_map_iff in Hin as (col & Heq & Hcol). injection Heq as <- <-.
    rewrite Forall_forall in Hval. apply Hval. now apply list_elem_of_In. }
  assert (Hkept : forall c type, In (c, type) new_cols ->
                    cols1 !! c = dict_get c old_cols).
  { intros c type Hin. rewrite Hlook1, (Hitems c type Hin), Hold.
    destruct (decide (c ∈ dict_keys old_cols)); reflexivity. }
  pose proof (add_or_alter_columns old_cols new_cols (column_types_NoDup _)
                Hvalid db1 cols1 Hcols1 Hkept) as Hsecond.
  destruct (for_each new_cols
              (add_or_alter validate_type table_schema table_name old_cols)
              db1) as [[e|u'] db']; [exact Hsecond|].
  destruct Hsecond as (cols' & Hcols' & Hlook).
  exists cols'. split; [exact Hcols'|].
  intros c. rewrite Hlook. destruct (dict_get c new_cols) as [type|] eqn:Hnew;
    [reflexivity|].
  rewrite Hlook1, Hnew.
  destruct (decide (c ∈ dict_keys old_cols)) as [Hin|Hnin]; [reflexivity|].
  rewrite Hold. apply dict_get_None. intros Hin. apply Hnin.
  now apply list_elem_of_In.
Qed.

End WithLaws.

End MigrationFacts.

Section MigrationReferenceFacts.
Import PySql Py Postgres SingerMigration MigrationReference.

Lemma strip_prefix_app (prefix s : string) :
  strip_prefix prefix (prefix +:+ s) = Some s.
Proof.
  induction prefix as [|p prefix IH]; [reflexivity|].
  change (String p prefix +:+ s) with (String p (prefix +:+ s)).
  cbn [strip_prefix]. now rewrite Ascii.eqb_refl.
Qed.

Lemma columns_laws :
  @AlterEffects columns_engine columns_catalog.
Proof.
  split.
  - intros db s t c cols r db' Hcols.
    cbn [run_sql columns_engine table_columns columns_catalog] in *.
    change (@PgDb columns_engine) with (gmap (string * string) Columns) in *.
    unfold alter. cbn [drop_column_statement alter_effect].
    rewrite !String.eqb_refl. cbn [andb]. rewrite Hcols.
    destruct (cols !! c); intros [= _ <-]. apply lookup_insert_eq.
  - intros db s t c type cols r db' Hcols.
    cbn [run_sql columns_engine table_columns columns_catalog] in *.
    change (@PgDb columns_engine) with (gmap (string * string) Columns) in *.
    unfold alter. cbn [add_column_statement alter_effect].
    rewrite !String.eqb_refl. cbn [andb]. rewrite strip_prefix_app, Hcols.
    destruct (cols !! c); intros [= _ <-]. apply lookup_insert_eq.
  - intros db s t c type cols r db' Hcols.
    cbn [run_sql columns_engine table_columns columns_catalog] in *.
    change (@PgDb columns_engine) with (gmap (string * string) Columns) in *.
    unfold alter. cbn [alter_type_statement alter_effect].
    rewrite !String.eqb_refl. cbn [andb].
    change (String.eqb " ALTER COLUMN " " ADD COLUMN ") with false.
    cbn iota. rewrite strip_prefix_app, Hcols.
    destruct (cols !! c); intros [= _ <-]. apply lookup_insert_eq.
Qed.

End MigrationReferenceFacts.

Lemma migrate_same_columns_runs_nothing_witness :
  SingerMigration._migrate_schema (H := MigrationReference.columns_engine)
    MigrationReference.accept_type "public" "fruits"
    MigrationReference.old_fruits MigrationReference.old_fruits_reordered
    MigrationReference.fruits_tables
  = (inr tt, MigrationReference.fruits_tables).
Proof.
  refine (migrate_same_columns_runs_nothing
            (H := MigrationReference.columns_engine)
            MigrationReference.accept_type "public" "fruits"
            MigrationReference.old_fruits
            MigrationReference.old_fruits_reordered
            MigrationReference.fruits_tables _).
  intros c.
  let d := eval vm_compute in
             (SingerMigration.column_types MigrationReference.old_fruits) in
  change (SingerMigration.column_types MigrationReference.old_fruits) with d.
  let d := eval vm_compute in
             (SingerMigration.column_types
                MigrationReference.old_fruits_reordered) in
  change (SingerMigration.column_types MigrationReference.old_fruits_reordered)
    with d.
  cbn [Py.dict_get].
  destruct (String.eqb_spec c "fruit_id") as [->|_]; [reflexivity|].
  destruct (String.eqb_spec c "name") as [->|_]; [reflexivity|].
  destruct (String.eqb_spec c "colour") as [->|_]; reflexivity.
Defined.

Lemma migrate_reaches_new_schema_witness :
  exists db' cols',
    SingerMigration._migrate_schema (H := MigrationReference.columns_engine)
      MigrationReference.accept_type "public" "fruits"
      MigrationReference.old_fruits MigrationReference.new_fruits
      MigrationReference.fruits_tables = (inr tt, db')
    /\ SingerMigration.table_columns
         (ColumnCatalog := MigrationReference.columns_catalog)
         db' "public" "fruits" = Some cols'
    /\ forall c,
         cols' !! c
         = Py.dict_get c
             (SingerMigration.column_types MigrationReference.new_fruits).
Proof.
  pose proof (@migrate_reaches_new_schema MigrationReference.columns_engine
                MigrationReference.accept_type MigrationReference.columns_catalog
                columns_laws "public" "fruits"
                MigrationReference.old_fruits MigrationReference.new_fruits
                MigrationReference.fruits_tables
                MigrationReference.fruits_columns) as Hrun.
  assert (Hout : exists db',
    SingerMigration._migrate_schema (H := MigrationReference.columns_engine)
      MigrationReference.accept_type "public" "fruits"
      MigrationReference.old_fruits MigrationReference.new_fruits
      MigrationReference.fruits_tables = (inr tt, db'))
    by (eexists; vm_compute; reflexivity).
  destruct Hout as [db' Hout]. rewrite Hout in Hrun.
  destruct Hrun as (cols' & Hcols' & Hlook).
  - reflexivity.
  - intros c.
    let d := eval vm_compute in
               (SingerMigration.column_types MigrationReference.old_fruits) in
    change (SingerMigration.column_types MigrationReference.old_fruits) with d.
    cbn [Py.dict_get]. unfold MigrationReference.fruits_columns.
    destruct (String.eqb_spec c "fruit_id") as [->|H1]; [reflexivity|].
    rewrite lookup_insert_ne by congruence.
    destruct (String.eqb_spec c "name") as [->|H2]; [reflexivity|].
    rewrite lookup_insert_ne by congruence.
    destruct (String.eqb_spec c "colour") as [->|H3]; [reflexivity|].
    apply lookup_singleton_ne. congruence.
  - repeat constructor.
  - exists db', cols'. auto.
Defined.

(** ** The engine's own statements *)
Section OrderFacts.
Import EngineSql.

Lemma lex_assoc (c1 c2 c3 : comparison) :
  lex (lex c1 c2) c3 = lex c1 (lex c2 c3).
Proof. now destruct c1. Qed.

Lemma pair_compare_laws {A B} (cA : A -> A -> comparison)
    (cB : B -> B -> comparison) :
  CmpLaws cA -> CmpLaws cB -> CmpLaws (pair_compare cA cB).
Proof.
  intros [rA eA oA tA] [rB eB oB tB]. unfold pair_compare. split.
  - intros [a b]. cbn [fst snd]. now rewrite rA, rB.
  - intros [a b] [a' b']. cbn [fst snd]. intros Hcmp.
    destruct (cA a a') eqn:Ha; try discriminate. cbn [lex] in Hcmp.
    f_equal; auto.
  - intros [a b] [a' b']. cbn [fst snd]. rewrite (oA a a'), (oB b b').
    now destruct (cA a' a).
  - intros [a1 b1] [a2 b2] [a3 b3]. cbn [fst snd]. intros H12 H23.
    destruct (cA a1 a2) eqn:Ha12; try discriminate; cbn [lex] in H12.
    + apply eA in Ha12. subst a2.
      destruct (cA a1 a3) eqn:Ha13; try discriminate; cbn [lex] in *;
        [eauto|reflexivity].
    + destruct (cA a2 a3) eqn:Ha23; try discriminate; cbn [lex] in H23.
      * apply eA in Ha23. subst a3. now rewrite Ha12.
      * now rewrite (tA _ _ _ Ha12 Ha23).
Qed.

Lemma Z_compare_laws : CmpLaws Z.compare.
Proof.
  split.
  - apply Z.compare_refl.
  - intros a b. apply Z.compare_eq.
  - intros a b. apply Z.compare_antisym.
  - intros a b c Hab Hbc. rewrite Z.compare_lt_iff in *. lia.
Qed.

Lemma string_compare_laws : CmpLaws String.compare.
Proof.
  split.
  - intros a. induction a as [|c a IH]; [reflexivity|].
    cbn [String.compare]. unfold Ascii.compare. now rewrite N.compare_refl.
  - apply String.compare_eq_iff.
  - apply String.compare_antisym.
  - intros a b c Hab Hbc.
    assert (Hle : String.le a c).
    { transitivity b; unfold String.le, String.leb;
        [rewrite Hab|rewrite Hbc]; exact I. }
    unfold String.le, String.leb in Hle.
    destruct (String.compare a c) eqn:Hac; [|reflexivity|destruct Hle].
    apply String.compare_eq_iff in Hac. subst c.
    rewrite String.compare_antisym, Hab in Hbc. discriminate.
Qed.

Lemma bool_compare_laws : CmpLaws Bool.compare.
Proof.
  split.
  - now intros [].
  - now intros [] [].
  - now intros [] [].
  - now intros [] [] [].
Qed.

Lemma tuple_compare_laws : CmpLaws tuple_compare.
Proof.
  pose proof (pair_compare_laws _ _
                (pair_compare_laws _ _
                   (pair_compare_laws _ _ Z_compare_laws string_compare_laws)
                   string_compare_laws)
                bool_compare_laws) as Hlaws.
  assert (Heq : forall a b,
             tuple_compare a b
             = pair_compare
                 (pair_compare (pair_compare Z.compare String.compare)
                    String.compare) Bool.compare a b).
  { intros a b. unfold tuple_compare, pair_compare, spec_ordinal, spec_name,
      spec_type, spec_is_pk. now rewrite !lex_assoc. }
  destruct Hlaws as [r e o t]. split; intros; rewrite ?Heq in *; eauto.
Qed.

#[local] Instance tuple_le_total : Total tuple_le.
Proof.
  intros a b. unfold tuple_le.
  rewrite (cmp_opp _ tuple_compare_laws b a).
  destruct (tuple_compare a b); cbn; [left|left|right]; congruence.
Qed.

#[local] Instance tuple_le_antisym : AntiSymm eq tuple_le.
Proof.
  intros a b. unfold tuple_le. intros Hab Hba.
  rewrite (cmp_opp _ tuple_compare_laws b a) in Hba.
  destruct (tuple_compare a b) eqn:Hcmp; cbn in Hba; try congruence.
  now apply (cmp_eq _ tuple_compare_laws).
Qed.

#[local] Instance tuple_le_trans : Transitive tuple_le.
Proof.
  intros a b c. unfold tuple_le. intros Hab Hbc.
  destruct (tuple_compare a b) eqn:H1; try congruence.
  - apply (cmp_eq _ tuple_compare_laws) in H1. now subst b.
  - destruct (tuple_compare b c) eqn:H2; try congruence.
    + apply (cmp_eq _ tuple_compare_laws) in H2. subst c. rewrite H1. congruence.
    + rewrite (cmp_lt_trans _ tuple_compare_laws _ _ _ H1 H2). congruence.
Qed.

(** Sorting forgets the order of its input. *)
Lemma py_sorted_permutation (l1 l2 : list ColumnSpec) :
  l1 ≡ₚ l2 -> py_sorted l1 = py_sorted l2.
Proof.
  intros Hperm. unfold py_sorted.
  apply (StronglySorted_unique tuple_le).
  - apply StronglySorted_merge_sort; apply _.
  - apply StronglySorted_merge_sort; apply _.
  - now rewrite !merge_sort_Permutation.
Qed.

End OrderFacts.

Section EngineSqlFacts.
Import Engine Py EngineSql.

(** X15 (engine/__init__.py, execute_sql_in): when the query raises, its
    exception escapes and the statement that resets the search path is not
    issued: the backend has received the SET statement and the query, and
    nothing after them. *)
Theorem execute_sql_in_skips_reset_on_error (B : Backend)
    (schema sql : string) (db db1 db2 : @Db B) (log : list EngineCall)
    (r : Result) (e : Exn) :
  @run_sql B "SET search_path TO %s" [SqlText schema] NONE db = (inr r, db1) ->
  @run_sql B sql [] NONE db1 = (inl e, db2) ->
  execute_sql_in (H := logged B) schema sql (db, log)
  = (inl e,
     (db2, log ++ [SqlCall "SET search_path TO %s" [SqlText schema] NONE;
                   SqlCall sql [] NONE])).
Proof.
  intros Hset Hsql. unfold execute_sql_in. rewrite bind_unfold.
  cbn [run_sql logged fst snd]. rewrite Hset. rewrite bind_unfold.
  cbn [run_sql logged fst snd]. rewrite Hsql. now rewrite <- List.app_assoc.
Qed.

(** X16 (engine/__init__.py, create_table): the statement that is run does
    not depend on the order in which the columns are listed in
    [schema_spec]: two specifications with the same tuples run the same
    CREATE TABLE. *)
Theorem create_table_ignores_spec_order `{Backend}
    (schema table : string) (spec1 spec2 : list ColumnSpec) :
  spec1 ≡ₚ spec2 ->
  create_table schema table spec1 = create_table schema table spec2.
Proof.
  intros Hperm. unfold create_table.
  now rewrite (py_sorted_permutation spec1 spec2 Hperm).
Qed.

Lemma mapE_templates (cols : list (string * string * string)) :
  mapE column_template (dump_rows cols)
  = inr (map (fun c => ("{} " +:+ snd (fst c) +:+ " ")
                       +:+ (if String.eqb (snd c) "" then "NOT NULL" else ""))
             cols).
Proof.
  induction cols as [|[[n ty] nl] cols IH]; [reflexivity|].
  unfold dump_rows in *. cbn [map mapE fst snd] in *. rewrite IH.
  unfold column_template, unpack3. rewrite !Exn_bind_inr.
  cbn [sql_str sql_truthy]. rewrite negb_involutive. reflexivity.
Qed.

Lemma mapE_identifiers (cols : list (string * string * string)) :
  mapE column_identifier (dump_rows cols)
  = inr (map (fun c => PySql.Identifier (fst (fst c))) cols).
Proof.
  induction cols as [|[[n ty] nl] cols IH]; [reflexivity|].
  unfold dump_rows in *. cbn [map mapE fst snd] in *. rewrite IH. reflexivity.
Qed.

Lemma pk_identifiers_text (pks : list (string * string)) :
  exists ids,
    pk_identifiers (pk_rows pks) = inr ids
    /\ PySql.as_string ids
       = PySql.str_join "," (map (fun p => PySql.quote_ident (fst p)) pks).
Proof.
  unfold pk_identifiers.
  assert (Hids : mapE (fun row => p ← unpack2 row;
                                 i ← identifier_of (fst p);
                                 PySql.format "{}" [i]) (pk_rows pks)
                 = inr (map (fun p => PySql.Composed [PySql.Identifier (fst p)])
                            pks)).
  { induction pks as [|[c ty] pks IH]; [reflexivity|].
    unfold pk_rows in *. cbn [map mapE fst snd] in *. rewrite IH.
    reflexivity. }
  rewrite Hids, Exn_bind_inr. eexists. split; [reflexivity|].
  rewrite as_string_join, map_map. f_equal. apply map_ext. intros [c ty].
  cbn [fst]. rewrite as_string_Composed_cons. apply str_app_nil_r.
Qed.

Lemma format_dump_columns (cols : list (string * string * string)) :
  Forall (fun c => PySql.no_braces (snd (fst c)) = true) cols ->
  exists body,
    PySql.format
      (PySql.str_join ","
         (map (fun c => ("{} " +:+ snd (fst c) +:+ " ")
                        +:+ (if String.eqb (snd c) "" then "NOT NULL" else ""))
              cols))
      (map (fun c => PySql.Identifier (fst (fst c))) cols) = inr body
    /\ PySql.as_string body = PySql.str_join "," (map dump_column cols).
Proof.
  intros Htypes.
  destruct (format_joined ","
              (map (fun c => (PySql.Identifier (fst (fst c)),
                              " " +:+ snd (fst c) +:+ " "
                              +:+ (if String.eqb (snd c) ""
                                   then "NOT NULL" else ""))) cols)
              eq_refl) as (body & Hbody & Hstr).
  { apply Forall_map. eapply Forall_impl; [exact Htypes|].
    intros c Hc. cbn [snd]. rewrite !no_braces_app, Hc.
    now destruct (String.eqb (snd c) ""). }
  repeat rewrite map_map in Hbody. repeat rewrite map_map in Hstr.
  cbn [fst snd] in Hbody, Hstr.
  exists body. split; [|exact Hstr].
  rewrite <- Hbody. f_equal. f_equal. apply map_ext. intros c.
  now rewrite !str_app_assoc.
Qed.

(** X19 (engine/__init__.py, copy_table): the copy and the primary key are
    one statement: CREATE TABLE AS, or INSERT INTO when [table_exists] is
    set, followed for either by ALTER TABLE ... ADD PRIMARY KEY over the key
    columns of the source when [with_pk_constraints] is set and the source
    has a key.  Without [with_pk_constraints] the key is not read. *)
Theorem copy_table_single_statement `{Backend}
    (source_schema source_table target_schema target_table : string)
    (with_pk_constraints table_exists : bool)
    (pks : list (string * string)) (db db1 : Db) :
  (if with_pk_constraints
   then get_primary_keys source_schema source_table db
        = (inr (pk_rows pks), db1)
   else db1 = db /\ pks = []) ->
  copy_table source_schema source_table target_schema target_table
    with_pk_constraints table_exists db
  = (_ ← run_sql (copy_head source_schema source_table target_schema
                    target_table table_exists
                  +:+ pk_constraint target_schema target_table pks) [] NONE;
     mret tt) db1.
Proof.
  intros Hpks. unfold copy_table.
  assert (Hhead : exists q,
             (if negb table_exists
              then PySql.format "CREATE TABLE {}.{} AS SELECT * FROM {}.{};"
                     [PySql.Identifier target_schema;
                      PySql.Identifier target_table;
                      PySql.Identifier source_schema;
                      PySql.Identifier source_table]
              else PySql.format "INSERT INTO {}.{} SELECT * FROM {}.{};"
                     [PySql.Identifier target_schema;
                      PySql.Identifier target_table;
                      PySql.Identifier source_schema;
                      PySql.Identifier source_table]) = inr q
             /\ PySql.as_string q
                = copy_head source_schema source_table target_schema
                    target_table table_exists).
  { unfold copy_head. destruct table_exists; cbn [negb].
    - exists (PySql.Composed
                [PySql.SQL "INSERT INTO "; PySql.Identifier target_schema;
                 PySql.SQL "."; PySql.Identifier target_table;
                 PySql.SQL " SELECT * FROM "; PySql.Identifier source_schema;
                 PySql.SQL "."; PySql.Identifier source_table; PySql.SQL ";"]).
      split; [reflexivity|].
      rewrite !as_string_Composed_cons. cbn [PySql.as_string].
      str_norm. reflexivity.
    - exists (PySql.Composed
                [PySql.SQL "CREATE TABLE "; PySql.Identifier target_schema;
                 PySql.SQL "."; PySql.Identifier target_table;
                 PySql.SQL " AS SELECT * FROM "; PySql.Identifier source_schema;
                 PySql.SQL "."; PySql.Identifier source_table; PySql.SQL ";"]).
      split; [reflexivity|].
      rewrite !as_string_Composed_cons. cbn [PySql.as_string].
      str_norm. reflexivity. }
  destruct Hhead as (q & -> & Hq). rewrite liftE_bind.
  destruct with_pk_constraints.
  - rewrite bind_unfold, (bind_unfold (get_primary_keys _ _)), Hpks.
    destruct (pk_identifiers_text pks) as (ids & Hids & Hids_text).
    destruct pks as [|pk pks].
    + change (rows_truthy (pk_rows [])) with false. cbn iota.
      cbn [mret M_ret pk_constraint]. rewrite Hq, str_app_nil_r. reflexivity.
    + change (rows_truthy (pk_rows (pk :: pks))) with true. cbn iota.
      change (PySql.format "ALTER TABLE {}.{} ADD PRIMARY KEY ("
                [PySql.Identifier target_schema; PySql.Identifier target_table])
        with (@inr Exn _ (PySql.Composed
                [PySql.SQL "ALTER TABLE "; PySql.Identifier target_schema;
                 PySql.SQL "."; PySql.Identifier target_table;
                 PySql.SQL " ADD PRIMARY KEY ("])).
      rewrite liftE_bind, Hids, liftE_bind. cbn [mret M_ret].
      rewrite !as_string_add, !as_string_Composed_cons, Hq, Hids_text.
      cbn [PySql.as_string pk_constraint]. str_norm. reflexivity.
  - destruct Hpks as [-> ->]. rewrite bind_unfold.
    cbn [mret M_ret pk_constraint]. rewrite Hq, str_app_nil_r. reflexivity.
Qed.

Section DumpFacts.
Context `{Backend}.
Variable columns_of : string -> list (string * string * string).
Variable pks_of : string -> list (string * string).
Variable schema : string.
Variable created_schema : option string.
Hypothesis columns_answer : forall table db, exists db',
  run_sql dump_columns_query [SqlText table; SqlText schema] MANY_MANY db
  = (inr (Rows (dump_rows (columns_of table))), db').
Hypothesis pks_answer : forall table db, exists db',
  get_primary_keys schema table db = (inr (pk_rows (pks_of table)), db').

Lemma dump_one_table_text (table : string) (db : Db) :
  Forall (fun c => PySql.no_braces (snd (fst c)) = true) (columns_of table) ->
  exists q db',
    dump_one_table schema created_schema table db = (inr q, db')
    /\ PySql.as_string q
       = dump_text created_schema table (columns_of table) (pks_of table).
Proof.
  intros Htypes. unfold dump_one_table.
  destruct (columns_answer table db) as [db1 Hcols].
  rewrite bind_unfold, Hcols. cbn [rows_of]. rewrite liftE_bind.
  assert (Htarget : exists target,
             (if str_truthy created_schema
              then PySql.format "{}.{}"
                     [PySql.Identifier (default "" created_schema);
                      PySql.Identifier table]
              else inr (PySql.Identifier table)) = inr target
             /\ PySql.as_string target = dump_target created_schema table).
  { unfold dump_target. destruct (str_truthy created_schema).
    - exists (PySql.Composed [PySql.Identifier (default "" created_schema);
                              PySql.SQL "."; PySql.Identifier table]).
      split; [reflexivity|].
      rewrite !as_string_Composed_cons. cbn [PySql.as_string].
      now rewrite str_app_nil_r.
    - eexists. split; reflexivity. }
  destruct Htarget as (target & -> & Htarget). rewrite liftE_bind.
  change (PySql.format "CREATE TABLE {} (" [target])
    with (@inr Exn _ (PySql.Composed [PySql.SQL "CREATE TABLE "; target;
                                      PySql.SQL " ("])).
  rewrite liftE_bind, mapE_templates, liftE_bind, mapE_identifiers, liftE_bind.
  destruct (format_dump_columns (columns_of table) Htypes)
    as (body & -> & Hbody).
  rewrite liftE_bind.
  destruct (pks_answer table db1) as [db2 Hpks].
  rewrite bind_unfold, Hpks.
  destruct (pk_identifiers_text (pks_of table)) as (ids & Hids & Hids_text).
  unfold dump_text, primary_key_clause.
  destruct (pks_of table) as [|pk pks] eqn:Hpk.
  - cbn [pk_rows map rows_truthy]. eexists _, db2. split; [reflexivity|].
    rewrite !as_string_add, !as_string_Composed_cons, Hbody, Htarget.
    cbn [PySql.as_string]. str_norm. reflexivity.
  - change (rows_truthy (pk_rows (pk :: pks))) with true. cbn iota.
    rewrite Hids, liftE_bind. eexists _, db2. split; [reflexivity|].
    rewrite !as_string_add, !as_string_Composed_cons, Hbody, Htarget,
      Hids_text.
    cbn [PySql.as_string]. str_norm. reflexivity.
Qed.

Lemma dump_tables_text (tables : list string) :
  Forall (fun table =>
            Forall (fun c => PySql.no_braces (snd (fst c)) = true)
                   (columns_of table)) tables ->
  forall queries db, exists qs db',
    dump_tables schema created_schema tables queries db
    = (inr (queries ++ qs), db')
    /\ map PySql.as_string qs
       = map (fun table => dump_text created_schema table (columns_of table)
                             (pks_of table)) tables.
Proof.
  intros Htables. induction Htables as [|table tables Ht Htables IH];
    intros queries db.
  - exists [], db. rewrite app_nil_r. split; reflexivity.
  - cbn [dump_tables]. rewrite bind_unfold.
    destruct (dump_one_table_text table db Ht) as (q & db1 & -> & Hq).
    destruct (IH (queries ++ [q]) db1) as (qs & db' & -> & Hqs).
    exists (q :: qs), db'. rewrite <- List.app_assoc. split; [reflexivity|].
    cbn [map]. now rewrite Hq, Hqs.
Qed.

(** X17 (engine/__init__.py, dump_table_creation): for a catalog that
    answers with text, the statement is one CREATE TABLE per table, joined
    by semicolons, with the quoted column names and their types and the
    primary key; a column is declared NOT NULL only when the catalog's
    [is_nullable] is the empty text, so neither for YES nor for NO. *)
Theorem dump_table_creation_text (tables : list string) (db : Db) :
  Forall (fun table =>
            Forall (fun c => PySql.no_braces (snd (fst c)) = true)
                   (columns_of table)) tables ->
  exists q db',
    dump_table_creation schema tables created_schema db = (inr q, db')
    /\ PySql.as_string q
       = PySql.str_join ";"
           (map (fun table => dump_text created_schema table
                                (columns_of table) (pks_of table)) tables).
Proof.
  intros Htables. unfold dump_table_creation. rewrite bind_unfold.
  destruct (dump_tables_text tables Htables [] db) as (qs & db' & -> & Hqs).
  exists (PySql.join (PySql.SQL ";") qs), db'. split; [reflexivity|].
  now rewrite as_string_join, Hqs.
Qed.

End DumpFacts.

End EngineSqlFacts.

Lemma execute_sql_in_skips_reset_on_error_witness :
  exists db,
    EngineSql.execute_sql_in (H := EngineSql.logged Reference.ref_backend)
      "staging" "RAISE" (Reference.fruits_db, [])
    = (inl (DatabaseError "raised"),
       (db, [EngineSql.SqlCall "SET search_path TO %s" [SqlText "staging"]
               Engine.NONE;
             EngineSql.SqlCall "RAISE" [] Engine.NONE])).
Proof.
  eexists.
  refine (execute_sql_in_skips_reset_on_error Reference.ref_backend
            "staging" "RAISE" Reference.fruits_db _ _ [] _ _ _ _);
    vm_compute; reflexivity.
Defined.

Lemma create_table_ignores_spec_order_witness :
  EngineSql.create_table (H := Reference.ref_backend) "public" "fruits"
    EngineSql.fruits_tuples
  = EngineSql.create_table "public" "fruits" EngineSql.fruits_tuples_shuffled.
Proof.
  apply create_table_ignores_spec_order. apply perm_swap.
Defined.

Lemma dump_table_creation_text_witness :
  exists q db',
    EngineSql.dump_table_creation (H := EngineSql.catalog_backend) "public"
      ["fruits"; "log"] (Some "archive") [] = (inr q, db')
    /\ as_string q
       = str_join ";"
           (map (fun table =>
                   EngineSql.dump_text (Some "archive") table
                     (EngineSql.sample_columns table)
                     (EngineSql.sample_pks table))
                ["fruits"; "log"]).
Proof.
  apply (dump_table_creation_text (H := EngineSql.catalog_backend)
           EngineSql.sample_columns EngineSql.sample_pks "public"
           (Some "archive")).
  - intros table db. eexists. reflexivity.
  - intros table db. eexists. reflexivity.
  - vm_compute. repeat constructor.
Defined.

Lemma copy_table_single_statement_witness :
  exists db1,
    EngineSql.copy_table (H := EngineSql.catalog_backend) "staging" "fruits"
      "public" "fruits" true true []
    = (_ ← Engine.run_sql
             (EngineSql.copy_head "staging" "fruits" "public" "fruits" true
              +:+ EngineSql.pk_constraint "public" "fruits"
                    (EngineSql.sample_pks "fruits")) [] Engine.NONE;
       mret tt) db1.
Proof.
  eexists.
  refine (copy_table_single_statement (H := EngineSql.catalog_backend)
            "staging" "fruits" "public" "fruits" true true
            (EngineSql.sample_pks "fruits") [] _ _).
  reflexivity.
Defined.


Lemma introspect_is_all_or_nothing_witness :
  exists db,
    Fdw.introspect (H := FdwReference.recording_engine FdwReference.some_broken)
      Fdw.Mongo FdwReference.mongo_source []
    = (inl (DatabaseError "relation is broken"), db).
Proof.
  eapply (introspect_is_all_or_nothing
            (H := FdwReference.recording_engine FdwReference.some_broken)
            Fdw.Mongo FdwReference.mongo_source "sg_tmp_1"
            (DatabaseError "relation is broken") ["fruits"] "broken"
            ["vegetables"]);
    [vm_compute; reflexivity | vm_compute; reflexivity
    | vm_compute; reflexivity
    | recording_engine_never_raises | recording_engine_never_raises
    | recording_engine_never_raises
    | repeat constructor; intros s; eexists _, _; reflexivity
    | intros s; eexists; reflexivity].
Defined.

Lemma mongo_get_table_schema_idempotent_witness :
  MongoDataSource.get_table_schema "vegetables"
    (FdwReference.fruit_columns
     ++ [{| Types.ordinal := 4; Types.name := "_id"; Types.pg_type := "NAME";
            Types.is_pk := false; Types.comment := None |}])
  = inr (FdwReference.fruit_columns
         ++ [{| Types.ordinal := 4; Types.name := "_id";
                Types.pg_type := "NAME"; Types.is_pk := false;
                Types.comment := None |}]).
Proof.
  apply (mongo_get_table_schema_idempotent "fruits" "vegetables"
           FdwReference.fruit_columns).
  reflexivity.
Defined.

(** ** Table definitions of CSV files *)
Section TableDefinitionFacts.
Import Py CsvFdw CsvTableDefinition.

(** X23 (csv/fdw.py, _get_table_definition): when [make_csv_reader] has
    returned, the options say that there is no header and the sample is
    empty (the reader yields no row among the first [schema_inference_rows],
    as it does when that option is 0), the function raises [IndexError] at
    [sample[0]], before any schema is inferred. *)
Theorem get_table_definition_needs_a_row {Stream} `{CsvCommon Stream}
    (response : Stream) (fdw_options table_options : Options)
    (table_name : string) (o csv_options : CSVOptions)
    (reader : list (list string)) :
  from_fdw_options (table_options ∪ fdw_options) = inr o ->
  make_csv_reader response o = inr (csv_options, reader) ->
  header csv_options = false ->
  take (schema_inference_rows csv_options) reader = [] ->
  CsvTableDefinition._get_table_definition response fdw_options table_name
    table_options
  = inl (IndexError "list index out of range").
Proof.
  intros Ho Hreader Hheader Hsample.
  unfold CsvTableDefinition._get_table_definition.
  rewrite Ho, Exn_bind_inr, Hreader, Exn_bind_inr, Hheader, Hsample.
  reflexivity.
Qed.

(** X24 (csv/fdw.py, _introspect_url with _get_table_definition): when the
    URL can be read, [make_csv_reader] has returned, there is no header and
    the sample is empty (as it is when [schema_inference_rows] is 0), the
    import does not fail: the [IndexError] of [sample[0]] is sent as a
    notice for the table and the function returns [None]. *)
Theorem introspect_url_reports_empty_sample
    `{R : Remote} `{!CsvCommon (@Response R)} `{!ReadsDefinitions}
    (srv_options : Options) (url : string) (table_name : option string)
    (table_options : option Options) (response : Response)
    (o csv_options : CSVOptions) (reader : list (list string))
    (sent : list Notice) :
  http_get url = inr response ->
  from_fdw_options (default ∅ table_options ∪ srv_options) = inr o ->
  make_csv_reader response o = inr (csv_options, reader) ->
  header csv_options = false ->
  take (schema_inference_rows csv_options) reader = [] ->
  _introspect_url srv_options url table_name table_options sent
  = (inr None,
     sent ++ [Statements.notice_for (str_or table_name "data")
                (IndexError "list index out of range")]).
Proof.
  intros Hget Ho Hreader Hheader Hsample.
  rewrite introspect_url_outcome. unfold fetch_url.
  rewrite Hget, reads_definitions.
  unfold CsvTableDefinition._get_table_definition.
  rewrite Ho, Exn_bind_inr, Hreader, Exn_bind_inr, Hheader, Hsample.
  reflexivity.
Qed.

Lemma sample_remote_reads_definitions :
  @ReadsDefinitions sample_remote sample_common.
Proof. intros response srv_options table_name table_options. reflexivity. Qed.

End TableDefinitionFacts.

Lemma get_table_definition_needs_a_row_witness :
  CsvTableDefinition._get_table_definition
    (H := CsvTableDefinition.sample_common) CsvTableDefinition.fruits_csv
    {[ "schema_inference_rows" := "0" ]} "data" {[ "header" := "false" ]}
  = inl (IndexError "list index out of range").
Proof.
  apply (get_table_definition_needs_a_row
           (H := CsvTableDefinition.sample_common)
           CsvTableDefinition.fruits_csv
           {[ "schema_inference_rows" := "0" ]} {[ "header" := "false" ]}
           "data" (false, 0%nat) (false, 0%nat) [["a"; "b"]; ["c"; "d"]]);
    vm_compute; reflexivity.
Defined.

Lemma introspect_url_reports_empty_sample_witness :
  CsvFdw._introspect_url (H := CsvTableDefinition.sample_remote)
    {[ "header" := "false"; "schema_inference_rows" := "0" ]}
    "http://files/fruits.csv" None None []
  = (inr None,
     [Statements.notice_for (H := CsvTableDefinition.sample_remote) "data"
        (IndexError "list index out of range")]).
Proof.
  apply (@introspect_url_reports_empty_sample CsvTableDefinition.sample_remote
           CsvTableDefinition.sample_common sample_remote_reads_definitions
           {[ "header" := "false"; "schema_inference_rows" := "0" ]}
           "http://files/fruits.csv" None None
           CsvTableDefinition.fruits_csv (false, 0%nat) (false, 0%nat)
           [["a"; "b"]; ["c"; "d"]] []);
    vm_compute; reflexivity.
Defined.
